(** * A shallow embedding of the arcade shooter [game_start_ver.py]

    The development follows the source file top-down: Python numbers,
    pygame rectangles and sprite groups, [Config], [Difficulty], the entity
    classes ([Player], [Bullet], [Enemy], [Boss]), [StoryManager],
    [QuadTree], [ParticleSystem] and [Game].

    Modelling conventions.
    - A Python number is an [int] or a [float]; floats are IEEE binary64 and
      are modelled by Rocq's primitive floats, so that accumulated timers
      round exactly as they do in CPython.
    - Sprites live in a store (a list indexed by object identity); sprite
      groups ([enemies], [all_sprites], [player.bullets]) and the quadtree
      hold identities, as the Python objects hold references.
    - [pygame.time.get_ticks()] and the [random] module are inputs: the
      clock sample is an argument, the generator is a stream of raw draws.
    - [ParticleSystem] is visual only and no game-logic field reads it:
      it is modelled on its own, and [Game] leaves out the calls to it
      (with the draws they make from the generator). Rendering is left
      out.
    - A method keeps its name. The long methods are cut at their own
      comments: [Game.check_collisions] into the quadtree rebuild, the
      bullet-enemy pass, the player-enemy pass and the level completion
      check; the body of the loop of [Game.run] into [Game.run_event],
      [Game.run_update] and [Game.run_render].
    - [QuadTree.insert] recurses into nodes it has just created; it is
      given fuel, and shown to return whenever the capacity is positive. *)

From Stdlib Require Import ZArith List Bool Lia Floats Uint63.
From stdpp Require Import base list.
Import ListNotations.

Set Warnings "-inexact-float".

Local Open Scope Z_scope.

(** ** Python numbers *)

Inductive num : Type :=
| Int (z : Z)
| Flt (f : float).

(** [float(z)] for an [int]; exact for [|z| < 2^53], which covers every
    integer the game converts (coordinates, speeds, millisecond counts). *)
Definition float_of_Z (z : Z) : float :=
  match z with
  | Z0 => 0%float
  | Zpos _ => PrimFloat.of_uint63 (Uint63.of_Z z)
  | Zneg p => (- PrimFloat.of_uint63 (Uint63.of_Z (Zpos p)))%float
  end.

Definition to_float (a : num) : float :=
  match a with
  | Int z => float_of_Z z
  | Flt f => f
  end.

(** The C cast [(int)d] pygame applies when a float is stored in a [Rect]
    field: truncation toward zero. Not-a-number and the infinities never
    occur in the game; they are sent to 0 here. *)
Definition trunc_float (f : float) : Z :=
  match Prim2SF f with
  | S754_finite s m e =>
      let a := if 0 <=? e then Z.pos m * 2 ^ e else Z.shiftr (Z.pos m) (- e) in
      if s then - a else a
  | _ => 0
  end.

Definition to_int (a : num) : Z :=
  match a with
  | Int z => z
  | Flt f => trunc_float f
  end.

Definition num_add (a b : num) : num :=
  match a, b with
  | Int x, Int y => Int (x + y)
  | _, _ => Flt (to_float a + to_float b)
  end.

Definition num_sub (a b : num) : num :=
  match a, b with
  | Int x, Int y => Int (x - y)
  | _, _ => Flt (to_float a - to_float b)
  end.

Definition num_mul (a b : num) : num :=
  match a, b with
  | Int x, Int y => Int (x * y)
  | _, _ => Flt (to_float a * to_float b)
  end.

(** [a / b], Python's true division: always a float. *)
Definition num_truediv (a b : num) : num :=
  Flt (to_float a / to_float b).

Definition num_neg (a : num) : num :=
  match a with
  | Int x => Int (- x)
  | Flt f => Flt (- f)
  end.

Definition num_ltb (a b : num) : bool :=
  match a, b with
  | Int x, Int y => x <? y
  | _, _ => (to_float a <? to_float b)%float
  end.

Definition num_leb (a b : num) : bool :=
  match a, b with
  | Int x, Int y => x <=? y
  | _, _ => (to_float a <=? to_float b)%float
  end.

Definition num_gtb (a b : num) : bool := num_ltb b a.
Definition num_geb (a b : num) : bool := num_leb b a.

Declare Scope num_scope.
Delimit Scope num_scope with num.
Bind Scope num_scope with num.
Infix "+" := num_add : num_scope.
Infix "-" := num_sub : num_scope.
Infix "*" := num_mul : num_scope.
Infix "/" := num_truediv : num_scope.
Infix "<?" := num_ltb : num_scope.
Infix "<=?" := num_leb : num_scope.
Infix ">?" := num_gtb : num_scope.
Infix ">=?" := num_geb : num_scope.
Coercion Int : Z >-> num.

(** ** pygame.Rect *)

Module Rect.

Record t : Type := mk { x : Z; y : Z; w : Z; h : Z }.

Definition left (r : t) : Z := x r.
Definition top (r : t) : Z := y r.
Definition right (r : t) : Z := x r + w r.
Definition bottom (r : t) : Z := y r + h r.
Definition centerx (r : t) : Z := x r + Z.quot (w r) 2.
Definition centery (r : t) : Z := y r + Z.quot (h r) 2.

Definition set_x (v : Z) (r : t) : t := mk v (y r) (w r) (h r).
Definition set_y (v : Z) (r : t) : t := mk (x r) v (w r) (h r).
Definition set_centerx (v : Z) (r : t) : t := set_x (v - Z.quot (w r) 2) r.
Definition set_bottom (v : Z) (r : t) : t := set_y (v - h r) r.

(** [pygame.Rect.colliderect]: overlap of the two areas; rectangles
    that only share an edge, and rectangles of zero size, do not
    collide. *)
Definition colliderect (a b : t) : bool :=
  if (w a =? 0) || (h a =? 0) || (w b =? 0) || (h b =? 0) then false
  else
    (Z.min (x a) (x a + w a) <? Z.max (x b) (x b + w b))
    && (Z.min (y a) (y a + h a) <? Z.max (y b) (y b + h b))
    && (Z.max (x a) (x a + w a) >? Z.min (x b) (x b + w b))
    && (Z.max (y a) (y a + h a) >? Z.min (y b) (y b + h b)).

End Rect.

(** ** The generator behind [random]

    An oracle: a stream of raw draws and a cursor. [randrange] and
    [random] consume one draw each. *)

Module Random.

Record t : Type := mk { raw : nat -> Z; cursor : nat }.

Definition next (r : t) : Z * t :=
  (raw r (cursor r), mk (raw r) (S (cursor r))).

(** [random.randrange(start, stop)] *)
Definition randrange (start stop : Z) (r : t) : Z * t :=
  let (d, r) := next r in (start + d mod (stop - start), r).

(** [random.random()]: a multiple of [2^-53] in [0, 1). *)
Definition random (r : t) : float * t :=
  let (d, r) := next r in
  ((float_of_Z (d mod 2 ^ 53) / float_of_Z (2 ^ 53))%float, r).

End Random.

(** ** Constants and configurations *)

Module Config.
Definition SCREEN_WIDTH : Z := 800.
Definition SCREEN_HEIGHT : Z := 600.
Definition FPS : Z := 60.
Definition PLAYER_SPEED : Z := 5.
Definition BULLET_SPEED : Z := 10.
Definition ENEMY_SPEED : Z := 2.
End Config.

(** The payload of a [Difficulty] member (its display name is left out). *)
Record DifficultyValue : Type :=
  { d_enemies : Z; d_speed : num; d_health : Z }.

Module Difficulty.
Inductive t : Type := EASY | NORMAL | HARD.

Definition value (d : t) : DifficultyValue :=
  match d with
  | EASY => {| d_enemies := 5; d_speed := Int 1; d_health := 1 |}
  | NORMAL => {| d_enemies := 8; d_speed := Flt 1.5; d_health := 2 |}
  | HARD => {| d_enemies := 12; d_speed := Int 2; d_health := 3 |}
  end.
End Difficulty.

Module GameState.
Inductive t : Type := MENU | GAME | GAME_OVER | VICTORY | STORY | UPGRADE.

Definition eqb (a b : t) : bool :=
  match a, b with
  | MENU, MENU | GAME, GAME | GAME_OVER, GAME_OVER
  | VICTORY, VICTORY | STORY, STORY | UPGRADE, UPGRADE => true
  | _, _ => false
  end.
End GameState.

(** ** Sprites

    [Entity] gives every sprite a rectangle, [health] and [max_health];
    [Bullet], [Enemy] and [Boss] all add [speed]. What is particular to a
    class is in [kind]. ([Enemy.difficulty] is stored and never read.) *)

Record BossState : Type :=
  { pattern : Z; pattern_timer : Z; attack_timer : num; attack_delay : Z }.

Inductive SpriteKind : Type :=
| KEnemy
| KBoss (b : BossState)
| KBullet (damage : num).

Record Sprite : Type :=
  { rect : Rect.t; health : num; max_health : num; speed : num;
    kind : SpriteKind }.

Definition set_rect (r : Rect.t) (s : Sprite) : Sprite :=
  {| rect := r; health := health s; max_health := max_health s;
     speed := speed s; kind := kind s |}.

Definition set_health (v : num) (s : Sprite) : Sprite :=
  {| rect := rect s; health := v; max_health := max_health s;
     speed := speed s; kind := kind s |}.

Definition set_speed (v : num) (s : Sprite) : Sprite :=
  {| rect := rect s; health := health s; max_health := max_health s;
     speed := v; kind := kind s |}.

Definition set_kind (k : SpriteKind) (s : Sprite) : Sprite :=
  {| rect := rect s; health := health s; max_health := max_health s;
     speed := speed s; kind := k |}.

(** [isinstance(s, Boss)] *)
Definition is_boss (s : Sprite) : bool :=
  match kind s with KBoss _ => true | _ => false end.

(** [Entity.__init__(x, y, width, height, color)] *)
Definition Entity_init (x y width height : Z) (k : SpriteKind) : Sprite :=
  {| rect := Rect.mk x y width height; health := Int 1; max_health := Int 1;
     speed := Int 0; kind := k |}.

(** The object store. An identity is an index; allocation appends. *)
Abbreviation Store := (list Sprite).

Definition alloc (s : Sprite) (st : Store) : nat * Store :=
  (length st, st ++ [s]).

Definition dummy_sprite : Sprite := Entity_init 0 0 0 0 KEnemy.

(** Dereference; every identity held by a group or by the quadtree was
    returned by [alloc], so the default is never used. *)
Definition deref (st : Store) (i : nat) : Sprite :=
  match st !! i with Some s => s | None => dummy_sprite end.

(** ** pygame.sprite.Group: identities in insertion order, no repeats *)

Abbreviation Group := (list nat).

Definition group_has (i : nat) (g : Group) : bool :=
  existsb (Nat.eqb i) g.

Definition group_add (i : nat) (g : Group) : Group :=
  if group_has i g then g else g ++ [i].

Definition group_remove (i : nat) (g : Group) : Group :=
  List.filter (fun j => negb (Nat.eqb i j)) g.

(** [math.sin] and [math.cos] of the C library: taken as given. *)
Class Libm : Type :=
  { math_sin : float -> float; math_cos : float -> float }.

(** The keys [pygame.key.get_pressed()] reports as held. *)
Record Keys : Type :=
  { K_LEFT : bool; K_RIGHT : bool; K_UP : bool; K_DOWN : bool;
    K_SPACE : bool }.

(** One tick in milliseconds, [1000 / Config.FPS]. *)
Definition tick_ms : num := (Int 1000 / Int Config.FPS)%num.

(** ** class Bullet(Entity) *)

Module Bullet.

Definition init (x y : Z) : Sprite :=
  let s := Entity_init x y 5 15 (KBullet (Int 10)) in
  let s := set_speed (Int Config.BULLET_SPEED) s in
  let s := set_rect (Rect.set_centerx x (rect s)) s in
  set_rect (Rect.set_bottom y (rect s)) s.

Definition damage (s : Sprite) : num :=
  match kind s with KBullet d => d | _ => Int 0 end.

(** Returns the bullet and whether it called [self.kill()]. *)
Definition update (s : Sprite) : Sprite * bool :=
  let s := set_rect (Rect.set_y (to_int (Int (Rect.y (rect s)) - speed s)%num)
                                (rect s)) s in
  (s, Rect.bottom (rect s) <? 0).

End Bullet.

(** ** class Enemy(Entity) *)

Module Enemy.

Definition init (difficulty : DifficultyValue) (x y : option Z)
    (rng : Random.t) : Sprite * Random.t :=
  let (x, rng) :=
    match x with
    | Some x => (x, rng)
    | None => Random.randrange 0 (Config.SCREEN_WIDTH - 40) rng
    end in
  let (y, rng) :=
    match y with
    | Some y => (y, rng)
    | None => Random.randrange (-100) (-40) rng
    end in
  let s := Entity_init x y 40 40 KEnemy in
  let s := set_speed (Int Config.ENEMY_SPEED * d_speed difficulty)%num s in
  ({| rect := rect s; health := Int (d_health difficulty);
      max_health := Int (d_health difficulty); speed := speed s;
      kind := kind s |}, rng).

Definition reset_position (s : Sprite) (rng : Random.t)
    : Sprite * Random.t :=
  let (x, rng) :=
    Random.randrange 0 (Config.SCREEN_WIDTH - Rect.w (rect s)) rng in
  let s := set_rect (Rect.set_x x (rect s)) s in
  let (y, rng) := Random.randrange (-100) (-40) rng in
  (set_rect (Rect.set_y y (rect s)) s, rng).

Definition update (s : Sprite) (rng : Random.t) : Sprite * Random.t :=
  let s := set_rect (Rect.set_y (to_int (Int (Rect.y (rect s)) + speed s)%num)
                                (rect s)) s in
  if Rect.top (rect s) >? Config.SCREEN_HEIGHT then reset_position s rng
  else (s, rng).

End Enemy.

(** ** class Boss(Enemy) *)

Module Boss.

Definition init (difficulty : DifficultyValue) (rng : Random.t)
    : Sprite * Random.t :=
  let (s, rng) :=
    Enemy.init difficulty (Some (Config.SCREEN_WIDTH / 2 - 40))
               (Some (-100)) rng in
  let s := set_health (Int 50 * Int (d_health difficulty))%num s in
  ({| rect := rect s; health := health s; max_health := health s;
      speed := speed s;
      kind := KBoss {| pattern := 0; pattern_timer := 0;
                       attack_timer := Int 0; attack_delay := 1000 |} |},
   rng).

Definition state (s : Sprite) : BossState :=
  match kind s with
  | KBoss b => b
  | _ => {| pattern := 0; pattern_timer := 0; attack_timer := Int 0;
            attack_delay := 1000 |}
  end.

(** Returns the boss and the attack signal. *)
Definition update `{Libm} (s : Sprite) : Sprite * bool :=
  let b := state s in
  let pt := pattern_timer b + 1 in
  let at_ := (attack_timer b + tick_ms)%num in
  (* Movement patterns *)
  let '(r, p, pt) :=
    let r := rect s in
    if pattern b =? 0 then
      let r := Rect.set_y (Rect.y r + 1) r in
      (r, (if Rect.top r >? 50 then 1 else pattern b), pt)
    else if pattern b =? 1 then
      let dx := Flt (math_sin (to_float (Int pt * Flt 0.05)%num) * 3)%float in
      let r := Rect.set_x (to_int (Int (Rect.x r) + dx)%num) r in
      if pt >? 200 then (r, 2, 0) else (r, pattern b, pt)
    else if pattern b =? 2 then
      let angle := to_float (Int pt * Flt 0.05)%num in
      let r := Rect.set_x
                 (to_int (Int (Config.SCREEN_WIDTH / 2)
                          + Flt (math_sin angle * 200)%float)%num) r in
      let r := Rect.set_y
                 (to_int (Int 100 + Flt (math_cos angle * 50)%float)%num) r in
      if pt >? 300 then (r, 1, 0) else (r, pattern b, pt)
    else (r, pattern b, pt) in
  (* Attack logic *)
  let fire := (at_ >=? Int (attack_delay b))%num in
  let at_ := if fire then Int 0 else at_ in
  (set_kind (KBoss {| pattern := p; pattern_timer := pt;
                      attack_timer := at_;
                      attack_delay := attack_delay b |})
            (set_rect r s),
   fire).

End Boss.

(** ** class StoryManager *)

Module StoryManager.

(** The five chapter texts are display strings; only their number is
    read by the game logic. *)
Record t : Type := mk { chapters : nat; current_chapter : Z }.

Definition init : t := mk 5 0.

(** [get_current_story() is not None] *)
Definition has_current_story (self : t) : bool :=
  current_chapter self <? Z.of_nat (chapters self).

Definition advance_story (self : t) : t * bool :=
  let self := mk (chapters self) (current_chapter self + 1) in
  (self, current_chapter self <? Z.of_nat (chapters self)).

End StoryManager.

(** ** class Player(Entity) *)

Module Player.

(** [self.upgrades], a dict with exactly these four keys. *)
Record Upgrades : Type :=
  { u_speed : num; u_damage : num; u_fire_rate : num; u_shield : num }.

Record t : Type :=
  { rect : Rect.t; speed : Z; health : Z; max_health : Z;
    bullets : Group; shoot_delay : Z; last_shot : Z;
    upgrades : Upgrades;
    shield_active : bool; shield_timer : num; shield_duration : Z }.

Definition set_rect (r : Rect.t) (p : t) : t :=
  {| rect := r; speed := speed p; health := health p;
     max_health := max_health p; bullets := bullets p;
     shoot_delay := shoot_delay p; last_shot := last_shot p;
     upgrades := upgrades p; shield_active := shield_active p;
     shield_timer := shield_timer p;
     shield_duration := shield_duration p |}.

Definition set_health (v : Z) (p : t) : t :=
  {| rect := rect p; speed := speed p; health := v;
     max_health := max_health p; bullets := bullets p;
     shoot_delay := shoot_delay p; last_shot := last_shot p;
     upgrades := upgrades p; shield_active := shield_active p;
     shield_timer := shield_timer p;
     shield_duration := shield_duration p |}.

Definition set_bullets (v : Group) (p : t) : t :=
  {| rect := rect p; speed := speed p; health := health p;
     max_health := max_health p; bullets := v;
     shoot_delay := shoot_delay p; last_shot := last_shot p;
     upgrades := upgrades p; shield_active := shield_active p;
     shield_timer := shield_timer p;
     shield_duration := shield_duration p |}.

Definition set_last_shot (v : Z) (p : t) : t :=
  {| rect := rect p; speed := speed p; health := health p;
     max_health := max_health p; bullets := bullets p;
     shoot_delay := shoot_delay p; last_shot := v;
     upgrades := upgrades p; shield_active := shield_active p;
     shield_timer := shield_timer p;
     shield_duration := shield_duration p |}.

Definition set_upgrades (v : Upgrades) (p : t) : t :=
  {| rect := rect p; speed := speed p; health := health p;
     max_health := max_health p; bullets := bullets p;
     shoot_delay := shoot_delay p; last_shot := last_shot p;
     upgrades := v; shield_active := shield_active p;
     shield_timer := shield_timer p;
     shield_duration := shield_duration p |}.

Definition set_shield (active : bool) (timer : num) (p : t) : t :=
  {| rect := rect p; speed := speed p; health := health p;
     max_health := max_health p; bullets := bullets p;
     shoot_delay := shoot_delay p; last_shot := last_shot p;
     upgrades := upgrades p; shield_active := active;
     shield_timer := timer;
     shield_duration := shield_duration p |}.

(** [Player()]; [now] is what [pygame.time.get_ticks()] returns. *)
Definition init (now : Z) : t :=
  {| rect := Rect.mk (Config.SCREEN_WIDTH / 2 - 25)
                     (Config.SCREEN_HEIGHT - 50) 50 40;
     speed := Config.PLAYER_SPEED; health := 100; max_health := 100;
     bullets := []; shoot_delay := 250; last_shot := now;
     upgrades := {| u_speed := Int 1; u_damage := Int 1;
                    u_fire_rate := Int 1; u_shield := Int 0 |};
     shield_active := false; shield_timer := Int 0;
     shield_duration := 3000 |}.

(** The distance moved on one axis, [self.speed * self.upgrades["speed"]]. *)
Definition step (p : t) : num :=
  (Int (speed p) * u_speed (upgrades p))%num.

Definition update (keys : Keys) (p : t) : t :=
  let p :=
    if K_LEFT keys && (Rect.left (rect p) >? 0) then
      set_rect (Rect.set_x (to_int (Int (Rect.x (rect p)) - step p)%num)
                           (rect p)) p
    else p in
  let p :=
    if K_RIGHT keys && (Rect.right (rect p) <? Config.SCREEN_WIDTH) then
      set_rect (Rect.set_x (to_int (Int (Rect.x (rect p)) + step p)%num)
                           (rect p)) p
    else p in
  let p :=
    if K_UP keys && (Rect.top (rect p) >? 0) then
      set_rect (Rect.set_y (to_int (Int (Rect.y (rect p)) - step p)%num)
                           (rect p)) p
    else p in
  let p :=
    if K_DOWN keys && (Rect.bottom (rect p) <? Config.SCREEN_HEIGHT) then
      set_rect (Rect.set_y (to_int (Int (Rect.y (rect p)) + step p)%num)
                           (rect p)) p
    else p in
  (* Update shield *)
  if shield_active p then
    let timer := (shield_timer p + tick_ms)%num in
    if (timer >=? Int (shield_duration p))%num then set_shield false (Int 0) p
    else set_shield true timer p
  else p.

(** [shoot()], with the clock sample [now] it reads; the new bullet is
    allocated in the store. Returns the bullet's identity, or [None]. *)
Definition shoot (now : Z) (p : t) (st : Store)
    : option nat * t * Store :=
  if (Int (now - last_shot p)
      >? Int (shoot_delay p) / u_fire_rate (upgrades p))%num then
    let p := set_last_shot now p in
    let bullet := Bullet.init (Rect.centerx (rect p)) (Rect.top (rect p)) in
    let bullet :=
      set_kind (KBullet (Bullet.damage bullet * u_damage (upgrades p))%num)
               bullet in
    let (i, st) := alloc bullet st in
    (Some i, set_bullets (group_add i (bullets p)) p, st)
  else (None, p, st).

Definition activate_shield (p : t) : t :=
  if (u_shield (upgrades p) >? Int 0)%num then set_shield true (Int 0) p
  else p.

End Player.

(** ** class QuadTree

    A node holds identities of sprites; [rect_of] reads the rectangle of
    the sprite an identity denotes ([obj.rect]). *)

Module QuadTree.

Definition Boundary : Type := (num * num * num * num)%type.

Inductive t : Type :=
| Leaf (boundary : Boundary) (capacity : Z) (objects : list nat)
| Divided (boundary : Boundary) (capacity : Z) (objects : list nat)
          (northwest northeast southwest southeast : t).

Definition boundary (self : t) : Boundary :=
  match self with Leaf b _ _ | Divided b _ _ _ _ _ _ => b end.

Definition capacity (self : t) : Z :=
  match self with Leaf _ c _ | Divided _ c _ _ _ _ _ => c end.

Definition objects (self : t) : list nat :=
  match self with Leaf _ _ o | Divided _ _ o _ _ _ _ => o end.

Definition set_objects (o : list nat) (self : t) : t :=
  match self with
  | Leaf b c _ => Leaf b c o
  | Divided b c _ nw ne sw se => Divided b c o nw ne sw se
  end.

Definition init (boundary : Boundary) (capacity : Z) : t :=
  Leaf boundary capacity [].

(** The four children [subdivide] creates. *)
Definition subdivide (b : Boundary) (capacity : Z) : t * t * t * t :=
  let '(x, y, w, h) := b in
  let nw := (x, y, w / Int 2, h / Int 2)%num in
  let ne := (x + w / Int 2, y, w / Int 2, h / Int 2)%num in
  let sw := (x, y + h / Int 2, w / Int 2, h / Int 2)%num in
  let se := (x + w / Int 2, y + h / Int 2, w / Int 2, h / Int 2)%num in
  (init nw capacity, init ne capacity, init sw capacity, init se capacity).

Definition _intersects (self : t) (rect : Rect.t) : bool :=
  let '(x, y, w, h) := boundary self in
  negb ((Int (Rect.right rect) <? x)%num
        || (Int (Rect.left rect) >? x + w)%num
        || (Int (Rect.bottom rect) <? y)%num
        || (Int (Rect.top rect) >? y + h)%num).

Section WithStore.
Variable rect_of : nat -> Rect.t.

(** [insert]; the recursion is not structural (a full leaf recurses
    into children it has just created), so it is bounded by [fuel]:
    [None] stands for Python's [RecursionError]. *)
Fixpoint insert (fuel : nat) (self : t) (obj : nat) : option (bool * t) :=
  match fuel with
  | O => None
  | S fuel =>
      if negb (_intersects self (rect_of obj)) then Some (false, self)
      else if Z.of_nat (length (objects self)) <? capacity self then
        Some (true, set_objects (objects self ++ [obj]) self)
      else
        let '(nw, ne, sw, se) :=
          match self with
          | Leaf b c _ => subdivide b c
          | Divided _ _ _ nw ne sw se => (nw, ne, sw, se)
          end in
        let node := Divided (boundary self) (capacity self) (objects self) in
        match insert fuel nw obj with
        | None => None
        | Some (true, nw) => Some (true, node nw ne sw se)
        | Some (false, nw) =>
        match insert fuel ne obj with
        | None => None
        | Some (true, ne) => Some (true, node nw ne sw se)
        | Some (false, ne) =>
        match insert fuel sw obj with
        | None => None
        | Some (true, sw) => Some (true, node nw ne sw se)
        | Some (false, sw) =>
        match insert fuel se obj with
        | None => None
        | Some (r, se) => Some (r, node nw ne sw se)
        end end end end
  end.

(** [query]; [found] is the one list every recursive call appends to. *)
Fixpoint query (self : t) (rect : Rect.t) (found : list nat) : list nat :=
  if negb (_intersects self rect) then found
  else
    let found :=
      found ++ List.filter (fun obj => Rect.colliderect rect (rect_of obj))
                           (objects self) in
    match self with
    | Leaf _ _ _ => found
    | Divided _ _ _ nw ne sw se =>
        let found := query nw rect found in
        let found := query ne rect found in
        let found := query sw rect found in
        query se rect found
    end.

(** Every identity stored anywhere in the tree. *)
Fixpoint contents (self : t) : list nat :=
  match self with
  | Leaf _ _ o => o
  | Divided _ _ o nw ne sw se =>
      o ++ contents nw ++ contents ne ++ contents sw ++ contents se
  end.

Fixpoint depth (self : t) : nat :=
  match self with
  | Leaf _ _ _ => O
  | Divided _ _ _ nw ne sw se =>
      S (Nat.max (Nat.max (depth nw) (depth ne))
                 (Nat.max (depth sw) (depth se)))
  end.

(** Every node of the tree has the capacity [c]. *)
Fixpoint capacity_is (c : Z) (self : t) : Prop :=
  match self with
  | Leaf _ c' _ => c' = c
  | Divided _ c' _ nw ne sw se =>
      c' = c /\ capacity_is c nw /\ capacity_is c ne
      /\ capacity_is c sw /\ capacity_is c se
  end.

(** What [for obj in objs: tree.insert(obj)] builds. *)
Fixpoint insert_all (fuel : nat) (self : t) (objs : list nat) : option t :=
  match objs with
  | [] => Some self
  | obj :: objs =>
      match insert fuel self obj with
      | None => None
      | Some (_, self) => insert_all fuel self objs
      end
  end.

End WithStore.

End QuadTree.

(** ** class ParticleSystem

    Visual effects only: [Game] calls [add_explosion] and [update] and
    reads nothing back. The class is modelled on its own. A particle is a
    dict, a mutable object that the list [self.particles] and the copy
    [update] iterates over both refer to; as for sprites, the objects
    live in a store and the list holds identities. *)

(** [a == b] on Python numbers; exact on the integers below [2^53]. *)
Definition num_eqb (a b : num) : bool :=
  match a, b with
  | Int x, Int y => x =? y
  | _, _ => (to_float a =? to_float b)%float
  end.

Module ParticleSystem.

(** A particle, a dict with exactly these seven keys. *)
Record Particle : Type :=
  { x : num; y : num; vx : num; vy : num; life : Z;
    color : Z * Z * Z; size : Z }.

(** [p == q] on two particles: the dicts have the same keys, so they are
    equal when their values are, key by key. (Python tries identity
    before equality on each value; the two differ only on a float that
    is not a number. The theorems on [update] use one fact about this
    test: equal particles have equal lives.) *)
Definition Particle_eqb (p q : Particle) : bool :=
  num_eqb (x p) (x q) && num_eqb (y p) (y q)
  && num_eqb (vx p) (vx q) && num_eqb (vy p) (vy q)
  && (life p =? life q)
  && (let '(r1, g1, b1) := color p in
      let '(r2, g2, b2) := color q in
      (r1 =? r2) && (g1 =? g2) && (b1 =? b2))
  && (size p =? size q).

Record t : Type := mk { store : list Particle; particles : list nat }.

Definition init : t := mk [] [].

Definition dummy_particle : Particle :=
  {| x := Int 0; y := Int 0; vx := Int 0; vy := Int 0; life := 0;
     color := (0, 0, 0); size := 0 |}.

(** Dereference; the list only holds identities of allocated particles,
    so the default is never used. *)
Definition deref (st : list Particle) (i : nat) : Particle :=
  match st !! i with Some p => p | None => dummy_particle end.

(** [random.uniform(a, b)], that is [a + (b - a) * random()]. *)
Definition uniform (a b : Z) (rng : Random.t) : num * Random.t :=
  let (r, rng) := Random.random rng in
  ((Int a + Int (b - a) * Flt r)%num, rng).

(** [random.randint(a, b)], that is [randrange(a, b + 1)]. *)
Definition randint (a b : Z) (rng : Random.t) : Z * Random.t :=
  Random.randrange a (b + 1) rng.

(** One round of the loop of [add_explosion]; the values of the dict
    display are evaluated in the order they are written. *)
Definition add_particle (x y : num) (color : Z * Z * Z) (self : t)
    (rng : Random.t) : t * Random.t :=
  let (vx, rng) := uniform (-3) 3 rng in
  let (vy, rng) := uniform (-3) 3 rng in
  let (life, rng) := randint 20 40 rng in
  let (size, rng) := randint 2 5 rng in
  let p := {| x := x; y := y; vx := vx; vy := vy; life := life;
              color := color; size := size |} in
  (mk (store self ++ [p]) (particles self ++ [length (store self)]), rng).

Fixpoint add_explosion_loop (n : nat) (x y : num) (color : Z * Z * Z)
    (self : t) (rng : Random.t) : t * Random.t :=
  match n with
  | O => (self, rng)
  | S n =>
      let (self, rng) := add_particle x y color self rng in
      add_explosion_loop n x y color self rng
  end.

Definition add_explosion (x y : num) (color : Z * Z * Z) (count : Z)
    (self : t) (rng : Random.t) : t * Random.t :=
  add_explosion_loop (Z.to_nat count) x y color self rng.

(** The three assignments at the head of the loop of [update]. *)
Definition move (p : Particle) : Particle :=
  {| x := (x p + vx p)%num; y := (y p + vy p)%num; vx := vx p; vy := vy p;
     life := life p - 1; color := color p; size := size p |}.

(** [self.particles.remove(particle)]: the first member that is the
    object [id] or equals it is deleted; [None] stands for the
    [ValueError] raised when there is none. *)
Fixpoint remove (st : list Particle) (id : nat) (l : list nat)
    : option (list nat) :=
  match l with
  | [] => None
  | j :: l =>
      if Nat.eqb j id || Particle_eqb (deref st j) (deref st id) then Some l
      else match remove st id l with
           | None => None
           | Some l => Some (j :: l)
           end
  end.

(** The body of the loop of [update], for the object [id]. *)
Definition update_particle (self : t) (id : nat) : option t :=
  let p := move (deref (store self) id) in
  let st := <[id := p]> (store self) in
  if life p <=? 0 then
    match remove st id (particles self) with
    | None => None
    | Some l => Some (mk st l)
    end
  else Some (mk st (particles self)).

(** [update]: the loop runs over the copy [self.particles[:]]. *)
Definition update (self : t) : option t :=
  fold_left (fun o id => match o with
                         | Some self => update_particle self id
                         | None => None
                         end)
            (particles self) (Some self).

End ParticleSystem.

(** ** class Game *)

Module Game.

(** [player], [enemies] and [all_sprites] exist from the first
    [new_game()] on. The player is the first member of the
    [all_sprites] group and never leaves it; [all_sprites] lists the
    other members. *)
Record t : Type :=
  mk { difficulty : Difficulty.t; level : Z; score : Z; high_score : Z;
       state : GameState.t; story_manager : StoryManager.t;
       quadtree : QuadTree.t; player : Player.t;
       enemies : Group; all_sprites : Group;
       store : Store; rng : Random.t }.

Definition set_difficulty (v : Difficulty.t) (g : t) : t :=
  mk v (level g) (score g) (high_score g) (state g) (story_manager g)
     (quadtree g) (player g) (enemies g) (all_sprites g) (store g) (rng g).
Definition set_level (v : Z) (g : t) : t :=
  mk (difficulty g) v (score g) (high_score g) (state g) (story_manager g)
     (quadtree g) (player g) (enemies g) (all_sprites g) (store g) (rng g).
Definition set_score (v : Z) (g : t) : t :=
  mk (difficulty g) (level g) v (high_score g) (state g) (story_manager g)
     (quadtree g) (player g) (enemies g) (all_sprites g) (store g) (rng g).
Definition set_high_score (v : Z) (g : t) : t :=
  mk (difficulty g) (level g) (score g) v (state g) (story_manager g)
     (quadtree g) (player g) (enemies g) (all_sprites g) (store g) (rng g).
Definition set_state (v : GameState.t) (g : t) : t :=
  mk (difficulty g) (level g) (score g) (high_score g) v (story_manager g)
     (quadtree g) (player g) (enemies g) (all_sprites g) (store g) (rng g).
Definition set_story_manager (v : StoryManager.t) (g : t) : t :=
  mk (difficulty g) (level g) (score g) (high_score g) (state g) v
     (quadtree g) (player g) (enemies g) (all_sprites g) (store g) (rng g).
Definition set_quadtree (v : QuadTree.t) (g : t) : t :=
  mk (difficulty g) (level g) (score g) (high_score g) (state g)
     (story_manager g) v (player g) (enemies g) (all_sprites g) (store g)
     (rng g).
Definition set_player (v : Player.t) (g : t) : t :=
  mk (difficulty g) (level g) (score g) (high_score g) (state g)
     (story_manager g) (quadtree g) v (enemies g) (all_sprites g) (store g)
     (rng g).
Definition set_enemies (v : Group) (g : t) : t :=
  mk (difficulty g) (level g) (score g) (high_score g) (state g)
     (story_manager g) (quadtree g) (player g) v (all_sprites g) (store g)
     (rng g).
Definition set_all_sprites (v : Group) (g : t) : t :=
  mk (difficulty g) (level g) (score g) (high_score g) (state g)
     (story_manager g) (quadtree g) (player g) (enemies g) v (store g)
     (rng g).
Definition set_store (v : Store) (g : t) : t :=
  mk (difficulty g) (level g) (score g) (high_score g) (state g)
     (story_manager g) (quadtree g) (player g) (enemies g) (all_sprites g) v
     (rng g).
Definition set_rng (v : Random.t) (g : t) : t :=
  mk (difficulty g) (level g) (score g) (high_score g) (state g)
     (story_manager g) (quadtree g) (player g) (enemies g) (all_sprites g)
     (store g) v.

(** [Game()], up to the window and the fonts. *)
Definition init (rng : Random.t) : t :=
  mk Difficulty.NORMAL 1 0 0 GameState.MENU StoryManager.init
     (QuadTree.init (Int 0, Int 0, Int Config.SCREEN_WIDTH,
                     Int Config.SCREEN_HEIGHT) 4)
     (Player.init 0) [] [] [] rng.

(** [obj.rect] and [obj.kill()] for a sprite of the store. *)
Definition rect_of (g : t) (i : nat) : Rect.t := rect (deref (store g) i).

Definition kill (i : nat) (g : t) : t :=
  let g := set_enemies (group_remove i (enemies g)) g in
  let g := set_all_sprites (group_remove i (all_sprites g)) g in
  set_player (Player.set_bullets (group_remove i (Player.bullets (player g)))
                                 (player g)) g.

(** [obj.attr = ...] on the sprite [i]. *)
Definition modify (i : nat) (f : Sprite -> Sprite) (g : t) : t :=
  set_store (<[i := f (deref (store g) i)]> (store g)) g.

(** One round of the loop of [spawn_enemies], for the index [i]. *)
Definition spawn_one (i : Z) (g : t) : t :=
  let diff := Difficulty.value (difficulty g) in
  let (enemy, rng) :=
    if (level g mod 5 =? 0) && (i =? 0) then Boss.init diff (rng g)
    else Enemy.init diff None None (rng g) in
  let g := set_rng rng g in
  let (id, st) := alloc enemy (store g) in
  let g := set_store st g in
  let g := set_enemies (group_add id (enemies g)) g in
  set_all_sprites (group_add id (all_sprites g)) g.

Fixpoint spawn_loop (i : Z) (n : nat) (g : t) : t :=
  match n with
  | O => g
  | S n => spawn_loop (i + 1) n (spawn_one i g)
  end.

Definition spawn_enemies (g : t) : t :=
  let diff := Difficulty.value (difficulty g) in
  let count := d_enemies diff + level g in
  spawn_loop 0 (Z.to_nat count) g.

Definition new_game (now : Z) (g : t) : t :=
  let g := set_player (Player.init now) g in
  let g := set_enemies [] g in
  let g := set_all_sprites [] g in
  let g := set_score 0 g in
  let g := set_level 1 g in
  let g := set_story_manager
             (StoryManager.mk (StoryManager.chapters (story_manager g)) 0) g in
  let g := set_state GameState.STORY g in
  spawn_enemies g.

Definition game_over (g : t) : t :=
  let g := set_state GameState.GAME_OVER g in
  if score g >? high_score g then set_high_score (score g) g else g.

Definition victory (g : t) : t :=
  let g := set_state GameState.VICTORY g in
  if score g >? high_score g then set_high_score (score g) g else g.

(** The four [upgrade_options] are display data. *)
Definition show_upgrade_screen (g : t) : t :=
  set_state GameState.UPGRADE g.

(** The keys of [upgrades]: "speed", "damage", "fire_rate", "shield". *)
Inductive UpgradeType : Type :=
  up_speed | up_damage | up_fire_rate | up_shield.

Definition apply_upgrade (upgrade_type : UpgradeType) (g : t) : t :=
  let u := Player.upgrades (player g) in
  let inc v := (v + Flt 0.2)%num in
  let u :=
    match upgrade_type with
    | up_speed =>
        {| Player.u_speed := inc (Player.u_speed u);
           Player.u_damage := Player.u_damage u;
           Player.u_fire_rate := Player.u_fire_rate u;
           Player.u_shield := Player.u_shield u |}
    | up_damage =>
        {| Player.u_speed := Player.u_speed u;
           Player.u_damage := inc (Player.u_damage u);
           Player.u_fire_rate := Player.u_fire_rate u;
           Player.u_shield := Player.u_shield u |}
    | up_fire_rate =>
        {| Player.u_speed := Player.u_speed u;
           Player.u_damage := Player.u_damage u;
           Player.u_fire_rate := inc (Player.u_fire_rate u);
           Player.u_shield := Player.u_shield u |}
    | up_shield =>
        {| Player.u_speed := Player.u_speed u;
           Player.u_damage := Player.u_damage u;
           Player.u_fire_rate := Player.u_fire_rate u;
           Player.u_shield := inc (Player.u_shield u) |}
    end in
  let g := set_player (Player.set_upgrades u (player g)) g in
  let g :=
    match upgrade_type with
    | up_shield => set_player (Player.activate_shield (player g)) g
    | _ => g
    end in
  set_state GameState.GAME g.

Definition level_complete (g : t) : t :=
  let g := set_level (level g + 1) g in
  let g :=
    set_player
      (Player.set_health
         (Z.min (Player.max_health (player g))
                (Player.health (player g) + 20)) (player g)) g in
  (* Every 3 levels increase difficulty *)
  let g :=
    if level g mod 3 =? 0 then
      fold_left
        (fun g enemy =>
           modify enemy (fun s => set_speed (speed s * Flt 1.1)%num s) g)
        (enemies g) g
    else g in
  (* Show story every 5 levels *)
  let g :=
    if level g mod 5 =? 0 then
      let (sm, more) := StoryManager.advance_story (story_manager g) in
      let g := set_story_manager sm g in
      if more then set_state GameState.STORY g else spawn_enemies g
    else spawn_enemies g in
  (* Victory after 15 levels *)
  if level g >? 15 then victory g else g.

(** *** check_collisions *)

(** "Update quadtree": a fresh tree, every enemy inserted. The fuel
    always suffices ([rebuild_quadtree_total]). *)
Definition rebuild_quadtree (g : t) : option t :=
  let qt := QuadTree.init (Int 0, Int 0, Int Config.SCREEN_WIDTH,
                           Int Config.SCREEN_HEIGHT) 4 in
  match QuadTree.insert_all (rect_of g) (length (enemies g) + 2) qt
                            (enemies g) with
  | None => None
  | Some qt => Some (set_quadtree qt g)
  end.

(** The body of [for enemy in potential_collisions]. *)
Definition bullet_hit (bullet enemy : nat) (g : t) : t :=
  if Rect.colliderect (rect_of g bullet) (rect_of g enemy) then
    let dmg := Bullet.damage (deref (store g) bullet) in
    let g := modify enemy (fun s => set_health (health s - dmg)%num s) g in
    let g := kill bullet g in
    if (health (deref (store g) enemy) <=? Int 0)%num then
      let g :=
        set_score
          (score g + 10 * (if is_boss (deref (store g) enemy) then 5 else 1))
          g in
      let g := kill enemy g in
      (* Chance for upgrade *)
      let (r, rng) := Random.random (rng g) in
      let g := set_rng rng g in
      if (r <? 0.1)%float then show_upgrade_screen g else g
    else g
  else g.

(** The body of [for bullet in self.player.bullets]. *)
Definition bullet_pass (g : t) (bullet : nat) : t :=
  let potential_collisions :=
    QuadTree.query (rect_of g) (quadtree g) (rect_of g bullet) [] in
  fold_left (fun g enemy => bullet_hit bullet enemy g)
            potential_collisions g.

(** "Check bullet-enemy collisions using quadtree" *)
Definition bullet_enemy_collisions (g : t) : t :=
  fold_left bullet_pass (Player.bullets (player g)) g.

(** [pygame.sprite.spritecollide(self.player, self.enemies, True)]:
    the colliding enemies, in group order, each killed. *)
Definition spritecollide_kill (g : t) : list nat * t :=
  let hits :=
    List.filter
      (fun e => Rect.colliderect (Player.rect (player g)) (rect_of g e))
      (enemies g) in
  (hits, fold_left (fun g e => kill e g) hits g).

(** The body of [for hit in hits]. *)
Definition player_hit (g : t) (hit : nat) : t :=
  let g :=
    set_player (Player.set_health (Player.health (player g) - 20) (player g))
               g in
  if Player.health (player g) <=? 0 then game_over g else g.

(** "Player-enemy collisions" *)
Definition player_enemy_collisions (g : t) : t :=
  if negb (Player.shield_active (player g)) then
    let (hits, g) := spritecollide_kill g in
    fold_left player_hit hits g
  else g.

(** "Level completion check" *)
Definition level_completion_check (g : t) : t :=
  if (length (enemies g) =? 0)%nat then level_complete g else g.

(** [check_collisions] up to its last step: the quadtree and the two
    collision passes. *)
Definition collisions (g : t) : option t :=
  match rebuild_quadtree g with
  | None => None
  | Some g => Some (player_enemy_collisions (bullet_enemy_collisions g))
  end.

Definition check_collisions (g : t) : option t :=
  match collisions g with
  | None => None
  | Some g => Some (level_completion_check g)
  end.

(** *** The "State-specific updates" of [run] *)

(** [sprite.update()] as [Group.update] calls it: the class of the
    sprite selects the method, a returned value is dropped. *)
Definition update_sprite `{Libm} (g : t) (i : nat) : t :=
  let s := deref (store g) i in
  match kind s with
  | KEnemy =>
      let (s, rng) := Enemy.update s (rng g) in
      set_rng rng (set_store (<[i := s]> (store g)) g)
  | KBoss _ =>
      set_store (<[i := fst (Boss.update s)]> (store g)) g
  | KBullet _ =>
      let (s, killed) := Bullet.update s in
      let g := set_store (<[i := s]> (store g)) g in
      if killed then kill i g else g
  end.

(** [self.all_sprites.update()] *)
Definition all_sprites_update `{Libm} (keys : Keys) (g : t) : t :=
  let g := set_player (Player.update keys (player g)) g in
  fold_left update_sprite (all_sprites g) g.

(** [self.player.bullets.update()] *)
Definition bullets_update `{Libm} (g : t) : t :=
  fold_left update_sprite (Player.bullets (player g)) g.

(** The body of [for enemy in self.enemies] under "Special boss attacks". *)
Definition boss_attack `{Libm} (g : t) (enemy : nat) : t :=
  let s := deref (store g) enemy in
  if is_boss s then
    let (s, fire) := Boss.update s in
    let g := set_store (<[enemy := s]> (store g)) g in
    if fire then
      (* Boss shoots bullets *)
      let bullet :=
        Bullet.init (Rect.centerx (rect s)) (Rect.bottom (rect s)) in
      let bullet := set_speed (num_neg (speed bullet)) bullet in
      let (id, st) := alloc bullet (store g) in
      let g := set_store st g in
      let g := set_all_sprites (group_add id (all_sprites g)) g in
      set_enemies (group_add id (enemies g)) g
    else g
  else g.

Definition boss_attacks `{Libm} (g : t) : t :=
  fold_left boss_attack (enemies g) g.

(** The block under [if self.state == GameState.GAME]; [now] is the
    clock sample [shoot] reads. *)
Definition run_update `{Libm} (keys : Keys) (now : Z) (g : t) : option t :=
  if GameState.eqb (state g) GameState.GAME then
    let g :=
      if K_SPACE keys then
        let '(_, p, st) := Player.shoot now (player g) (store g) in
        set_store st (set_player p g)
      else g in
    let g := all_sprites_update keys g in
    let g := bullets_update g in
    match check_collisions g with
    | None => None
    | Some g => Some (boss_attacks g)
    end
  else Some g.

(** *** Event handling and the state change made while rendering *)

Inductive Key : Type :=
  Key_1 | Key_2 | Key_3 | Key_4 | Key_ESCAPE | Key_SPACE | Key_r | Key_s
| Key_other.

Inductive Event : Type := QUIT | KEYDOWN (key : Key) | OTHER.

Definition over_or_victory (s : GameState.t) : bool :=
  GameState.eqb s GameState.GAME_OVER || GameState.eqb s GameState.VICTORY.

(** The branch [if event.type == pygame.KEYDOWN]; the boolean is
    [running]. [now] is the clock sample read by [shoot] or [Player()]. *)
Definition run_keydown (now : Z) (key : Key) (g : t) : t * bool :=
  if GameState.eqb (state g) GameState.MENU then
    match key with
    | Key_1 => (new_game now (set_difficulty Difficulty.EASY g), true)
    | Key_2 => (new_game now (set_difficulty Difficulty.NORMAL g), true)
    | Key_3 => (new_game now (set_difficulty Difficulty.HARD g), true)
    | Key_ESCAPE => (g, false)
    | _ => (g, true)
    end
  else if GameState.eqb (state g) GameState.STORY
          && match key with Key_SPACE => true | _ => false end then
    if negb (StoryManager.has_current_story (story_manager g)) then
      (set_state GameState.GAME g, true)
    else
      let g :=
        set_story_manager
          (fst (StoryManager.advance_story (story_manager g))) g in
      if negb (StoryManager.has_current_story (story_manager g)) then
        (set_state GameState.GAME g, true)
      else (g, true)
  else if GameState.eqb (state g) GameState.UPGRADE then
    match key with
    | Key_1 => (apply_upgrade up_speed g, true)
    | Key_2 => (apply_upgrade up_damage g, true)
    | Key_3 => (apply_upgrade up_fire_rate g, true)
    | Key_4 => (apply_upgrade up_shield g, true)
    | _ => (g, true)
    end
  else
    match key with
    | Key_ESCAPE =>
        if over_or_victory (state g) then (set_state GameState.MENU g, true)
        else if GameState.eqb (state g) GameState.GAME then
          (set_state GameState.MENU g, true)
        else (g, true)
    | Key_r =>
        if over_or_victory (state g) then (new_game now g, true)
        else (g, true)
    | Key_SPACE =>
        if GameState.eqb (state g) GameState.GAME then
          let '(_, p, st) := Player.shoot now (player g) (store g) in
          (set_store st (set_player p g), true)
        else (g, true)
    | Key_s =>
        if GameState.eqb (state g) GameState.GAME then
          (set_player (Player.activate_shield (player g)) g, true)
        else (g, true)
    | _ => (g, true)
    end.

Definition run_event (now : Z) (e : Event) (g : t) : t * bool :=
  match e with
  | QUIT => (g, false)
  | KEYDOWN key => run_keydown now key g
  | OTHER => (g, true)
  end.

(** The "Rendering" block draws; only [show_story] writes a field. *)
Definition run_render (g : t) : t :=
  if GameState.eqb (state g) GameState.STORY
     && negb (StoryManager.has_current_story (story_manager g))
  then set_state GameState.GAME g
  else g.

(** One round of the [while running] loop: the events of the frame,
    each with the clock sample it would read, then the update with its
    own, then the rendering. The boolean is [running]. *)
Definition run_frame `{Libm} (events : list (Z * Event)) (keys : Keys)
    (now : Z) (g : t) : option (t * bool) :=
  let '(g, running) :=
    fold_left
      (fun '(g, running) '(now, e) =>
         let '(g, r) := run_event now e g in
         (g, running && r))
      events (g, true) in
  match run_update keys now g with
  | None => None
  | Some g => Some (run_render g, running)
  end.

End Game.

(** ** Vocabulary of the statements *)

(** The sprite one round of the spawning loop creates. *)
Definition spawned_sprite_ok (g : Game.t) (first : bool) (s : Sprite) : Prop :=
  let d := Difficulty.value (Game.difficulty g) in
  is_boss s = (Game.level g mod 5 =? 0) && first
  /\ (is_boss s = true ->
      health s = Int (50 * d_health d) /\ max_health s = Int (50 * d_health d))
  /\ (is_boss s = false ->
      kind s = KEnemy /\ health s = Int (d_health d)).

(** What a run of game code may have done to the high score [hs0] it
    started with: nothing, in a state that is neither game-over nor
    victory, or raised it to the current score. *)
Definition high_score_ok (hs0 : Z) (g : Game.t) : Prop :=
  (Game.over_or_victory (Game.state g) = false /\ Game.high_score g = hs0)
  \/ Game.high_score g = Z.max (Game.score g) hs0.

(** The projection the high-score argument follows. *)
Definition meta (g : Game.t) : Z * Z * GameState.t :=
  (Game.score g, Game.high_score g, Game.state g).

(** [l'] is [l] with some members removed, order kept. *)
Definition thinned (l' l : list nat) : Prop :=
  exists p, l' = List.filter p l.

(** The three groups of a later state are thinned versions of those of
    an earlier one. *)
Definition groups_thinned (g' g : Game.t) : Prop :=
  thinned (Game.enemies g') (Game.enemies g)
  /\ thinned (Game.all_sprites g') (Game.all_sprites g)
  /\ thinned (Player.bullets (Game.player g')) (Player.bullets (Game.player g)).

(** Everything about a sprite but its health. *)
Definition motion (s : Sprite) : Rect.t * num * num * SpriteKind :=
  (rect s, max_health s, speed s, kind s).

Definition same_motion (st' st : list Sprite) : Prop :=
  forall i : nat, motion <$> st' !! i = motion <$> st !! i.

(** What the collision passes keep: the level, every sprite up to its
    health, and the groups up to removals. *)
Definition collision_step (g' g : Game.t) : Prop :=
  Game.level g' = Game.level g
  /\ same_motion (Game.store g') (Game.store g)
  /\ groups_thinned g' g.

(** The shield fields of the player. *)
Definition shield_of (g : Game.t) : bool * num * Z :=
  (Player.shield_active (Game.player g), Player.shield_timer (Game.player g),
   Player.shield_duration (Game.player g)).

(** One tick of the shield countdown, as a function of the shield fields
    alone. *)
Definition shield_step (sh : bool * num * Z) : bool * num * Z :=
  let '(active, timer, duration) := sh in
  if active then
    let timer := (timer + tick_ms)%num in
    if (timer >=? Int duration)%num then (false, Int 0, duration)
    else (true, timer, duration)
  else sh.

(** One [Boss.update]: the timers. *)
Definition switches_pattern (b : BossState) : bool :=
  ((pattern b =? 1) && (pattern_timer b + 1 >? 200))
  || ((pattern b =? 2) && (pattern_timer b + 1 >? 300)).

(** The player at base speed, on the 5-pixel grid the start position
    lies on, inside the screen. *)
Definition on_grid_in_bounds (p : Player.t) : Prop :=
  Player.speed p = 5
  /\ Player.u_speed (Player.upgrades p) = Int 1
  /\ Rect.w (Player.rect p) = 50 /\ Rect.h (Player.rect p) = 40
  /\ (exists k, Rect.x (Player.rect p) = 5 * k)
  /\ (exists k, Rect.y (Player.rect p) = 5 * k)
  /\ 0 <= Rect.left (Player.rect p)
  /\ Rect.right (Player.rect p) <= Config.SCREEN_WIDTH
  /\ 0 <= Rect.top (Player.rect p)
  /\ Rect.bottom (Player.rect p) <= Config.SCREEN_HEIGHT.

(** ** Concrete scenes

    Inputs on which the theorems below run the code. *)

(** A stand-in for the C library: [sin] by reduction of the argument to
    [-pi, pi] and the Taylor polynomial of degree 13 (within 3e-5 of the
    sine), [cos x] as [sin (x + pi/2)]. The theorems below that run on
    it state facts that do not depend on where a boss moves. *)
Definition sin_approx (x : float) : float :=
  let two_pi := 6.283185307179586%float in
  let r := (x - float_of_Z (trunc_float (x / two_pi)) * two_pi)%float in
  let r :=
    if (3.141592653589793 <? r)%float then (r - two_pi)%float
    else if (r <? -3.141592653589793)%float then (r + two_pi)%float
    else r in
  let r2 := (r * r)%float in
  (r * (1 - r2 / 6 * (1 - r2 / 20 * (1 - r2 / 42 * (1 - r2 / 72
        * (1 - r2 / 110 * (1 - r2 / 156)))))))%float.

Definition sample_libm : Libm :=
  {| math_sin := sin_approx;
     math_cos := fun x => sin_approx (x + 1.5707963267948966)%float |}.

(** A generator whose every raw draw is [2^52]: [random()] returns 0.5,
    [randrange(a, b)] returns [a + 2^52 mod (b - a)]. *)
Definition sample_rng : Random.t := Random.mk (fun _ => 2 ^ 52) 0.

Definition no_keys : Keys :=
  {| K_LEFT := false; K_RIGHT := false; K_UP := false; K_DOWN := false;
     K_SPACE := false |}.

Definition left_key : Keys :=
  {| K_LEFT := true; K_RIGHT := false; K_UP := false; K_DOWN := false;
     K_SPACE := false |}.

Definition space_key : Keys :=
  {| K_LEFT := false; K_RIGHT := false; K_UP := false; K_DOWN := false;
     K_SPACE := true |}.

(** An [Enemy] of the given difficulty placed at [(x, y)]. *)
Definition enemy_at (d : Difficulty.t) (x y : Z) : Sprite :=
  fst (Enemy.init (Difficulty.value d) (Some x) (Some y) sample_rng).

(** A player bullet as [shoot] makes it (no damage upgrade), moved so
    that its rectangle has its top-left corner at [(x, y)]. *)
Definition bullet_at (x y : Z) : Sprite :=
  set_rect (Rect.mk x y 5 15) (Bullet.init 0 0).

(** A bullet as the boss-attack loop makes it, fired from a boss whose
    rectangle has [centerx = x] and [bottom = y]. *)
Definition boss_bullet (x y : Z) : Sprite :=
  let b := Bullet.init x y in set_speed (num_neg (speed b)) b.

(** A game in the [GAME] state on difficulty [d] at level [lvl], holding
    the sprites [sprites] (identities [0, 1, ...]), of which [es] are in
    the [enemies] and [all_sprites] groups and [bs] in [player.bullets]. *)
Definition scene (d : Difficulty.t) (lvl : Z) (sprites : list Sprite)
    (es bs : list nat) : Game.t :=
  let g := Game.set_difficulty d (Game.init sample_rng) in
  let g := Game.set_level lvl g in
  let g := Game.set_state GameState.GAME g in
  let g := Game.set_store sprites g in
  let g := Game.set_enemies es g in
  let g := Game.set_all_sprites es g in
  Game.set_player (Player.set_bullets bs (Game.player g)) g.

(** [f] applied [n] times. *)
Fixpoint iterate {A : Type} (f : A -> A) (n : nat) (a : A) : A :=
  match n with
  | O => a
  | S n => iterate f n (f a)
  end.

(** [n] rounds of [Game.run_update] with the same keys and clock sample. *)
Definition ticks `{Libm} (keys : Keys) (now : Z) (n : nat) (g : Game.t)
    : option Game.t :=
  iterate (fun o => match o with
                    | Some g => Game.run_update keys now g
                    | None => None
                    end) n (Some g).

(** Two bullets over one enemy of health 1; a second enemy far away keeps
    the level from completing. *)
Definition scene_two_bullets : Game.t :=
  scene Difficulty.EASY 1
        [enemy_at Difficulty.EASY 100 100; enemy_at Difficulty.EASY 600 50;
         bullet_at 110 120; bullet_at 125 125]
        [0; 1]%nat [2; 3]%nat.

(** Four enemies along the top fill the root node of the quadtree; a
    fifth straddles the line [x = 400] between its west and east
    children; a bullet overlaps the fifth on the east side of the line. *)
Definition scene_straddle : Game.t :=
  scene Difficulty.EASY 1
        [enemy_at Difficulty.EASY 0 0; enemy_at Difficulty.EASY 100 0;
         enemy_at Difficulty.EASY 200 0; enemy_at Difficulty.EASY 300 0;
         enemy_at Difficulty.EASY 390 100; bullet_at 420 110]
        [0; 1; 2; 3; 4]%nat [5]%nat.

(** The player after one "speed" upgrade. *)
Definition upgraded_player : Player.t :=
  Game.player
    (Game.apply_upgrade Game.up_speed
       (Game.set_player (Player.init 0) (Game.init sample_rng))).

(** A boss bullet that has left the screen, and an enemy. *)
Definition scene_stray_bullet : Game.t :=
  scene Difficulty.EASY 1
        [boss_bullet 380 715; enemy_at Difficulty.EASY 600 50]
        [0; 1]%nat [].

(** A lone boss, just created. *)
Definition scene_boss : Game.t :=
  scene Difficulty.NORMAL 5
        [fst (Boss.init (Difficulty.value Difficulty.NORMAL) sample_rng)]
        [0]%nat [].

(** The player about to die: health 20, an enemy on top of it, another
    enemy far away, score 30, high score 10. *)
Definition scene_last_hit : Game.t :=
  let g := scene Difficulty.EASY 1
                 [enemy_at Difficulty.EASY 380 540;
                  enemy_at Difficulty.EASY 600 50]
                 [0; 1]%nat [] in
  let g := Game.set_score 30 (Game.set_high_score 10 g) in
  Game.set_player (Player.set_health 20 (Game.player g)) g.

(** One enemy far from the player, no bullets. *)
Definition scene_idle : Game.t :=
  scene Difficulty.EASY 1 [enemy_at Difficulty.EASY 600 50] [0]%nat [].

(** [scene_idle] at level 2 (so that the next level is a multiple of 3). *)
Definition scene_level_2 : Game.t := Game.set_level 2 scene_idle.

(** [scene_idle] with the shield just activated. *)
Definition scene_shielded : Game.t :=
  Game.set_player (Player.set_shield true (Int 0) (Game.player scene_idle))
                  scene_idle.

(** A game on Normal difficulty at level [lvl], nothing spawned yet. *)
Definition normal_level (lvl : Z) : Game.t :=
  scene Difficulty.NORMAL lvl [] [] [].

(** Normal difficulty, level 4, the last enemy just destroyed; the five
    chapters of the story were read when the game started. *)
Definition scene_level_4_cleared : Game.t :=
  Game.set_story_manager (StoryManager.mk 5 5) (normal_level 4).

(** ** Vocabulary of the further properties *)

(** The boundary of the root node [Game] gives its quadtree. *)
Definition screen_boundary : QuadTree.Boundary :=
  (Int 0, Int 0, Int Config.SCREEN_WIDTH, Int Config.SCREEN_HEIGHT).

(** The boundaries of the four children [subdivide] gives a node of
    boundary [b]. *)
Definition quadrants (b : QuadTree.Boundary)
    : QuadTree.Boundary * QuadTree.Boundary * QuadTree.Boundary
      * QuadTree.Boundary :=
  let '(nw, ne, sw, se) := QuadTree.subdivide b 0 in
  (QuadTree.boundary nw, QuadTree.boundary ne, QuadTree.boundary sw,
   QuadTree.boundary se).

(** Every node holds at most [capacity] objects, each of which
    intersects the boundary of the node, and the children of a divided
    node are its four quadrants. *)
Fixpoint node_ok (rect_of : nat -> Rect.t) (t : QuadTree.t) : Prop :=
  Z.of_nat (length (QuadTree.objects t)) <= QuadTree.capacity t
  /\ Forall (fun obj => QuadTree._intersects t (rect_of obj) = true)
            (QuadTree.objects t)
  /\ match t with
     | QuadTree.Leaf _ _ _ => True
     | QuadTree.Divided b c _ nw ne sw se =>
         (QuadTree.boundary nw, QuadTree.boundary ne, QuadTree.boundary sw,
          QuadTree.boundary se) = quadrants b
         /\ node_ok rect_of nw /\ node_ok rect_of ne
         /\ node_ok rect_of sw /\ node_ok rect_of se
     end.

(** Where a boss is in its cycle of movement patterns: the entrance
    (pattern 0) counts one per pixel from the start at [y = -100] and ends
    past [y = 50]; the side-to-side pattern (1) runs its timer up to 200,
    the circular one (2) up to 300. *)
Definition boss_phase_ok (s : Sprite) : Prop :=
  let b := Boss.state s in
  (pattern b = 0 /\ pattern_timer b = Rect.y (rect s) + 100
   /\ Rect.y (rect s) <= 50)
  \/ (pattern b = 1 /\ 0 <= pattern_timer b <= 200)
  \/ (pattern b = 2 /\ 0 <= pattern_timer b <= 300).

(** The timer value past which the side-to-side or the circular pattern
    ends, and the pattern that follows it. *)
Definition pattern_limit (p : Z) : Z := if p =? 1 then 200 else 300.
Definition next_pattern (p : Z) : Z := if p =? 1 then 2 else 1.

(** One [Boss.update]: the attack timer as a function of itself and of
    the delay; the boolean is the attack signal. *)
Definition attack_step (delay : Z) (timer : num) : num * bool :=
  let timer := (timer + tick_ms)%num in
  let fire := (timer >=? Int delay)%num in
  (if fire then Int 0 else timer, fire).

(** The player after one [Player.update] per entry of [ks], the keys held
    in each tick. *)
Definition Player_updates (ks : list Keys) (p : Player.t) : Player.t :=
  fold_left (fun p keys => Player.update keys p) ks p.

(** The list of particles names each object once, and each is allocated. *)
Definition particles_ok (ps : ParticleSystem.t) : Prop :=
  List.NoDup (ParticleSystem.particles ps)
  /\ Forall (fun id => (id < length (ParticleSystem.store ps))%nat)
            (ParticleSystem.particles ps).

(** [n] calls of [ParticleSystem.update]. *)
Definition particle_updates (n : nat) (ps : ParticleSystem.t)
    : option ParticleSystem.t :=
  iterate (fun o => match o with
                    | Some ps => ParticleSystem.update ps
                    | None => None
                    end) n (Some ps).

(** The store after every particle of [l] was moved once. *)
Definition moved_store (st : list ParticleSystem.Particle) (l : list nat)
    : list ParticleSystem.Particle :=
  fold_left
    (fun st id => <[id := ParticleSystem.move (ParticleSystem.deref st id)]> st)
    l st.

(** The particle [id] has more than [n] updates to live. *)
Definition outlives (n : Z) (st : list ParticleSystem.Particle) (id : nat)
    : bool :=
  n <? ParticleSystem.life (ParticleSystem.deref st id).

(** Every chapter of the story has been shown. *)
Definition story_done (g : Game.t) : Prop :=
  Z.of_nat (StoryManager.chapters (Game.story_manager g))
  <= StoryManager.current_chapter (Game.story_manager g).

(** While the game is played or an upgrade is chosen, the story has been
    shown to its end. *)
Definition story_inv (g : Game.t) : Prop :=
  Game.state g = GameState.GAME \/ Game.state g = GameState.UPGRADE ->
  story_done g.

(** The states the update block of a running game can end in once the
    story is over. *)
Definition in_play (s : GameState.t) : bool :=
  match s with
  | GameState.GAME | GameState.UPGRADE | GameState.GAME_OVER
  | GameState.VICTORY => true
  | _ => false
  end.

(** [n] presses of the space bar, each handled by [Game.run_keydown]. *)
Definition press_space (now : Z) (n : nat) (g : Game.t) : Game.t :=
  iterate (fun g => fst (Game.run_keydown now Game.Key_SPACE g)) n g.

(** The score of [g'] is the score of [g] plus [10 * k]. *)
Definition scored (k : Z) (g' g : Game.t) : Prop :=
  Game.score g' = Game.score g + 10 * k.

(** The three sprite groups against a store of [n] objects: no group
    lists a sprite twice, every enemy is in [all_sprites], every member is
    allocated, and no player bullet is in [all_sprites]. *)
Definition groups_ok_at (es al bs : list nat) (n : nat) : Prop :=
  List.NoDup es /\ List.NoDup al /\ List.NoDup bs
  /\ (forall i, In i es -> In i al)
  /\ (forall i, In i al -> (i < n)%nat)
  /\ (forall i, In i bs -> (i < n)%nat /\ ~ In i al).

Definition groups_ok (g : Game.t) : Prop :=
  groups_ok_at (Game.enemies g) (Game.all_sprites g)
               (Player.bullets (Game.player g)) (length (Game.store g)).

(** The player's health does not exceed its maximum. *)
Definition health_ok (g : Game.t) : Prop :=
  Player.health (Game.player g) <= Player.max_health (Game.player g).

(** What a piece of game code keeps: the groups well formed, the
    player's health below its maximum. *)
Definition keeps (g' g : Game.t) : Prop :=
  (groups_ok g -> groups_ok g') /\ (health_ok g -> health_ok g').

(** The changes of state a key press can make. *)
Definition key_transition (s s' : GameState.t) : bool :=
  match s, s' with
  | GameState.MENU, (GameState.MENU | GameState.STORY)
  | GameState.STORY, (GameState.STORY | GameState.GAME)
  | GameState.UPGRADE, (GameState.UPGRADE | GameState.GAME)
  | GameState.GAME, (GameState.GAME | GameState.MENU)
  | GameState.GAME_OVER,
    (GameState.GAME_OVER | GameState.MENU | GameState.STORY)
  | GameState.VICTORY,
    (GameState.VICTORY | GameState.MENU | GameState.STORY) => true
  | _, _ => false
  end.

(** [scene_two_bullets] with the quadtree rebuilt, as at the start of
    [check_collisions]. *)
Definition scene_two_bullets_indexed : Game.t :=
  match Game.rebuild_quadtree scene_two_bullets with
  | Some g => g
  | None => scene_two_bullets
  end.

(** Two particles with the same values, both about to die, and a third
    with a longer life. *)
Definition scene_particles : ParticleSystem.t :=
  let p l := {| ParticleSystem.x := Int 400; ParticleSystem.y := Int 300;
                ParticleSystem.vx := Flt 1.5; ParticleSystem.vy := Flt (-2);
                ParticleSystem.life := l; ParticleSystem.color := (255, 255, 0);
                ParticleSystem.size := 3 |} in
  ParticleSystem.mk [p 1; p 1; p 5] [0; 1; 2]%nat.

(** An explosion of 20 particles in an empty particle system. *)
Definition scene_explosion : ParticleSystem.t :=
  fst (ParticleSystem.add_explosion (Int 400) (Int 300) (255, 255, 0) 20
                                    ParticleSystem.init sample_rng).

(** * Lemmas *)

(** ** [QuadTree.insert] returns when the capacity is positive *)

Section QuadTreeTotal.
Variable rect_of : nat -> Rect.t.
Variable c : Z.
Hypothesis c_pos : 0 < c.

Lemma insert_fresh_leaf (f : nat) (b : QuadTree.Boundary) (obj : nat) :
  QuadTree.insert rect_of (S f) (QuadTree.Leaf b c []) obj
  = Some (if QuadTree._intersects (QuadTree.Leaf b c []) (rect_of obj)
          then (true, QuadTree.Leaf b c [obj])
          else (false, QuadTree.Leaf b c [])).
Proof.
  simpl.
  destruct (QuadTree._intersects _ _); simpl; [|reflexivity].
  assert (E : (Z.of_nat 0 <? c) = true) by (apply Z.ltb_lt; simpl; lia).
  rewrite E. reflexivity.
Qed.

Lemma insert_total (obj : nat) (t : QuadTree.t) :
  QuadTree.capacity_is c t ->
  forall fuel, (QuadTree.depth t + 2 <= fuel)%nat ->
  exists r t',
    QuadTree.insert rect_of fuel t obj = Some (r, t')
    /\ QuadTree.capacity_is c t'
    /\ (QuadTree.depth t' <= QuadTree.depth t + 1)%nat.
Proof.
  induction t as [b c' o | b c' o nw IHnw ne IHne sw IHsw se IHse];
    intros Hc fuel Hfuel.
  - destruct fuel as [|f]; simpl in Hfuel; try lia.
    simpl in Hc. subst c'.
    cbn [QuadTree.insert].
    destruct (negb _); [eexists _, _; split; [reflexivity|simpl; split; [reflexivity|lia]]|].
    cbn [QuadTree.objects QuadTree.capacity QuadTree.boundary].
    destruct (_ <? c); [eexists _, _; split; [reflexivity|simpl; split; [reflexivity|lia]]|].
    destruct b as [[[x y] w] h].
    unfold QuadTree.subdivide, QuadTree.init. cbv iota beta zeta.
    destruct f as [|f]; [lia|]. rewrite !insert_fresh_leaf.
    repeat match goal with
    | |- context [if ?b then _ else _] => destruct b
    end; eexists _, _; (split; [reflexivity|]); simpl; repeat split; lia.
  - destruct fuel as [|f]; simpl in Hfuel; try lia.
    simpl in Hc. destruct Hc as (-> & Hnw & Hne & Hsw & Hse).
    cbn [QuadTree.insert].
    destruct (negb _);
      [eexists _, _; split; [reflexivity|simpl; repeat split; auto; lia]|].
    cbn [QuadTree.objects QuadTree.capacity QuadTree.boundary].
    destruct (_ <? c);
      [eexists _, _; split; [reflexivity|simpl; repeat split; auto; lia]|].
    destruct (IHnw Hnw f ltac:(lia)) as (r1 & nw' & -> & Hnw' & Dnw).
    destruct r1;
      [eexists _, _; split; [reflexivity|simpl; repeat split; auto; lia]|].
    destruct (IHne Hne f ltac:(lia)) as (r2 & ne' & -> & Hne' & Dne).
    destruct r2;
      [eexists _, _; split; [reflexivity|simpl; repeat split; auto; lia]|].
    destruct (IHsw Hsw f ltac:(lia)) as (r3 & sw' & -> & Hsw' & Dsw).
    destruct r3;
      [eexists _, _; split; [reflexivity|simpl; repeat split; auto; lia]|].
    destruct (IHse Hse f ltac:(lia)) as (r4 & se' & -> & Hse' & Dse).
    eexists _, _; split; [reflexivity|simpl; repeat split; auto; lia].
Qed.

Lemma insert_all_total (objs : list nat) :
  forall (t : QuadTree.t) (fuel : nat),
  QuadTree.capacity_is c t ->
  (QuadTree.depth t + length objs + 1 <= fuel)%nat ->
  exists t', QuadTree.insert_all rect_of fuel t objs = Some t'
             /\ QuadTree.capacity_is c t'.
Proof.
  induction objs as [|obj objs IH]; intros t fuel Hc Hfuel; simpl.
  - eauto.
  - simpl in Hfuel.
    destruct (insert_total obj t Hc fuel ltac:(lia)) as (r & t' & -> & Hc' & D).
    apply IH; [assumption | lia].
Qed.

End QuadTreeTotal.

(** ** Spawning *)

Lemma Enemy_init_kind d x y r :
  kind (fst (Enemy.init d x y r)) = KEnemy
  /\ health (fst (Enemy.init d x y r)) = Int (d_health d)
  /\ max_health (fst (Enemy.init d x y r)) = Int (d_health d).
Proof.
  unfold Enemy.init.
  destruct x, y; repeat (destruct (Random.randrange _ _ _)); simpl; auto.
Qed.

Lemma Boss_init_spec d r :
  is_boss (fst (Boss.init d r)) = true
  /\ health (fst (Boss.init d r)) = Int (50 * d_health d)
  /\ max_health (fst (Boss.init d r)) = Int (50 * d_health d)
  /\ rect (fst (Boss.init d r)) = Rect.mk 360 (-100) 40 40.
Proof. unfold Boss.init. simpl. auto. Qed.

Lemma spawn_one_spec (i : Z) (g : Game.t) :
  exists s,
    Game.store (Game.spawn_one i g) = Game.store g ++ [s]
    /\ spawned_sprite_ok g (i =? 0) s
    /\ Game.enemies (Game.spawn_one i g)
       = group_add (length (Game.store g)) (Game.enemies g)
    /\ Game.all_sprites (Game.spawn_one i g)
       = group_add (length (Game.store g)) (Game.all_sprites g)
    /\ Game.level (Game.spawn_one i g) = Game.level g
    /\ Game.difficulty (Game.spawn_one i g) = Game.difficulty g
    /\ Game.state (Game.spawn_one i g) = Game.state g
    /\ Game.score (Game.spawn_one i g) = Game.score g
    /\ Game.high_score (Game.spawn_one i g) = Game.high_score g
    /\ Game.player (Game.spawn_one i g) = Game.player g
    /\ Game.story_manager (Game.spawn_one i g) = Game.story_manager g.
Proof.
  unfold Game.spawn_one.
  destruct ((Game.level g mod 5 =? 0) && (i =? 0)) eqn:E.
  - pose proof (Boss_init_spec (Difficulty.value (Game.difficulty g)) (Game.rng g))
      as (Hb & Hh & Hm & _).
    destruct (Boss.init _ _) as [s r]. simpl in *.
    exists s. repeat apply conj; auto; unfold spawned_sprite_ok; try congruence.
  - pose proof (Enemy_init_kind (Difficulty.value (Game.difficulty g)) None None
                                (Game.rng g)) as (Hk & Hh & _).
    destruct (Enemy.init _ _ _ _) as [s r]. simpl in *.
    assert (Hb : is_boss s = false) by (unfold is_boss; now rewrite Hk).
    exists s. repeat apply conj; auto; unfold spawned_sprite_ok; try congruence.
Qed.

Lemma spawn_loop_spec (n : nat) :
  forall (i : Z) (g : Game.t), 0 <= i ->
  exists new,
    Game.store (Game.spawn_loop i n g) = Game.store g ++ new
    /\ length new = n
    /\ (forall (j : nat) s, new !! j = Some s ->
          spawned_sprite_ok g ((i + Z.of_nat j) =? 0) s)
    /\ Game.level (Game.spawn_loop i n g) = Game.level g
    /\ Game.difficulty (Game.spawn_loop i n g) = Game.difficulty g
    /\ Game.state (Game.spawn_loop i n g) = Game.state g
    /\ Game.score (Game.spawn_loop i n g) = Game.score g
    /\ Game.high_score (Game.spawn_loop i n g) = Game.high_score g
    /\ Game.player (Game.spawn_loop i n g) = Game.player g
    /\ Game.story_manager (Game.spawn_loop i n g) = Game.story_manager g.
Proof.
  induction n as [|n IH]; intros i g Hi; simpl.
  - exists []. rewrite app_nil_r. repeat apply conj; auto.
    intros j s Hj. destruct j; discriminate.
  - destruct (spawn_one_spec i g)
      as (s & Hst & Hok & _ & _ & Hl & Hd & Hs & Hsc & Hh & Hp & Hm).
    destruct (IH (i + 1) (Game.spawn_one i g) ltac:(lia))
      as (new & Hst' & Hlen & Hnew & Hl' & Hd' & Hs' & Hsc' & Hh' & Hp' & Hm').
    exists (s :: new). rewrite Hst', Hst, <- app_assoc. simpl.
    repeat apply conj; try congruence.
    intros [|j] s' Hj; simpl in Hj.
    + inversion Hj; subst s'. now rewrite Z.add_0_r.
    + specialize (Hnew j s' Hj).
      unfold spawned_sprite_ok in *. rewrite Hl, Hd in Hnew.
      replace (i + Z.of_nat (S j)) with (i + 1 + Z.of_nat j) by lia.
      exact Hnew.
Qed.

(** The groups after spawning, when the identities already in them are
    allocated. *)
Lemma group_add_fresh (i : nat) (g : Group) :
  Forall (fun j => (j < i)%nat) g -> group_add i g = g ++ [i].
Proof.
  intros H. unfold group_add, group_has.
  destruct (existsb (Nat.eqb i) g) eqn:E; [|reflexivity].
  apply existsb_exists in E. destruct E as (j & Hj & Hij).
  apply Nat.eqb_eq in Hij. subst j.
  rewrite List.Forall_forall in H. specialize (H i Hj). lia.
Qed.

Lemma spawn_loop_enemies (n : nat) :
  forall (i : Z) (g : Game.t),
  Forall (fun j => (j < length (Game.store g))%nat) (Game.enemies g) ->
  Game.enemies (Game.spawn_loop i n g)
  = Game.enemies g ++ seq (length (Game.store g)) n.
Proof.
  induction n as [|n IH]; intros i g He; simpl.
  - now rewrite app_nil_r.
  - destruct (spawn_one_spec i g) as (s & Hst & _ & Hen & _).
    rewrite (group_add_fresh _ _ He) in Hen.
    rewrite IH.
    + rewrite Hen, Hst, length_app, <- app_assoc. simpl.
      now rewrite Nat.add_1_r.
    + rewrite Hen, Hst, length_app. simpl.
      apply Forall_app. split.
      * eapply Forall_impl; [exact He|]. simpl. intros; lia.
      * repeat constructor. lia.
Qed.

(** ** Folds over groups *)

Lemma fold_left_preserves {A B C : Type} (p : A -> C) (f : A -> B -> A) :
  (forall a b, p (f a b) = p a) ->
  forall (l : list B) (a : A), p (fold_left f l a) = p a.
Proof.
  intros Hf l. induction l as [|b l IH]; intros a; simpl; [reflexivity|].
  now rewrite IH, Hf.
Qed.

(** ** The high score *)

Lemma game_over_spec (g : Game.t) :
  Game.state (Game.game_over g) = GameState.GAME_OVER
  /\ Game.score (Game.game_over g) = Game.score g
  /\ Game.high_score (Game.game_over g)
     = Z.max (Game.score g) (Game.high_score g).
Proof.
  unfold Game.game_over. simpl.
  destruct (Z.gtb_spec (Game.score g) (Game.high_score g)); simpl;
    repeat apply conj; auto; lia.
Qed.

Lemma victory_spec (g : Game.t) :
  Game.state (Game.victory g) = GameState.VICTORY
  /\ Game.score (Game.victory g) = Game.score g
  /\ Game.high_score (Game.victory g)
     = Z.max (Game.score g) (Game.high_score g).
Proof.
  unfold Game.victory. simpl.
  destruct (Z.gtb_spec (Game.score g) (Game.high_score g)); simpl;
    repeat apply conj; auto; lia.
Qed.

Lemma high_score_ok_game_over hs0 g :
  high_score_ok hs0 g -> high_score_ok hs0 (Game.game_over g).
Proof.
  intros H. right. destruct (game_over_spec g) as (_ & -> & ->).
  destruct H as [[_ ->] | ->]; lia.
Qed.

Lemma high_score_ok_victory hs0 g :
  high_score_ok hs0 g -> high_score_ok hs0 (Game.victory g).
Proof.
  intros H. right. destruct (victory_spec g) as (_ & -> & ->).
  destruct H as [[_ ->] | ->]; lia.
Qed.

(** A step that keeps score and high score, and leaves the state alone or
    moves it to a state that is neither game-over nor victory. *)
Lemma high_score_ok_step hs0 g g' :
  Game.score g' = Game.score g ->
  Game.high_score g' = Game.high_score g ->
  (Game.state g' = Game.state g
   \/ Game.over_or_victory (Game.state g') = false) ->
  high_score_ok hs0 g -> high_score_ok hs0 g'.
Proof.
  intros Hs Hh Hst [[Ho Hhs] | Hhs].
  - left. split; [|congruence]. destruct Hst as [-> | ->]; auto.
  - right. congruence.
Qed.

(** Tactic for the facts "this step does not touch that field": unfold
    the step, split on every test it makes, compute. *)
Ltac split_tests :=
  repeat match goal with
         | |- context [match ?x with _ => _ end] => destruct x eqn:?
         end.

Lemma update_sprite_meta `{Libm} g i :
  Game.score (Game.update_sprite g i) = Game.score g
  /\ Game.high_score (Game.update_sprite g i) = Game.high_score g
  /\ Game.state (Game.update_sprite g i) = Game.state g
  /\ Game.level (Game.update_sprite g i) = Game.level g.
Proof.
  unfold Game.update_sprite. split_tests; repeat apply conj; reflexivity.
Qed.

Lemma boss_attack_meta `{Libm} g i :
  Game.score (Game.boss_attack g i) = Game.score g
  /\ Game.high_score (Game.boss_attack g i) = Game.high_score g
  /\ Game.state (Game.boss_attack g i) = Game.state g
  /\ Game.level (Game.boss_attack g i) = Game.level g.
Proof.
  unfold Game.boss_attack. split_tests; repeat apply conj; reflexivity.
Qed.

Lemma bullet_hit_running b e g :
  Game.over_or_victory (Game.state g) = false ->
  Game.over_or_victory (Game.state (Game.bullet_hit b e g)) = false
  /\ Game.high_score (Game.bullet_hit b e g) = Game.high_score g
  /\ Game.level (Game.bullet_hit b e g) = Game.level g.
Proof.
  intros Ho. unfold Game.bullet_hit. split_tests; repeat apply conj;
    try reflexivity; simpl; auto.
Qed.

(** ** Groups *)

Lemma group_has_In (i : nat) (g : Group) : group_has i g = true <-> In i g.
Proof.
  unfold group_has. rewrite existsb_exists. split.
  - intros (j & Hj & E). apply Nat.eqb_eq in E. now subst j.
  - intros Hi. exists i. split; [assumption | apply Nat.eqb_refl].
Qed.

Lemma filter_group_remove (p : nat -> bool) (i : nat) (g : Group) :
  List.filter p (group_remove i g)
  = List.filter (fun j => negb (Nat.eqb i j) && p j) g.
Proof.
  unfold group_remove. induction g as [|j g IH]; simpl; [reflexivity|].
  destruct (Nat.eqb i j); simpl; [exact IH|].
  destruct (p j); simpl; now rewrite IH.
Qed.

(** Killing every member of [hits]: what is left of a group. *)
Lemma fold_kill_spec (hits : list nat) :
  forall g : Game.t,
  let g' := fold_left (fun g e => Game.kill e g) hits g in
  Game.enemies g'
  = List.filter (fun j => negb (group_has j hits)) (Game.enemies g)
  /\ Game.all_sprites g'
     = List.filter (fun j => negb (group_has j hits)) (Game.all_sprites g)
  /\ Game.store g' = Game.store g
  /\ Game.score g' = Game.score g
  /\ Game.high_score g' = Game.high_score g
  /\ Game.state g' = Game.state g
  /\ Game.level g' = Game.level g
  /\ Player.health (Game.player g') = Player.health (Game.player g)
  /\ Player.shield_active (Game.player g')
     = Player.shield_active (Game.player g).
Proof.
  induction hits as [|h hits IH]; intros g; simpl.
  - repeat apply conj; try reflexivity.
    + induction (Game.enemies g) as [|j l IHl]; simpl; congruence.
    + induction (Game.all_sprites g) as [|j l IHl]; simpl; congruence.
  - destruct (IH (Game.kill h g)) as (He & Ha & Hst & Hs & Hh & Hstate & Hl & Hp & Hsh).
    rewrite He, Ha, Hst, Hs, Hh, Hstate, Hl, Hp, Hsh. simpl.
    rewrite !filter_group_remove.
    repeat apply conj; try reflexivity; apply List.filter_ext; intros j;
      rewrite (Nat.eqb_sym j h); now destruct (Nat.eqb h j).
Qed.

(** ** Player-enemy collisions *)

Lemma game_over_frame (g : Game.t) :
  Game.enemies (Game.game_over g) = Game.enemies g
  /\ Game.all_sprites (Game.game_over g) = Game.all_sprites g
  /\ Game.store (Game.game_over g) = Game.store g
  /\ Game.level (Game.game_over g) = Game.level g
  /\ Game.player (Game.game_over g) = Game.player g.
Proof.
  unfold Game.game_over. split_tests; repeat apply conj; reflexivity.
Qed.

Lemma victory_frame (g : Game.t) :
  Game.enemies (Game.victory g) = Game.enemies g
  /\ Game.all_sprites (Game.victory g) = Game.all_sprites g
  /\ Game.store (Game.victory g) = Game.store g
  /\ Game.level (Game.victory g) = Game.level g
  /\ Game.player (Game.victory g) = Game.player g
  /\ Game.story_manager (Game.victory g) = Game.story_manager g.
Proof.
  unfold Game.victory. split_tests; repeat apply conj; reflexivity.
Qed.

Lemma player_hit_spec (g : Game.t) (h : nat) :
  let g' := Game.player_hit g h in
  Player.health (Game.player g') = Player.health (Game.player g) - 20
  /\ Game.enemies g' = Game.enemies g
  /\ Game.all_sprites g' = Game.all_sprites g
  /\ Game.store g' = Game.store g
  /\ Game.score g' = Game.score g
  /\ Game.level g' = Game.level g
  /\ (Player.health (Game.player g) - 20 <= 0 ->
      Game.state g' = GameState.GAME_OVER)
  /\ (0 < Player.health (Game.player g) - 20 ->
      Game.state g' = Game.state g
      /\ Game.high_score g' = Game.high_score g)
  /\ (forall hs0, high_score_ok hs0 g -> high_score_ok hs0 g').
Proof.
  unfold Game.player_hit.
  set (g2 := Game.set_player _ g).
  assert (Hh : Player.health (Game.player g2)
               = Player.health (Game.player g) - 20) by reflexivity.
  assert (Hok2 : forall hs0, high_score_ok hs0 g -> high_score_ok hs0 g2).
  { intros hs0. apply high_score_ok_step; auto. }
  rewrite Hh.
  destruct (Z.leb_spec (Player.health (Game.player g) - 20) 0) as [Hle|Hgt].
  - destruct (game_over_spec g2) as (Hst & Hsc & Hhs).
    destruct (game_over_frame g2) as (He & Ha & Hs & Hl & Hp).
    rewrite He, Ha, Hs, Hl, Hp, Hst, Hsc. cbv zeta.
    repeat apply conj; auto; try lia.
    intros hs0 H0. now apply high_score_ok_game_over, Hok2.
  - cbv zeta. repeat apply conj; auto; lia.
Qed.

Lemma fold_player_hit_spec (hits : list nat) :
  forall g : Game.t,
  let g' := fold_left Game.player_hit hits g in
  Player.health (Game.player g')
  = Player.health (Game.player g) - 20 * Z.of_nat (length hits)
  /\ Game.enemies g' = Game.enemies g
  /\ Game.all_sprites g' = Game.all_sprites g
  /\ Game.store g' = Game.store g
  /\ Game.score g' = Game.score g
  /\ Game.level g' = Game.level g
  /\ (hits <> [] -> Player.health (Game.player g') <= 0 ->
      Game.state g' = GameState.GAME_OVER)
  /\ (0 < Player.health (Game.player g') ->
      Game.state g' = Game.state g /\ Game.high_score g' = Game.high_score g)
  /\ (forall hs0, high_score_ok hs0 g -> high_score_ok hs0 g').
Proof.
  induction hits as [|h hits IH]; intros g; simpl.
  - repeat apply conj; auto; try lia. congruence.
  - destruct (IH (Game.player_hit g h))
      as (Hp & He & Ha & Hst & Hs & Hl & Hover & Halive & Hok).
    destruct (player_hit_spec g h)
      as (Hp1 & He1 & Ha1 & Hst1 & Hs1 & Hl1 & Hover1 & Halive1 & Hok1).
    set (g1 := Game.player_hit g h) in *.
    rewrite Hp, He, Ha, Hst, Hs, Hl, Hp1, He1, Ha1, Hst1, Hs1, Hl1.
    rewrite Hp, Hp1 in Hover, Halive.
    repeat apply conj; auto; try lia.
    + intros _ Hle. destruct hits as [|h' hits'].
      * simpl in *. apply Hover1. lia.
      * apply Hover; [discriminate | lia].
    + intros Hgt. destruct (Halive ltac:(lia)) as [E1 E2].
      destruct (Halive1 ltac:(lia)) as [E3 E4]. split; congruence.
Qed.

(** ** Writing to the store *)

Lemma modify_lookup (e : nat) (f : Sprite -> Sprite) (g : Game.t) (i : nat) :
  Game.store (Game.modify e f g) !! i
  = if Nat.eqb e i then f <$> Game.store g !! i else Game.store g !! i.
Proof.
  unfold Game.modify, deref. cbn [Game.store Game.set_store].
  destruct (Nat.eqb_spec e i) as [->|Hne].
  - destruct (decide (i < length (Game.store g))%nat) as [Hlt|Hge].
    + destruct (lookup_lt_is_Some_2 _ _ Hlt) as [s Hs].
      rewrite Hs. now apply list_lookup_insert_eq.
    + assert (E : Game.store g !! i = None) by (apply lookup_ge_None; lia).
      rewrite list_insert_ge by lia. now rewrite E.
  - now apply list_lookup_insert_ne.
Qed.

Lemma modify_frame (e : nat) (f : Sprite -> Sprite) (g : Game.t) :
  Game.level (Game.modify e f g) = Game.level g
  /\ Game.score (Game.modify e f g) = Game.score g
  /\ Game.high_score (Game.modify e f g) = Game.high_score g
  /\ Game.state (Game.modify e f g) = Game.state g
  /\ Game.player (Game.modify e f g) = Game.player g
  /\ Game.enemies (Game.modify e f g) = Game.enemies g
  /\ Game.all_sprites (Game.modify e f g) = Game.all_sprites g
  /\ Game.story_manager (Game.modify e f g) = Game.story_manager g
  /\ Game.difficulty (Game.modify e f g) = Game.difficulty g
  /\ length (Game.store (Game.modify e f g)) = length (Game.store g).
Proof.
  repeat apply conj; try reflexivity.
  unfold Game.modify. simpl. apply length_insert.
Qed.

Lemma fold_modify_lookup (f : Sprite -> Sprite) (l : list nat) :
  List.NoDup l ->
  forall (g : Game.t) (i : nat),
  Game.store (fold_left (fun g e => Game.modify e f g) l g) !! i
  = if group_has i l then f <$> Game.store g !! i else Game.store g !! i.
Proof.
  induction l as [|e l IH]; intros Hnd g i; simpl; [reflexivity|].
  apply List.NoDup_cons_iff in Hnd. destruct Hnd as [Hnot Hnd].
  rewrite (IH Hnd), modify_lookup, (Nat.eqb_sym i e).
  destruct (Nat.eqb_spec e i) as [->|Hne]; simpl; [|reflexivity].
  destruct (group_has i l) eqn:E; [|reflexivity].
  apply group_has_In in E. contradiction.
Qed.

Lemma fold_modify_frame (f : Sprite -> Sprite) (l : list nat) (g : Game.t) :
  let g' := fold_left (fun g e => Game.modify e f g) l g in
  Game.level g' = Game.level g
  /\ Game.score g' = Game.score g
  /\ Game.high_score g' = Game.high_score g
  /\ Game.state g' = Game.state g
  /\ Game.player g' = Game.player g
  /\ Game.enemies g' = Game.enemies g
  /\ Game.all_sprites g' = Game.all_sprites g
  /\ Game.story_manager g' = Game.story_manager g
  /\ Game.difficulty g' = Game.difficulty g
  /\ length (Game.store g') = length (Game.store g).
Proof.
  cbv zeta.
  repeat apply conj;
    match goal with
    | |- ?p (fold_left ?f ?l ?a) = _ =>
        apply (fold_left_preserves p f); intros; reflexivity
    | _ => idtac
    end.
  apply (fold_left_preserves (fun g => length (Game.store g))).
  intros a b. apply modify_frame.
Qed.

(** ** Level completion *)

Lemma spawn_enemies_spec (g : Game.t) :
  let g' := Game.spawn_enemies g in
  let count :=
    Z.to_nat (d_enemies (Difficulty.value (Game.difficulty g)) + Game.level g) in
  (exists new, Game.store g' = Game.store g ++ new /\ length new = count)
  /\ Game.level g' = Game.level g
  /\ Game.state g' = Game.state g
  /\ Game.score g' = Game.score g
  /\ Game.high_score g' = Game.high_score g
  /\ Game.player g' = Game.player g
  /\ Game.story_manager g' = Game.story_manager g.
Proof.
  intros g' count.
  destruct (spawn_loop_spec count 0 g ltac:(lia))
    as (new & Hst & Hlen & _ & Hl & _ & Hs & Hsc & Hh & Hp & Hm).
  repeat apply conj; eauto.
Qed.

Lemma level_complete_spec (g : Game.t) :
  let g' := Game.level_complete g in
  let lvl := Game.level g + 1 in
  let sm := Game.story_manager g in
  let diff := Difficulty.value (Game.difficulty g) in
  let to_story :=
    (lvl mod 5 =? 0)
    && (StoryManager.current_chapter sm + 1 <? Z.of_nat (StoryManager.chapters sm)) in
  Game.level g' = lvl
  /\ Player.health (Game.player g')
     = Z.min (Player.max_health (Game.player g))
             (Player.health (Game.player g) + 20)
  /\ (forall i s, List.NoDup (Game.enemies g) -> In i (Game.enemies g) ->
        Game.store g !! i = Some s ->
        Game.store g' !! i
        = Some (if lvl mod 3 =? 0 then set_speed (speed s * Flt 1.1)%num s
                else s))
  /\ StoryManager.current_chapter (Game.story_manager g')
     = StoryManager.current_chapter sm + (if lvl mod 5 =? 0 then 1 else 0)
  /\ (to_story = true ->
      Game.enemies g' = Game.enemies g
      /\ length (Game.store g') = length (Game.store g)
      /\ (lvl <= 15 -> Game.state g' = GameState.STORY))
  /\ (to_story = false ->
      length (Game.store g')
      = (length (Game.store g) + Z.to_nat (d_enemies diff + lvl))%nat
      /\ (lvl <= 15 -> Game.state g' = Game.state g))
  /\ (15 < lvl -> Game.state g' = GameState.VICTORY).
Proof.
  intros g' lvl sm diff to_story.
  unfold g', Game.level_complete.
  set (ga := Game.set_player _ (Game.set_level _ g)).
  set (gb := if Game.level ga mod 3 =? 0 then _ else ga).
  assert (Hb : Game.level gb = lvl
               /\ Game.player gb = Game.player ga
               /\ Game.state gb = Game.state g
               /\ Game.story_manager gb = sm
               /\ Game.difficulty gb = Game.difficulty g
               /\ Game.enemies gb = Game.enemies g
               /\ length (Game.store gb) = length (Game.store g)
               /\ forall i s, List.NoDup (Game.enemies g) ->
                    In i (Game.enemies g) -> Game.store g !! i = Some s ->
                    Game.store gb !! i
                    = Some (if lvl mod 3 =? 0
                            then set_speed (speed s * Flt 1.1)%num s else s)).
  { unfold gb. change (Game.level ga) with lvl.
    destruct (lvl mod 3 =? 0).
    - destruct (fold_modify_frame
                  (fun s => set_speed (speed s * Flt 1.1)%num s)
                  (Game.enemies ga) ga)
        as (Hl & _ & _ & Hs & Hp & He & _ & Hm & Hd & Hlen).
      cbv zeta in *. rewrite Hl, Hs, Hp, He, Hm, Hd, Hlen.
      repeat apply conj; try reflexivity.
      intros i s Hnd Hin Hi.
      rewrite fold_modify_lookup by exact Hnd.
      apply group_has_In in Hin. change (Game.enemies ga) with (Game.enemies g).
      rewrite Hin. change (Game.store ga) with (Game.store g).
      now rewrite Hi.
    - repeat apply conj; try reflexivity. intros i s _ _ Hi. exact Hi. }
  destruct Hb as (Hbl & Hbp & Hbs & Hbm & Hbd & Hbe & Hblen & Hbst).
  set (gc := if Game.level gb mod 5 =? 0 then _ else Game.spawn_enemies gb).
  assert (Hc : Game.level gc = lvl
               /\ Game.player gc = Game.player ga
               /\ StoryManager.current_chapter (Game.story_manager gc)
                  = StoryManager.current_chapter sm
                    + (if lvl mod 5 =? 0 then 1 else 0)
               /\ (forall i s, Game.store gb !! i = Some s ->
                     Game.store gc !! i = Some s)
               /\ (to_story = true ->
                   Game.enemies gc = Game.enemies g
                   /\ length (Game.store gc) = length (Game.store g)
                   /\ Game.state gc = GameState.STORY)
               /\ (to_story = false ->
                   length (Game.store gc)
                   = (length (Game.store g)
                      + Z.to_nat (d_enemies diff + lvl))%nat
                   /\ Game.state gc = Game.state g)).
  { unfold gc, to_story. rewrite Hbl.
    destruct (lvl mod 5 =? 0); simpl.
    - unfold StoryManager.advance_story. rewrite Hbm.
      cbn [StoryManager.current_chapter StoryManager.chapters].
      destruct (_ <? _).
      + simpl. rewrite Hbl, Hbp, Hbe, Hblen.
        repeat apply conj; auto; discriminate.
      + destruct (spawn_enemies_spec
                    (Game.set_story_manager
                       (StoryManager.mk (StoryManager.chapters sm)
                          (StoryManager.current_chapter sm + 1)) gb))
          as ((new & Hst & Hlen) & Hl & Hs & _ & _ & Hp & Hm).
        cbv zeta in *. rewrite Hl, Hp, Hm, Hs, Hst.
        simpl. rewrite Hbl, Hbp, Hbs, length_app, Hlen, Hblen.
        simpl. rewrite Hbd, Hbl.
        repeat apply conj; auto; try discriminate.
        intros i s Hi. now apply lookup_app_l_Some.
    - destruct (spawn_enemies_spec gb)
        as ((new & Hst & Hlen) & Hl & Hs & _ & _ & Hp & Hm).
      cbv zeta in *. rewrite Hl, Hp, Hm, Hs, Hst, Hbm.
      rewrite Hbl, Hbp, Hbs, length_app, Hlen, Hblen, Hbd, Hbl.
      repeat apply conj; auto; try discriminate; try lia.
      intros i s Hi. now apply lookup_app_l_Some. }
  destruct Hc as (Hcl & Hcp & Hcm & Hcst & Hcs & Hcn).
  rewrite Hcl.
  destruct (victory_frame gc) as (Ve & _ & Vst & Vl & Vp & Vm).
  destruct (victory_spec gc) as (Vs & _).
  destruct (Z.gtb_spec lvl 15) as [Hgt|Hle].
  - rewrite Vl, Vp, Vm, Vs, Ve, Vst, Hcl, Hcp, Hcm.
    repeat apply conj; auto; try (intros; lia).
    + intros T. destruct (Hcs T) as (? & ? & ?). repeat apply conj; auto. lia.
    + intros T. destruct (Hcn T) as (? & ?). split; auto. lia.
  - rewrite Hcl, Hcp, Hcm.
    repeat apply conj; auto; try (intros; lia).
    + intros T. destruct (Hcs T) as (? & ? & ?). repeat apply conj; auto.
    + intros T. destruct (Hcn T) as (? & ?). split; auto.
Qed.

(** ** Totality of the collision pass *)

Lemma rebuild_quadtree_total (g : Game.t) :
  exists qt, Game.rebuild_quadtree g = Some (Game.set_quadtree qt g).
Proof.
  unfold Game.rebuild_quadtree.
  destruct (insert_all_total (Game.rect_of g) 4 ltac:(lia) (Game.enemies g)
              (QuadTree.init (Int 0, Int 0, Int Config.SCREEN_WIDTH,
                              Int Config.SCREEN_HEIGHT) 4)
              (length (Game.enemies g) + 2)%nat)
    as (qt & -> & _); [reflexivity | simpl; lia | eauto].
Qed.

Lemma collisions_total (g : Game.t) :
  exists qt,
    Game.collisions g
    = Some (Game.player_enemy_collisions
              (Game.bullet_enemy_collisions (Game.set_quadtree qt g))).
Proof.
  unfold Game.collisions.
  destruct (rebuild_quadtree_total g) as (qt & ->). eauto.
Qed.

Lemma check_collisions_total (g : Game.t) :
  exists g', Game.check_collisions g = Some g'.
Proof.
  unfold Game.check_collisions.
  destruct (collisions_total g) as (qt & ->). eauto.
Qed.

Lemma update_total `{Libm} (keys : Keys) (now : Z) (g : Game.t) :
  exists g', Game.run_update keys now g = Some g'.
Proof.
  unfold Game.run_update. destruct (GameState.eqb _ _); [|eauto].
  match goal with
  | |- context [Game.check_collisions ?x] =>
      destruct (check_collisions_total x) as (g' & ->)
  end. eauto.
Qed.

(** ** The high score through one update *)

Lemma level_complete_high_score_ok (hs0 : Z) (g : Game.t) :
  high_score_ok hs0 g -> high_score_ok hs0 (Game.level_complete g).
Proof.
  intros Hok. unfold Game.level_complete.
  set (ga := Game.set_player _ (Game.set_level _ g)).
  assert (Ha : high_score_ok hs0 ga).
  { revert Hok. apply high_score_ok_step; auto. }
  set (gb := if Game.level ga mod 3 =? 0 then _ else ga).
  assert (Hb : high_score_ok hs0 gb).
  { unfold gb. destruct (_ =? 0); [|exact Ha].
    destruct (fold_modify_frame
                (fun s => set_speed (speed s * Flt 1.1)%num s)
                (Game.enemies ga) ga) as (_ & Hs & Hh & Hst & _).
    revert Ha. apply high_score_ok_step; auto. }
  clearbody gb. clear Ha. clearbody ga.
  set (gc := if Game.level gb mod 5 =? 0 then _ else Game.spawn_enemies gb).
  assert (Hspawn : forall g0, high_score_ok hs0 g0 ->
                     high_score_ok hs0 (Game.spawn_enemies g0)).
  { intros g0. destruct (spawn_enemies_spec g0) as (_ & _ & Hst & Hs & Hh & _).
    apply high_score_ok_step; auto. }
  assert (Hc : high_score_ok hs0 gc).
  { unfold gc. destruct (Game.level gb mod 5 =? 0); [|now apply Hspawn].
    destruct (StoryManager.advance_story _) as [sm more].
    destruct more.
    - revert Hb. apply high_score_ok_step; auto.
    - apply Hspawn. revert Hb. apply high_score_ok_step; auto. }
  clearbody gc. destruct (_ >? 15); [now apply high_score_ok_victory | exact Hc].
Qed.

Lemma bullet_pass_running (g : Game.t) (b : nat) :
  Game.over_or_victory (Game.state g) = false ->
  Game.over_or_victory (Game.state (Game.bullet_pass g b)) = false
  /\ Game.high_score (Game.bullet_pass g b) = Game.high_score g
  /\ Game.level (Game.bullet_pass g b) = Game.level g.
Proof.
  unfold Game.bullet_pass.
  generalize (QuadTree.query (Game.rect_of g) (Game.quadtree g)
                             (Game.rect_of g b) []).
  intros l. revert g. induction l as [|e l IH]; intros g Ho; simpl; auto.
  destruct (bullet_hit_running b e g Ho) as (Ho1 & Hh1 & Hl1).
  destruct (IH _ Ho1) as (Ho2 & Hh2 & Hl2).
  repeat apply conj; congruence.
Qed.

Lemma bullet_enemy_collisions_running (g : Game.t) :
  Game.over_or_victory (Game.state g) = false ->
  Game.over_or_victory (Game.state (Game.bullet_enemy_collisions g)) = false
  /\ Game.high_score (Game.bullet_enemy_collisions g) = Game.high_score g
  /\ Game.level (Game.bullet_enemy_collisions g) = Game.level g.
Proof.
  unfold Game.bullet_enemy_collisions.
  generalize (Player.bullets (Game.player g)).
  intros l. revert g. induction l as [|b l IH]; intros g Ho; simpl; auto.
  destruct (bullet_pass_running g b Ho) as (Ho1 & Hh1 & Hl1).
  destruct (IH _ Ho1) as (Ho2 & Hh2 & Hl2).
  repeat apply conj; congruence.
Qed.

Lemma player_enemy_collisions_high_score_ok (hs0 : Z) (g : Game.t) :
  high_score_ok hs0 g -> high_score_ok hs0 (Game.player_enemy_collisions g).
Proof.
  intros Hok. unfold Game.player_enemy_collisions.
  destruct (negb _); [|exact Hok].
  unfold Game.spritecollide_kill.
  set (hits := List.filter _ _).
  destruct (fold_kill_spec hits g) as (_ & _ & _ & Hs & Hh & Hst & _).
  destruct (fold_player_hit_spec hits
              (fold_left (fun g e => Game.kill e g) hits g))
    as (_ & _ & _ & _ & _ & _ & _ & _ & Hok').
  apply Hok'. revert Hok. apply high_score_ok_step; auto.
Qed.

Lemma check_collisions_high_score_ok (g g' : Game.t) :
  Game.over_or_victory (Game.state g) = false ->
  Game.check_collisions g = Some g' ->
  high_score_ok (Game.high_score g) g'.
Proof.
  intros Ho Hcc. unfold Game.check_collisions in Hcc.
  destruct (collisions_total g) as (qt & Hq). rewrite Hq in Hcc.
  injection Hcc as <-.
  destruct (bullet_enemy_collisions_running (Game.set_quadtree qt g) Ho)
    as (Ho1 & Hh1 & _).
  assert (H1 : high_score_ok (Game.high_score g)
                 (Game.bullet_enemy_collisions (Game.set_quadtree qt g))).
  { left. split; assumption. }
  apply (player_enemy_collisions_high_score_ok _ _) in H1.
  unfold Game.level_completion_check.
  destruct (_ =? _)%nat; [now apply level_complete_high_score_ok | exact H1].
Qed.

Lemma all_sprites_update_meta `{Libm} keys g :
  meta (Game.all_sprites_update keys g) = meta g.
Proof.
  unfold Game.all_sprites_update.
  rewrite (fold_left_preserves meta); [reflexivity|].
  intros a b. destruct (update_sprite_meta a b) as (? & ? & ? & _).
  unfold meta. congruence.
Qed.

Lemma bullets_update_meta `{Libm} g : meta (Game.bullets_update g) = meta g.
Proof.
  unfold Game.bullets_update.
  rewrite (fold_left_preserves meta); [reflexivity|].
  intros a b. destruct (update_sprite_meta a b) as (? & ? & ? & _).
  unfold meta. congruence.
Qed.

Lemma boss_attacks_meta `{Libm} g : meta (Game.boss_attacks g) = meta g.
Proof.
  unfold Game.boss_attacks.
  rewrite (fold_left_preserves meta); [reflexivity|].
  intros a b. destruct (boss_attack_meta a b) as (? & ? & ? & _).
  unfold meta. congruence.
Qed.

Lemma update_high_score_ok `{Libm} keys now (g g' : Game.t) :
  Game.over_or_victory (Game.state g) = false ->
  Game.run_update keys now g = Some g' ->
  high_score_ok (Game.high_score g) g'.
Proof.
  intros Ho Hu. unfold Game.run_update in Hu.
  destruct (GameState.eqb _ _).
  - set (g1 := if K_SPACE keys then _ else g) in Hu.
    assert (H1 : meta g1 = meta g).
    { unfold g1. destruct (K_SPACE keys); [|reflexivity].
      destruct (Player.shoot _ _ _) as [[o p] st]. reflexivity. }
    set (g2 := Game.bullets_update (Game.all_sprites_update keys g1)) in Hu.
    assert (H2 : meta g2 = meta g).
    { unfold g2. now rewrite bullets_update_meta, all_sprites_update_meta. }
    destruct (Game.check_collisions g2) as [g3|] eqn:Hcc; [|discriminate].
    injection Hu as <-.
    unfold meta in H2. injection H2 as Hs Hh Hst.
    apply check_collisions_high_score_ok in Hcc; [|now rewrite Hst].
    rewrite Hh in Hcc.
    pose proof (boss_attacks_meta g3) as H3. unfold meta in H3.
    injection H3 as Hs3 Hh3 Hst3.
    revert Hcc. apply high_score_ok_step; auto.
  - injection Hu as <-. left. auto.
Qed.

(** ** Groups only shrink under [kill] *)

Lemma thinned_refl (l : list nat) : thinned l l.
Proof.
  exists (fun _ => true). induction l as [|x l IH]; simpl; congruence.
Qed.

Lemma thinned_trans (l1 l2 l3 : list nat) :
  thinned l1 l2 -> thinned l2 l3 -> thinned l1 l3.
Proof.
  intros [p ->] [q ->]. exists (fun x => q x && p x).
  induction l3 as [|x l IH]; simpl; [reflexivity|].
  destruct (q x); simpl; [|exact IH]. destruct (p x); now rewrite IH.
Qed.

Lemma thinned_remove (i : nat) (l : list nat) : thinned (group_remove i l) l.
Proof. unfold group_remove. eexists. reflexivity. Qed.

Lemma thinned_In (l' l : list nat) (x : nat) :
  thinned l' l -> In x l' -> In x l.
Proof. intros [p ->] Hx. now apply List.filter_In in Hx. Qed.

Lemma thinned_NoDup (l' l : list nat) :
  thinned l' l -> List.NoDup l -> List.NoDup l'.
Proof. intros [p ->]. apply List.NoDup_filter. Qed.

Lemma groups_thinned_refl (g : Game.t) : groups_thinned g g.
Proof. repeat split; apply thinned_refl. Qed.

Lemma groups_thinned_trans (g1 g2 g3 : Game.t) :
  groups_thinned g1 g2 -> groups_thinned g2 g3 -> groups_thinned g1 g3.
Proof.
  intros (A1 & B1 & C1) (A2 & B2 & C2).
  repeat split; eapply thinned_trans; eassumption.
Qed.

Lemma groups_thinned_same (g' g : Game.t) :
  Game.enemies g' = Game.enemies g ->
  Game.all_sprites g' = Game.all_sprites g ->
  Player.bullets (Game.player g') = Player.bullets (Game.player g) ->
  groups_thinned g' g.
Proof.
  intros E1 E2 E3. unfold groups_thinned. rewrite E1, E2, E3.
  repeat split; apply thinned_refl.
Qed.

Lemma kill_thinned (i : nat) (g : Game.t) : groups_thinned (Game.kill i g) g.
Proof. repeat split; apply thinned_remove. Qed.

(** ** What one sprite update does to the store *)

Lemma motion_eq (s1 s2 : Sprite) :
  motion s1 = motion s2 -> s1 = set_health (health s1) s2.
Proof.
  destruct s1, s2. unfold motion, set_health. simpl.
  intros E. injection E as -> -> -> ->. reflexivity.
Qed.

Lemma Boss_update_set_health `{Libm} (h : num) (s : Sprite) :
  Boss.update (set_health h s)
  = (set_health h (fst (Boss.update s)), snd (Boss.update s)).
Proof.
  unfold Boss.update.
  change (Boss.state (set_health h s)) with (Boss.state s).
  change (rect (set_health h s)) with (rect s).
  repeat match goal with
         | |- context [if ?b then _ else _] => destruct b
         end; reflexivity.
Qed.

Lemma lookup_insert_other (st : list Sprite) (j i : nat) (s : Sprite) :
  i <> j -> <[j := s]> st !! i = st !! i.
Proof. intros Hne. apply list_lookup_insert_ne. congruence. Qed.

Lemma update_sprite_store `{Libm} (g : Game.t) (j : nat) :
  length (Game.store (Game.update_sprite g j)) = length (Game.store g)
  /\ (forall i, i <> j ->
        Game.store (Game.update_sprite g j) !! i = Game.store g !! i)
  /\ (forall s, Game.store g !! j = Some s -> is_boss s = true ->
        Game.store (Game.update_sprite g j) !! j = Some (fst (Boss.update s)))
  /\ groups_thinned (Game.update_sprite g j) g.
Proof.
  unfold Game.update_sprite.
  destruct (kind (deref (Game.store g) j)) eqn:Ek.
  - destruct (Enemy.update _ _) as [s' r]. cbn [Game.store Game.set_rng Game.set_store].
    split; [|split; [|split]].
    + apply length_insert.
    + intros i Hne. now apply lookup_insert_other.
    + intros s Hs Hb. unfold deref in Ek. rewrite Hs in Ek.
      unfold is_boss in Hb. rewrite Ek in Hb. discriminate.
    + apply groups_thinned_same; reflexivity.
  - cbn [Game.store Game.set_store]. split; [|split; [|split]].
    + apply length_insert.
    + intros i Hne. now apply lookup_insert_other.
    + intros s Hs Hb. unfold deref. rewrite Hs.
      apply list_lookup_insert_eq. now apply lookup_lt_Some in Hs.
    + apply groups_thinned_same; reflexivity.
  - destruct (Bullet.update _) as [s' killed].
    assert (E : Game.store (if killed
                            then Game.kill j (Game.set_store (<[j:=s']> (Game.store g)) g)
                            else Game.set_store (<[j:=s']> (Game.store g)) g)
                = <[j:=s']> (Game.store g)) by (destruct killed; reflexivity).
    rewrite E. split; [|split; [|split]].
    + apply length_insert.
    + intros i Hne. now apply lookup_insert_other.
    + intros s Hs Hb. unfold deref in Ek. rewrite Hs in Ek.
      unfold is_boss in Hb. rewrite Ek in Hb. discriminate.
    + destruct killed.
      * eapply groups_thinned_trans; [apply kill_thinned|].
        apply groups_thinned_same; reflexivity.
      * apply groups_thinned_same; reflexivity.
Qed.

(** A group update: every boss of the group gets one [Boss.update],
    sprites outside the group are left alone. *)
Lemma fold_update_sprite_store `{Libm} (l : list nat) :
  forall g : Game.t,
  let g' := fold_left Game.update_sprite l g in
  length (Game.store g') = length (Game.store g)
  /\ (forall i, ~ In i l -> Game.store g' !! i = Game.store g !! i)
  /\ (forall i s, List.NoDup l -> In i l -> Game.store g !! i = Some s ->
        is_boss s = true -> Game.store g' !! i = Some (fst (Boss.update s)))
  /\ groups_thinned g' g.
Proof.
  induction l as [|j l IH]; intros g; simpl.
  - split; [|split; [|split]]; auto; try tauto. apply groups_thinned_refl.
  - destruct (update_sprite_store g j) as (Hlen & Hother & Hboss & Hthin).
    destruct (IH (Game.update_sprite g j)) as (Hlen' & Hout' & Hin' & Hthin').
    split; [|split; [|split]].
    + congruence.
    + intros i Hi. rewrite Hout' by tauto. apply Hother. intros ->. tauto.
    + intros i s Hnd [->|Hi] Hs Hb.
      * apply List.NoDup_cons_iff in Hnd. destruct Hnd as [Hnot _].
        rewrite Hout' by exact Hnot. now apply Hboss.
      * apply List.NoDup_cons_iff in Hnd. destruct Hnd as [Hnot Hnd].
        apply Hin'; auto. rewrite Hother; [exact Hs|]. intros ->. tauto.
    + eapply groups_thinned_trans; eassumption.
Qed.

Lemma group_add_In (x y : nat) (g : list nat) :
  In y (group_add x g) -> In y g \/ y = x.
Proof.
  unfold group_add. destruct (group_has x g); [tauto|].
  rewrite List.in_app_iff. simpl. intuition.
Qed.

Lemma boss_attack_store `{Libm} (g : Game.t) (j : nat) :
  let g' := Game.boss_attack g j in
  (length (Game.store g) <= length (Game.store g'))%nat
  /\ (forall i, i <> j -> (i < length (Game.store g))%nat ->
        Game.store g' !! i = Game.store g !! i)
  /\ (forall s, Game.store g !! j = Some s -> is_boss s = true ->
        Game.store g' !! j = Some (fst (Boss.update s)))
  /\ (forall x, In x (Game.enemies g') ->
        In x (Game.enemies g) \/ (length (Game.store g) <= x)%nat).
Proof.
  unfold Game.boss_attack.
  destruct (is_boss (deref (Game.store g) j)) eqn:Eb.
  - destruct (Boss.update (deref (Game.store g) j)) as [s' fire] eqn:Eu.
    destruct fire; cbn [alloc Game.store Game.set_store Game.set_enemies
                        Game.set_all_sprites Game.enemies].
    + split; [|split; [|split]].
      * rewrite length_app, length_insert. lia.
      * intros i Hne Hlt.
        rewrite lookup_app_l by (rewrite length_insert; exact Hlt).
        now apply lookup_insert_other.
      * intros s Hs Hb. assert (Hlt := lookup_lt_Some _ _ _ Hs).
        rewrite lookup_app_l by (rewrite length_insert; exact Hlt).
        unfold deref in Eu. rewrite Hs in Eu. rewrite Eu.
        now apply list_lookup_insert_eq.
      * intros x Hx. apply group_add_In in Hx.
        rewrite length_insert in Hx. destruct Hx as [Hx | ->]; [tauto|].
        right. lia.
    + split; [|split; [|split]].
      * rewrite length_insert. lia.
      * intros i Hne _. now apply lookup_insert_other.
      * intros s Hs Hb. assert (Hlt := lookup_lt_Some _ _ _ Hs).
        unfold deref in Eu. rewrite Hs in Eu. rewrite Eu.
        now apply list_lookup_insert_eq.
      * tauto.
  - cbv zeta. split; [|split; [|split]]; auto.
    intros s Hs Hb. unfold deref in Eb. rewrite Hs in Eb. congruence.
Qed.

(** The boss-attack loop: every boss of the enemy group gets one
    [Boss.update]; other sprites are left alone; whatever joins the group
    is newly allocated. *)
Lemma fold_boss_attack_store `{Libm} (l : list nat) :
  forall g : Game.t,
  let g' := fold_left Game.boss_attack l g in
  (length (Game.store g) <= length (Game.store g'))%nat
  /\ (forall i, ~ In i l -> (i < length (Game.store g))%nat ->
        Game.store g' !! i = Game.store g !! i)
  /\ (forall i s, List.NoDup l -> In i l -> Game.store g !! i = Some s ->
        is_boss s = true -> Game.store g' !! i = Some (fst (Boss.update s)))
  /\ (forall x, In x (Game.enemies g') ->
        In x (Game.enemies g) \/ (length (Game.store g) <= x)%nat).
Proof.
  induction l as [|j l IH]; intros g; simpl.
  - split; [|split; [|split]]; auto; tauto.
  - destruct (boss_attack_store g j) as (Hlen & Hother & Hboss & Hen).
    destruct (IH (Game.boss_attack g j)) as (Hlen' & Hout' & Hin' & Hen').
    cbv zeta in *. split; [|split; [|split]].
    + lia.
    + intros i Hi Hlt. rewrite Hout' by (try tauto; lia).
      apply Hother; [|exact Hlt]. intros ->. tauto.
    + intros i s Hnd [->|Hi] Hs Hb.
      * apply List.NoDup_cons_iff in Hnd. destruct Hnd as [Hnot _].
        assert (Hlt := lookup_lt_Some _ _ _ Hs).
        rewrite Hout' by (try exact Hnot; lia). now apply Hboss.
      * apply List.NoDup_cons_iff in Hnd. destruct Hnd as [Hnot Hnd].
        apply Hin'; auto.
        assert (Hlt := lookup_lt_Some _ _ _ Hs).
        rewrite Hother; [exact Hs| |exact Hlt]. intros ->. tauto.
    + intros x Hx. destruct (Hen' x Hx) as [Hx'|Hx']; [|right; lia].
      destruct (Hen x Hx') as [?|?]; [tauto | right; lia].
Qed.

(** ** What the collision passes do to the store: health only *)

Lemma same_motion_refl (st : list Sprite) : same_motion st st.
Proof. intros i. reflexivity. Qed.

Lemma same_motion_trans (st1 st2 st3 : list Sprite) :
  same_motion st1 st2 -> same_motion st2 st3 -> same_motion st1 st3.
Proof. intros H1 H2 i. now rewrite H1. Qed.

Lemma collision_step_refl (g : Game.t) : collision_step g g.
Proof.
  split; [reflexivity|]. split; [apply same_motion_refl|].
  apply groups_thinned_refl.
Qed.

Lemma collision_step_trans (g1 g2 g3 : Game.t) :
  collision_step g1 g2 -> collision_step g2 g3 -> collision_step g1 g3.
Proof.
  intros (L1 & M1 & T1) (L2 & M2 & T2). split; [congruence|]. split.
  - eapply same_motion_trans; eassumption.
  - eapply groups_thinned_trans; eassumption.
Qed.

Lemma fold_collision_step {B : Type} (f : Game.t -> B -> Game.t) :
  (forall g b, collision_step (f g b) g) ->
  forall (l : list B) (g : Game.t), collision_step (fold_left f l g) g.
Proof.
  intros Hf l. induction l as [|b l IH]; intros g; simpl.
  - apply collision_step_refl.
  - eapply collision_step_trans; [apply IH | apply Hf].
Qed.

Lemma bullet_hit_step (b e : nat) (g : Game.t) :
  collision_step (Game.bullet_hit b e g) g.
Proof.
  unfold Game.bullet_hit.
  destruct (Rect.colliderect _ _); [|apply collision_step_refl].
  set (f := fun s : Sprite => set_health _ s).
  assert (H1 : collision_step (Game.kill b (Game.modify e f g)) g).
  { split; [reflexivity|]. split.
    - intros i. change (Game.store (Game.kill b (Game.modify e f g)))
        with (Game.store (Game.modify e f g)).
      rewrite modify_lookup. destruct (Nat.eqb e i); [|reflexivity].
      destruct (Game.store g !! i); reflexivity.
    - eapply groups_thinned_trans; [apply kill_thinned|].
      apply groups_thinned_same; reflexivity. }
  destruct (_ <=? _)%num; [|exact H1].
  destruct (Random.random _) as [r rng].
  eapply collision_step_trans; [|exact H1].
  match goal with
  | |- collision_step (if ?c then _ else _) _ => destruct c
  end.
  - split; [reflexivity|]. split; [apply same_motion_refl|].
    eapply groups_thinned_trans;
      [|apply (kill_thinned e (Game.kill b (Game.modify e f g)))].
    apply groups_thinned_same; reflexivity.
  - split; [reflexivity|]. split; [apply same_motion_refl|].
    eapply groups_thinned_trans;
      [|apply (kill_thinned e (Game.kill b (Game.modify e f g)))].
    apply groups_thinned_same; reflexivity.
Qed.

Lemma bullet_enemy_collisions_step (g : Game.t) :
  collision_step (Game.bullet_enemy_collisions g) g.
Proof.
  unfold Game.bullet_enemy_collisions. apply fold_collision_step.
  intros g0 b. unfold Game.bullet_pass.
  apply (fold_collision_step (fun g1 e => Game.bullet_hit b e g1)).
  intros g1 e. apply bullet_hit_step.
Qed.

Lemma player_enemy_collisions_step (g : Game.t) :
  collision_step (Game.player_enemy_collisions g) g.
Proof.
  unfold Game.player_enemy_collisions.
  destruct (negb _); [|apply collision_step_refl].
  unfold Game.spritecollide_kill. set (hits := List.filter _ _).
  set (g1 := fold_left (fun g e => Game.kill e g) hits g).
  destruct (fold_player_hit_spec hits g1)
    as (_ & He & Ha & Hst & _ & Hl & _).
  assert (H1 : collision_step g1 g).
  { unfold g1. apply fold_collision_step. intros g0 e.
    split; [reflexivity|]. split; [apply same_motion_refl|].
    apply kill_thinned. }
  eapply collision_step_trans; [|exact H1].
  cbv zeta in *. split; [exact Hl|]. split.
  - rewrite Hst. apply same_motion_refl.
  - apply groups_thinned_same; auto.
    apply (fold_left_preserves (fun g => Player.bullets (Game.player g))).
    intros a b. unfold Game.player_hit. split_tests; try reflexivity.
    now destruct (game_over_frame
                    (Game.set_player
                       (Player.set_health (Player.health (Game.player a) - 20)
                                          (Game.player a)) a))
      as (_ & _ & _ & _ & ->).
Qed.

Lemma collisions_step (g g' : Game.t) :
  Game.collisions g = Some g' -> collision_step g' g.
Proof.
  intros Hc. destruct (collisions_total g) as (qt & Hq).
  rewrite Hq in Hc. injection Hc as <-.
  eapply collision_step_trans; [apply player_enemy_collisions_step|].
  eapply collision_step_trans; [apply bullet_enemy_collisions_step|].
  split; [reflexivity|]. split; [apply same_motion_refl|].
  apply groups_thinned_same; reflexivity.
Qed.

(** ** Each boss is updated twice in a tick *)

Lemma spawn_loop_enemies_fresh (n : nat) :
  forall (i : Z) (g : Game.t) (x : nat),
  In x (Game.enemies (Game.spawn_loop i n g)) ->
  In x (Game.enemies g) \/ (length (Game.store g) <= x)%nat.
Proof.
  induction n as [|n IH]; intros i g x Hx; simpl in Hx; [tauto|].
  destruct (spawn_one_spec i g) as (s & Hst & _ & Hen & _).
  destruct (IH _ _ _ Hx) as [Hx'|Hx'].
  - rewrite Hen in Hx'. apply group_add_In in Hx'.
    destruct Hx' as [?| ->]; [tauto | right; lia].
  - right. rewrite Hst, length_app in Hx'. simpl in Hx'. lia.
Qed.

Lemma level_complete_enemies_fresh (g : Game.t) (x : nat) :
  In x (Game.enemies (Game.level_complete g)) ->
  In x (Game.enemies g) \/ (length (Game.store g) <= x)%nat.
Proof.
  unfold Game.level_complete.
  set (ga := Game.set_player _ (Game.set_level _ g)).
  set (gb := if Game.level ga mod 3 =? 0 then _ else ga).
  assert (Hb : Game.enemies gb = Game.enemies g
               /\ length (Game.store gb) = length (Game.store g)).
  { unfold gb. destruct (_ =? 0); [|split; reflexivity].
    destruct (fold_modify_frame
                (fun s => set_speed (speed s * Flt 1.1)%num s)
                (Game.enemies ga) ga)
      as (_ & _ & _ & _ & _ & He & _ & _ & _ & Hlen).
    split; [exact He | exact Hlen]. }
  destruct Hb as [Hbe Hbl]. clearbody gb. clearbody ga.
  set (gc := if Game.level gb mod 5 =? 0 then _ else Game.spawn_enemies gb).
  assert (Hc : In x (Game.enemies gc) ->
               In x (Game.enemies g) \/ (length (Game.store g) <= x)%nat).
  { unfold gc. rewrite <- Hbe, <- Hbl.
    destruct (Game.level gb mod 5 =? 0).
    - destruct (StoryManager.advance_story _) as [sm more]. destruct more.
      + simpl. tauto.
      + intros Hx. unfold Game.spawn_enemies in Hx.
        apply spawn_loop_enemies_fresh in Hx. exact Hx.
    - intros Hx. unfold Game.spawn_enemies in Hx.
      apply spawn_loop_enemies_fresh in Hx. exact Hx. }
  clearbody gc. destruct (_ >? 15); [|exact Hc].
  destruct (victory_frame gc) as (-> & _). exact Hc.
Qed.

Lemma Player_update_bullets (keys : Keys) (p : Player.t) :
  Player.bullets (Player.update keys p) = Player.bullets p.
Proof.
  unfold Player.update.
  repeat match goal with
         | |- context [if ?b then _ else _] => destruct b
         end; reflexivity.
Qed.

Lemma same_motion_lookup (st' st : list Sprite) (i : nat) (s : Sprite) :
  same_motion st' st -> st !! i = Some s ->
  exists h, st' !! i = Some (set_health h s).
Proof.
  intros Hm Hs. specialize (Hm i). rewrite Hs in Hm.
  destruct (st' !! i) as [s'|]; [|discriminate].
  assert (Hm' : motion s' = motion s) by (simpl in Hm; congruence).
  exists (health s'). f_equal. now apply motion_eq.
Qed.

Lemma Boss_update_is_boss `{Libm} (s : Sprite) :
  is_boss (fst (Boss.update s)) = true.
Proof.
  unfold Boss.update.
  destruct (if pattern (Boss.state s) =? 0 then _ else _) as [[r p] pt].
  reflexivity.
Qed.

Lemma boss_updated_twice `{Libm} (keys : Keys) (now : Z) (g g' : Game.t)
    (i : nat) (s : Sprite) :
  Game.state g = GameState.GAME ->
  Game.run_update keys now g = Some g' ->
  List.NoDup (Game.all_sprites g) ->
  List.NoDup (Game.enemies g) ->
  In i (Game.all_sprites g) ->
  ~ In i (Player.bullets (Game.player g)) ->
  Game.store g !! i = Some s ->
  is_boss s = true ->
  In i (Game.enemies g') ->
  exists h,
    Game.store g' !! i
    = Some (set_health h (fst (Boss.update (fst (Boss.update s))))).
Proof.
  intros Hstate Hu Hnda Hnde Hia Hib Hs Hboss Hi'.
  assert (Hlt := lookup_lt_Some _ _ _ Hs).
  unfold Game.run_update in Hu. rewrite Hstate in Hu. cbn [GameState.eqb] in Hu.
  (* shoot *)
  set (g1 := if K_SPACE keys then _ else g) in Hu.
  assert (H1 : Game.store g1 !! i = Some s
               /\ Game.all_sprites g1 = Game.all_sprites g
               /\ Game.enemies g1 = Game.enemies g
               /\ ~ In i (Player.bullets (Game.player g1))).
  { unfold g1. destruct (K_SPACE keys); [|auto].
    unfold Player.shoot. destruct (_ >? _)%num; [|auto].
    cbn [alloc Game.store Game.set_store Game.set_player Game.player
         Game.all_sprites Game.enemies Player.bullets Player.set_bullets
         Player.set_last_shot].
    repeat apply conj; auto.
    - now apply lookup_app_l_Some.
    - intros Hin. apply group_add_In in Hin. destruct Hin as [? | ->]; [tauto | lia]. }
  destruct H1 as (Hs1 & Ha1 & He1 & Hb1). clearbody g1.
  (* all_sprites.update() *)
  unfold Game.all_sprites_update in Hu.
  set (g1p := Game.set_player (Player.update keys (Game.player g1)) g1) in Hu.
  destruct (fold_update_sprite_store (Game.all_sprites g1p) g1p)
    as (_ & _ & Hin2 & Hthin2).
  set (g2 := fold_left Game.update_sprite (Game.all_sprites g1p) g1p) in *.
  assert (Hs2 : Game.store g2 !! i = Some (fst (Boss.update s))).
  { apply Hin2; auto; change (Game.all_sprites g1p) with (Game.all_sprites g1);
      rewrite Ha1; assumption. }
  destruct Hthin2 as (Hte2 & _ & Htb2).
  change (Game.enemies g1p) with (Game.enemies g1) in Hte2.
  change (Player.bullets (Game.player g1p))
    with (Player.bullets (Player.update keys (Game.player g1))) in Htb2.
  rewrite Player_update_bullets in Htb2.
  assert (Hb2 : ~ In i (Player.bullets (Game.player g2))).
  { intros Hin. apply Hb1. eapply thinned_In; eassumption. }
  clearbody g2. clear Hin2.
  (* player.bullets.update() *)
  unfold Game.bullets_update in Hu.
  destruct (fold_update_sprite_store (Player.bullets (Game.player g2)) g2)
    as (_ & Hout3 & _ & Hthin3).
  set (g3 := fold_left Game.update_sprite _ g2) in *.
  assert (Hs3 : Game.store g3 !! i = Some (fst (Boss.update s))).
  { rewrite Hout3 by exact Hb2. exact Hs2. }
  destruct Hthin3 as (Hte3 & _ & _). clearbody g3.
  (* check_collisions() *)
  destruct (Game.check_collisions g3) as [g5|] eqn:Hcc; [|discriminate].
  injection Hu as <-.
  unfold Game.check_collisions in Hcc.
  destruct (Game.collisions g3) as [g4|] eqn:Hcol; [|discriminate].
  injection Hcc as <-.
  destruct (collisions_step _ _ Hcol) as (_ & Hm4 & Hte4 & _).
  destruct (same_motion_lookup _ _ _ _ Hm4 Hs3) as (h & Hs4).
  assert (Hlt4 := lookup_lt_Some _ _ _ Hs4).
  assert (Hnd4 : List.NoDup (Game.enemies g4)).
  { eapply thinned_NoDup; [exact Hte4|].
    eapply thinned_NoDup; [exact Hte3|].
    eapply thinned_NoDup; [exact Hte2|]. now rewrite He1. }
  (* the boss-attack loop *)
  unfold Game.boss_attacks in Hi' |- *.
  assert (Hcheck : Game.level_completion_check g4 = g4
                   /\ In i (Game.enemies g4)).
  { revert Hi'. unfold Game.level_completion_check.
    destruct (Nat.eqb_spec (length (Game.enemies g4)) 0) as [E|E]; intros Hi'.
    - exfalso. apply length_zero_iff_nil in E.
      destruct (fold_boss_attack_store (Game.enemies (Game.level_complete g4))
                                       (Game.level_complete g4))
        as (_ & _ & _ & Hen).
      destruct (level_complete_spec g4) as (_ & _ & _ & _ & Hy & Hn & _).
      assert (Hlen : (length (Game.store g4)
                      <= length (Game.store (Game.level_complete g4)))%nat).
      { cbv zeta in Hy, Hn.
        destruct ((_ =? 0) && _).
        - destruct (Hy eq_refl) as (_ & -> & _). lia.
        - destruct (Hn eq_refl) as (-> & _). lia. }
      destruct (Hen i Hi') as [Hx|Hx]; [|lia].
      apply level_complete_enemies_fresh in Hx. rewrite E in Hx.
      simpl in Hx. destruct Hx; [tauto|lia].
    - split; [reflexivity|].
      destruct (fold_boss_attack_store (Game.enemies g4) g4)
        as (_ & _ & _ & Hen).
      destruct (Hen i Hi') as [Hx|Hx]; [exact Hx|lia]. }
  destruct Hcheck as [-> Hi4].
  destruct (fold_boss_attack_store (Game.enemies g4) g4) as (_ & _ & Hin5 & _).
  rewrite (Hin5 i _ Hnd4 Hi4 Hs4 (Boss_update_is_boss s)).
  rewrite Boss_update_set_health. simpl. eauto.
Qed.

(** ** Timers *)

Lemma Player_update_shield (keys : Keys) (p : Player.t) :
  (Player.shield_active (Player.update keys p),
   Player.shield_timer (Player.update keys p),
   Player.shield_duration (Player.update keys p))
  = shield_step (Player.shield_active p, Player.shield_timer p,
                 Player.shield_duration p).
Proof.
  unfold Player.update, shield_step.
  repeat match goal with
         | |- context [if ?b then _ else _] => destruct b eqn:?
         end; simpl in *; congruence.
Qed.

Lemma update_sprite_shield `{Libm} (g : Game.t) (j : nat) :
  shield_of (Game.update_sprite g j) = shield_of g.
Proof. unfold Game.update_sprite. split_tests; reflexivity. Qed.

Lemma boss_attack_shield `{Libm} (g : Game.t) (j : nat) :
  shield_of (Game.boss_attack g j) = shield_of g.
Proof. unfold Game.boss_attack. split_tests; reflexivity. Qed.

Lemma bullet_hit_shield (b e : nat) (g : Game.t) :
  shield_of (Game.bullet_hit b e g) = shield_of g.
Proof. unfold Game.bullet_hit. split_tests; reflexivity. Qed.

Lemma player_hit_shield (g : Game.t) (h : nat) :
  shield_of (Game.player_hit g h) = shield_of g.
Proof.
  unfold Game.player_hit, Game.game_over. split_tests; reflexivity.
Qed.

Lemma level_complete_shield (g : Game.t) :
  shield_of (Game.level_complete g) = shield_of g.
Proof.
  unfold Game.level_complete.
  set (ga := Game.set_player _ (Game.set_level _ g)).
  assert (Ha : shield_of ga = shield_of g) by reflexivity.
  set (gb := if Game.level ga mod 3 =? 0 then _ else ga).
  assert (Hb : shield_of gb = shield_of g).
  { unfold gb. destruct (_ =? 0); [|exact Ha].
    destruct (fold_modify_frame
                (fun s => set_speed (speed s * Flt 1.1)%num s)
                (Game.enemies ga) ga) as (_ & _ & _ & _ & Hp & _).
    unfold shield_of. cbv zeta in Hp. now rewrite Hp. }
  clearbody gb. clear Ha. clearbody ga.
  assert (Hspawn : forall g0, shield_of (Game.spawn_enemies g0) = shield_of g0).
  { intros g0. destruct (spawn_enemies_spec g0) as (_ & _ & _ & _ & _ & Hp & _).
    unfold shield_of. cbv zeta in Hp. now rewrite Hp. }
  set (gc := if Game.level gb mod 5 =? 0 then _ else Game.spawn_enemies gb).
  assert (Hc : shield_of gc = shield_of g).
  { unfold gc. destruct (Game.level gb mod 5 =? 0).
    - destruct (StoryManager.advance_story _) as [sm more]. destruct more.
      + exact Hb.
      + now rewrite Hspawn.
    - now rewrite Hspawn. }
  clearbody gc. destruct (_ >? 15); [|exact Hc].
  destruct (victory_frame gc) as (_ & _ & _ & _ & Hp & _).
  unfold shield_of in *. now rewrite Hp.
Qed.

Lemma check_collisions_shield (g g' : Game.t) :
  Game.check_collisions g = Some g' -> shield_of g' = shield_of g.
Proof.
  intros Hcc. unfold Game.check_collisions in Hcc.
  destruct (collisions_total g) as (qt & Hq). rewrite Hq in Hcc.
  injection Hcc as <-.
  assert (H1 : shield_of (Game.bullet_enemy_collisions (Game.set_quadtree qt g))
               = shield_of g).
  { unfold Game.bullet_enemy_collisions.
    rewrite (fold_left_preserves shield_of); [reflexivity|].
    intros a b. unfold Game.bullet_pass.
    apply (fold_left_preserves shield_of (fun g1 e => Game.bullet_hit b e g1)).
    intros g1 e. apply bullet_hit_shield. }
  assert (H2 : forall g0, shield_of (Game.player_enemy_collisions g0)
                          = shield_of g0).
  { intros g0. unfold Game.player_enemy_collisions.
    destruct (negb _); [|reflexivity]. unfold Game.spritecollide_kill.
    rewrite (fold_left_preserves shield_of) by apply player_hit_shield.
    apply (fold_left_preserves shield_of). reflexivity. }
  unfold Game.level_completion_check.
  destruct (_ =? _)%nat; rewrite ?level_complete_shield, H2; exact H1.
Qed.

(** The shield after one update of a running game: one [shield_step],
    whatever the keys and the clock. *)
Lemma update_shield `{Libm} (keys : Keys) (now : Z) (g g' : Game.t) :
  Game.state g = GameState.GAME ->
  Game.run_update keys now g = Some g' ->
  shield_of g' = shield_step (shield_of g).
Proof.
  intros Hstate Hu. unfold Game.run_update in Hu. rewrite Hstate in Hu.
  cbn [GameState.eqb] in Hu.
  set (g1 := if K_SPACE keys then _ else g) in Hu.
  assert (H1 : shield_of g1 = shield_of g).
  { unfold g1. destruct (K_SPACE keys); [|reflexivity].
    unfold Player.shoot. destruct (_ >? _)%num; reflexivity. }
  clearbody g1.
  destruct (Game.check_collisions _) as [g3|] eqn:Hcc; [|discriminate].
  injection Hu as <-.
  unfold Game.boss_attacks.
  rewrite (fold_left_preserves shield_of) by apply boss_attack_shield.
  rewrite (check_collisions_shield _ _ Hcc).
  unfold Game.bullets_update.
  rewrite (fold_left_preserves shield_of) by apply update_sprite_shield.
  unfold Game.all_sprites_update.
  rewrite (fold_left_preserves shield_of) by apply update_sprite_shield.
  unfold shield_of at 1. cbn [Game.player Game.set_player].
  rewrite Player_update_shield. now rewrite <- H1.
Qed.

Lemma Boss_update_timers `{Libm} (s : Sprite) :
  let b := Boss.state s in
  let b' := Boss.state (fst (Boss.update s)) in
  let fire := (attack_timer b + tick_ms >=? Int (attack_delay b))%num in
  snd (Boss.update s) = fire
  /\ attack_timer b'
     = (if fire then Int 0 else (attack_timer b + tick_ms)%num)
  /\ attack_delay b' = attack_delay b
  /\ pattern_timer b'
     = (if switches_pattern b then 0 else pattern_timer b + 1).
Proof.
  unfold Boss.update, switches_pattern. cbv zeta.
  destruct (pattern (Boss.state s) =? 0) eqn:E0.
  - apply Z.eqb_eq in E0. rewrite E0. simpl. auto.
  - destruct (pattern (Boss.state s) =? 1) eqn:E1.
    + apply Z.eqb_eq in E1. rewrite E1. simpl.
      destruct (_ >? 200); simpl; auto.
    + destruct (pattern (Boss.state s) =? 2) eqn:E2.
      * simpl. destruct (_ >? 300); simpl; auto.
      * simpl. auto.
Qed.

(** ** Bullets that fly downward *)

Lemma downward_bullet_update (s : Sprite) (v : Z) :
  speed s = Int v -> v <= 0 -> 0 <= Rect.bottom (rect s) ->
  snd (Bullet.update s) = false
  /\ speed (fst (Bullet.update s)) = Int v
  /\ Rect.top (rect (fst (Bullet.update s))) = Rect.top (rect s) - v
  /\ 0 <= Rect.bottom (rect (fst (Bullet.update s))).
Proof.
  intros Hv Hle Hb. unfold Bullet.update. rewrite Hv.
  unfold Rect.bottom, Rect.top in *. simpl.
  repeat apply conj; auto; lia.
Qed.

Lemma downward_bullet_iterate (n : nat) :
  forall (s : Sprite) (v : Z),
  speed s = Int v -> v <= 0 -> 0 <= Rect.bottom (rect s) ->
  let s' := iterate (fun s => fst (Bullet.update s)) n s in
  snd (Bullet.update s') = false
  /\ Rect.top (rect s') = Rect.top (rect s) - Z.of_nat n * v.
Proof.
  induction n as [|n IH]; intros s v Hv Hle Hb.
  - simpl. destruct (downward_bullet_update s v Hv Hle Hb) as (Hk & _).
    split; [exact Hk | lia].
  - destruct (downward_bullet_update s v Hv Hle Hb) as (_ & Hv' & Ht & Hb').
    destruct (IH _ v Hv' Hle Hb') as (Hk & Ht').
    cbn [iterate]. cbv zeta in *. split; [exact Hk|]. rewrite Ht', Ht. lia.
Qed.

(** ** Events and rendering *)

Lemma new_game_spec (now : Z) (g : Game.t) :
  Game.state (Game.new_game now g) = GameState.STORY
  /\ Game.high_score (Game.new_game now g) = Game.high_score g.
Proof.
  unfold Game.new_game.
  match goal with
  | |- context [Game.spawn_enemies ?x] =>
      destruct (spawn_enemies_spec x) as (_ & _ & Hs & _ & Hh & _)
  end.
  cbv zeta in *. rewrite Hs, Hh. split; reflexivity.
Qed.

Lemma handle_event_high_score (now : Z) (e : Game.Event) (g : Game.t) :
  Game.high_score (fst (Game.run_event now e g)) = Game.high_score g
  /\ (Game.over_or_victory (Game.state g) = false ->
      Game.over_or_victory (Game.state (fst (Game.run_event now e g)))
      = false).
Proof.
  destruct e as [|key|]; simpl; auto.
  unfold Game.run_keydown.
  pose proof (fun g0 => new_game_spec now g0) as Hnew.
  repeat match goal with
         | |- context [if ?b then _ else _] => destruct b eqn:?
         | |- context [match ?k with Game.Key_1 => _ | _ => _ end] =>
             destruct k
         | |- context [Player.shoot ?a ?b ?c] =>
             destruct (Player.shoot a b c) as [[? ?] ?]
         end;
    cbn [fst]; try (split; [reflexivity | auto]);
    try (destruct (Hnew g) as [-> ->]; split; auto);
    try match goal with
        | |- context [Game.new_game now ?x] =>
            destruct (Hnew x) as [-> ->]; split; auto
        end;
    discriminate.
Qed.

Lemma events_high_score (events : list (Z * Game.Event)) :
  forall (g : Game.t) (running : bool),
  let r :=
    fold_left
      (fun '(g, running) '(now, e) =>
         let '(g, r) := Game.run_event now e g in (g, running && r))
      events (g, running) in
  Game.high_score (fst r) = Game.high_score g
  /\ (Game.over_or_victory (Game.state g) = false ->
      Game.over_or_victory (Game.state (fst r)) = false).
Proof.
  induction events as [|[now e] events IH]; intros g running; simpl; auto.
  destruct (handle_event_high_score now e g) as [Hh Ho].
  destruct (Game.run_event now e g) as [g1 r1]. simpl in Hh, Ho.
  destruct (IH g1 (running && r1)) as [Hh' Ho'].
  cbv zeta in *. rewrite Hh', Hh. split; auto.
Qed.

Lemma render_spec (g : Game.t) :
  Game.score (Game.run_render g) = Game.score g
  /\ Game.high_score (Game.run_render g) = Game.high_score g
  /\ (Game.over_or_victory (Game.state (Game.run_render g)) = true ->
      Game.state (Game.run_render g) = Game.state g).
Proof.
  unfold Game.run_render. destruct (_ && _); simpl; auto.
  repeat apply conj; auto. discriminate.
Qed.

Lemma frame_high_score `{Libm} (events : list (Z * Game.Event))
    (keys : Keys) (now : Z) (g g' : Game.t) (running : bool) :
  Game.run_frame events keys now g = Some (g', running) ->
  Game.over_or_victory (Game.state g) = false ->
  Game.over_or_victory (Game.state g') = true ->
  Game.high_score g' = Z.max (Game.score g') (Game.high_score g).
Proof.
  intros Hf Ho Ho'. unfold Game.run_frame in Hf.
  destruct (events_high_score events g true) as [Hh1 Ho1].
  destruct (fold_left _ events (g, true)) as [g1 r1]. simpl in Hh1, Ho1.
  destruct (Game.run_update keys now g1) as [g2|] eqn:Hu; [|discriminate].
  injection Hf as <- <-.
  destruct (render_spec g2) as (Hs & Hh & Hst).
  rewrite Hst in Ho' by exact Ho'.
  destruct (update_high_score_ok keys now g1 g2 (Ho1 Ho) Hu) as [[Hn _]|Hm].
  - congruence.
  - rewrite Hs, Hh, Hm, Hh1. reflexivity.
Qed.

Lemma frame_total `{Libm} (events : list (Z * Game.Event)) (keys : Keys)
    (now : Z) (g : Game.t) :
  exists g' running, Game.run_frame events keys now g = Some (g', running).
Proof.
  unfold Game.run_frame.
  destruct (fold_left _ events (g, true)) as [g1 r1].
  destruct (update_total keys now g1) as (g2 & ->). eauto.
Qed.

(** ** The fire-rate gate *)

Lemma shoot_gate (now : Z) (p : Player.t) (st : list Sprite) :
  let fires :=
    (Int (now - Player.last_shot p)
     >? Int (Player.shoot_delay p) / Player.u_fire_rate (Player.upgrades p))%num in
  fst (fst (Player.shoot now p st))
  = (if fires then Some (length st) else None)
  /\ Player.last_shot (snd (fst (Player.shoot now p st)))
     = (if fires then now else Player.last_shot p)
  /\ length (snd (Player.shoot now p st))
     = (if fires then S (length st) else length st).
Proof.
  unfold Player.shoot. cbv zeta. destruct (_ >? _)%num; simpl; auto.
  repeat apply conj; auto. rewrite length_app. simpl. lia.
Qed.

(** ** Supporting facts for the claims the code breaks *)

(** A registered hit takes exactly the bullet's damage from the enemy's
    health (the part of C1 that holds). *)
Lemma bullet_hit_takes_damage (b e : nat) (g : Game.t) (s : Sprite) :
  Game.store g !! e = Some s ->
  Rect.colliderect (Game.rect_of g b) (Game.rect_of g e) = true ->
  Game.store (Game.bullet_hit b e g) !! e
  = Some (set_health (health s - Bullet.damage (deref (Game.store g) b))%num s).
Proof.
  intros Hs Hc. unfold Game.bullet_hit. rewrite Hc.
  set (f := fun s0 : Sprite => set_health _ s0).
  assert (E : Game.store (Game.modify e f g) !! e = Some (f s)).
  { rewrite modify_lookup, Nat.eqb_refl, Hs. reflexivity. }
  destruct (_ <=? _)%num; [|exact E].
  destruct (Random.random _) as [r rng].
  match goal with
  | |- context [if ?c then _ else _] => destruct c
  end; exact E.
Qed.

(** What [query] does guarantee (the part of C3 that holds): it only adds
    to [found], and what it adds is stored in the tree and overlaps the
    query rectangle. *)
Lemma query_spec (rect_of : nat -> Rect.t) (rect : Rect.t) (t : QuadTree.t) :
  forall found : list nat,
  exists more,
    QuadTree.query rect_of t rect found = found ++ more
    /\ forall obj, In obj more ->
         In obj (QuadTree.contents t)
         /\ Rect.colliderect rect (rect_of obj) = true.
Proof.
  induction t as [b c o | b c o nw IHnw ne IHne sw IHsw se IHse];
    intros found; cbn [QuadTree.query].
  - destruct (negb _).
    + exists []. rewrite app_nil_r. split; [reflexivity | intros ? []].
    + eexists. split; [reflexivity|]. intros obj Hin.
      apply List.filter_In in Hin. exact Hin.
  - destruct (negb _).
    + exists []. rewrite app_nil_r. split; [reflexivity | intros ? []].
    + cbn [QuadTree.objects].
      set (here := List.filter _ o).
      destruct (IHnw (found ++ here)) as (m1 & -> & H1).
      destruct (IHne ((found ++ here) ++ m1)) as (m2 & -> & H2).
      destruct (IHsw (((found ++ here) ++ m1) ++ m2)) as (m3 & -> & H3).
      destruct (IHse ((((found ++ here) ++ m1) ++ m2) ++ m3)) as (m4 & -> & H4).
      exists (here ++ m1 ++ m2 ++ m3 ++ m4). split.
      * now rewrite <- !app_assoc.
      * intros obj Hin. cbn [QuadTree.contents].
        rewrite !List.in_app_iff in Hin. rewrite !List.in_app_iff.
        destruct Hin as [Hin|[Hin|[Hin|[Hin|Hin]]]].
        -- apply List.filter_In in Hin. tauto.
        -- destruct (H1 _ Hin). tauto.
        -- destruct (H2 _ Hin). tauto.
        -- destruct (H3 _ Hin). tauto.
        -- destruct (H4 _ Hin). tauto.
Qed.

(** An upward bullet is destroyed by the update that takes its bottom
    edge above the screen (the part of C4 that holds). *)
Lemma upward_bullet_update (s : Sprite) :
  speed s = Int Config.BULLET_SPEED ->
  snd (Bullet.update s) = (Rect.bottom (rect s) - 10 <? 0)
  /\ Rect.top (rect (fst (Bullet.update s))) = Rect.top (rect s) - 10.
Proof.
  intros Hv. unfold Bullet.update. rewrite Hv.
  unfold Rect.bottom, Rect.top, Config.BULLET_SPEED. simpl.
  split; [f_equal; lia | reflexivity].
Qed.

(** Without a speed upgrade the guards of [Player.update] do keep the
    player on the screen (the case of C2 that holds): the invariant is
    kept by every update, whatever keys are held. *)
Lemma Player_update_on_grid (keys : Keys) (p : Player.t) :
  on_grid_in_bounds p -> on_grid_in_bounds (Player.update keys p).
Proof.
  assert (Hmove : forall (q : Player.t) (r : Rect.t),
            on_grid_in_bounds q ->
            Rect.w r = 50 -> Rect.h r = 40 ->
            (exists k, Rect.x r = 5 * k) -> (exists k, Rect.y r = 5 * k) ->
            0 <= Rect.x r <= 750 -> 0 <= Rect.y r <= 560 ->
            on_grid_in_bounds (Player.set_rect r q)).
  { intros q r (Hsp & Hu & _) Hw Hh Hx Hy Hxb Hyb.
    unfold on_grid_in_bounds, Rect.left, Rect.right, Rect.top, Rect.bottom,
      Config.SCREEN_WIDTH, Config.SCREEN_HEIGHT.
    cbn [Player.rect Player.set_rect Player.speed Player.upgrades].
    repeat apply conj; auto; lia. }
  assert (Hstep : forall q, on_grid_in_bounds q -> Player.step q = Int 5).
  { intros q (Hsp & Hu & _). unfold Player.step. now rewrite Hsp, Hu. }
  assert (HL : forall q, on_grid_in_bounds q ->
            on_grid_in_bounds
              (if K_LEFT keys && (Rect.left (Player.rect q) >? 0)
               then Player.set_rect
                      (Rect.set_x (to_int (Int (Rect.x (Player.rect q))
                                           - Player.step q)%num)
                                  (Player.rect q)) q
               else q)).
  { intros q Hq. destruct (K_LEFT keys); [|exact Hq]. cbn [andb].
    destruct (Z.gtb_spec (Rect.left (Player.rect q)) 0) as [Hg|_]; [|exact Hq].
    rewrite (Hstep q Hq). pose proof Hq as Hq'.
    destruct Hq' as (_ & _ & Hw & Hh & (kx & Hx) & Hy & Hl & Hr & Ht & Hb).
    unfold Rect.left, Rect.right, Rect.top, Rect.bottom,
      Config.SCREEN_WIDTH, Config.SCREEN_HEIGHT in *.
    apply Hmove; auto; cbn [Rect.set_x Rect.x Rect.y Rect.w Rect.h num_sub to_int];
      try lia. exists (kx - 1). lia. }
  assert (HR : forall q, on_grid_in_bounds q ->
            on_grid_in_bounds
              (if K_RIGHT keys
                  && (Rect.right (Player.rect q) <? Config.SCREEN_WIDTH)
               then Player.set_rect
                      (Rect.set_x (to_int (Int (Rect.x (Player.rect q))
                                           + Player.step q)%num)
                                  (Player.rect q)) q
               else q)).
  { intros q Hq. destruct (K_RIGHT keys); [|exact Hq]. cbn [andb].
    destruct (Z.ltb_spec (Rect.right (Player.rect q)) Config.SCREEN_WIDTH)
      as [Hg|_]; [|exact Hq].
    rewrite (Hstep q Hq). pose proof Hq as Hq'.
    destruct Hq' as (_ & _ & Hw & Hh & (kx & Hx) & Hy & Hl & Hr & Ht & Hb).
    unfold Rect.left, Rect.right, Rect.top, Rect.bottom,
      Config.SCREEN_WIDTH, Config.SCREEN_HEIGHT in *.
    apply Hmove; auto; cbn [Rect.set_x Rect.x Rect.y Rect.w Rect.h num_add to_int];
      try lia. exists (kx + 1). lia. }
  assert (HU : forall q, on_grid_in_bounds q ->
            on_grid_in_bounds
              (if K_UP keys && (Rect.top (Player.rect q) >? 0)
               then Player.set_rect
                      (Rect.set_y (to_int (Int (Rect.y (Player.rect q))
                                           - Player.step q)%num)
                                  (Player.rect q)) q
               else q)).
  { intros q Hq. destruct (K_UP keys); [|exact Hq]. cbn [andb].
    destruct (Z.gtb_spec (Rect.top (Player.rect q)) 0) as [Hg|_]; [|exact Hq].
    rewrite (Hstep q Hq). pose proof Hq as Hq'.
    destruct Hq' as (_ & _ & Hw & Hh & Hx & (ky & Hy) & Hl & Hr & Ht & Hb).
    unfold Rect.left, Rect.right, Rect.top, Rect.bottom,
      Config.SCREEN_WIDTH, Config.SCREEN_HEIGHT in *.
    apply Hmove; auto; cbn [Rect.set_y Rect.x Rect.y Rect.w Rect.h num_sub to_int];
      try lia. exists (ky - 1). lia. }
  assert (HD : forall q, on_grid_in_bounds q ->
            on_grid_in_bounds
              (if K_DOWN keys
                  && (Rect.bottom (Player.rect q) <? Config.SCREEN_HEIGHT)
               then Player.set_rect
                      (Rect.set_y (to_int (Int (Rect.y (Player.rect q))
                                           + Player.step q)%num)
                                  (Player.rect q)) q
               else q)).
  { intros q Hq. destruct (K_DOWN keys); [|exact Hq]. cbn [andb].
    destruct (Z.ltb_spec (Rect.bottom (Player.rect q)) Config.SCREEN_HEIGHT)
      as [Hg|_]; [|exact Hq].
    rewrite (Hstep q Hq). pose proof Hq as Hq'.
    destruct Hq' as (_ & _ & Hw & Hh & Hx & (ky & Hy) & Hl & Hr & Ht & Hb).
    unfold Rect.left, Rect.right, Rect.top, Rect.bottom,
      Config.SCREEN_WIDTH, Config.SCREEN_HEIGHT in *.
    apply Hmove; auto; cbn [Rect.set_y Rect.x Rect.y Rect.w Rect.h num_add to_int];
      try lia. exists (ky + 1). lia. }
  intros Hp. unfold Player.update. cbv zeta.
  match goal with
  | |- on_grid_in_bounds (if Player.shield_active ?q then _ else _) =>
      assert (Hq : on_grid_in_bounds q)
        by (apply HD, HU, HR, HL, Hp);
      set (q0 := q) in *; clearbody q0
  end.
  destruct (Player.shield_active q0); [|exact Hq].
  destruct (_ >=? _)%num; exact Hq.
Qed.

(** * The claims *)

(** C1 (the code breaks it). In [scene_two_bullets] two bullets of damage
    10 overlap the same enemy of health 1. Each hit takes exactly 10 from
    the enemy's health, but the quadtree built at the start of the pass
    still holds the enemy after the first bullet has killed it: the
    second bullet hits it again (health -19) and the 10 points are
    awarded twice (score 20 for one kill). *)
Theorem C1_same_enemy_scored_twice :
  let g := scene_two_bullets in
  (Game.score g = 0
   /\ health (deref (Game.store g) 0) = Int 1
   /\ is_boss (deref (Game.store g) 0) = false
   /\ Bullet.damage (deref (Game.store g) 2) = Int 10
   /\ Bullet.damage (deref (Game.store g) 3) = Int 10
   /\ Rect.colliderect (Game.rect_of g 2) (Game.rect_of g 0) = true
   /\ Rect.colliderect (Game.rect_of g 3) (Game.rect_of g 0) = true
   /\ Rect.colliderect (Game.rect_of g 2) (Game.rect_of g 1) = false
   /\ Rect.colliderect (Game.rect_of g 3) (Game.rect_of g 1) = false)
  /\ option_map
       (fun g' => (Game.score g', health (deref (Game.store g') 0),
                   Game.enemies g', Player.bullets (Game.player g')))
       (Game.check_collisions g)
     = Some (20, Int (-19), [1%nat], []).
Proof. vm_compute. repeat split. Qed.

(** C2 (the code breaks it). After one "speed" upgrade the player moves
    6 pixels a tick. Holding LEFT from the start position (x = 375) it
    reaches x = 3 after 62 updates; the guard [rect.left > 0] passes and
    the next update puts the rectangle at x = -3, outside the screen. *)
Theorem C2_player_leaves_screen_after_speed_upgrade :
  Player.rect upgraded_player = Rect.mk 375 550 50 40
  /\ Player.step upgraded_player = Flt 6
  /\ Rect.left (Player.rect (iterate (Player.update left_key) 62
                                     upgraded_player)) = 3
  /\ Rect.left (Player.rect (iterate (Player.update left_key) 63
                                     upgraded_player)) = -3.
Proof. vm_compute. repeat split. Qed.

(** C3 (the code breaks it). In [scene_straddle] the fifth enemy (rect
    390..430 x 100..140) is pushed into the north-west child (x up to
    400) although it reaches across x = 400. The bullet (420..425 x
    110..125) overlaps it, but lies east of the north-west child, so
    [query] never looks there: the enemy is in the tree, overlaps the
    query rectangle, and is not returned. The collision pass then leaves
    both untouched. *)
Theorem C3_query_misses_overlapping_enemy :
  let g := scene_straddle in
  Rect.colliderect (Game.rect_of g 5) (Game.rect_of g 4) = true
  /\ option_map
       (fun g' => (QuadTree.contents (Game.quadtree g'),
                   QuadTree.query (Game.rect_of g') (Game.quadtree g')
                                  (Game.rect_of g' 5) []))
       (Game.rebuild_quadtree g)
     = Some ([0; 1; 2; 3; 4]%nat, [])
  /\ option_map
       (fun g' => (health (deref (Game.store g') 4), Game.enemies g',
                   Player.bullets (Game.player g')))
       (Game.check_collisions g)
     = Some (Int 1, [0; 1; 2; 3; 4]%nat, [5]%nat).
Proof. vm_compute. repeat split. Qed.

(** C4 (the code breaks it). A bullet fired by a boss (speed -10) from a
    rectangle whose bottom is at [y >= 0] is never destroyed by its own
    [update]: after any number [n] of updates the next one still does not
    call [kill], while the bullet's top edge is at [y - 15 + 10 n], below
    the screen from [n = 62] on for every such [y]. *)
Theorem C4_downward_bullet_never_destroyed (x y : Z) (n : nat) :
  0 <= y ->
  let b := iterate (fun s => fst (Bullet.update s)) n (boss_bullet x y) in
  snd (Bullet.update b) = false
  /\ Rect.top (rect b) = y - 15 + 10 * Z.of_nat n.
Proof.
  intros Hy.
  destruct (downward_bullet_iterate n (boss_bullet x y) (-10))
    as [Hk Ht]; [reflexivity | lia | unfold Rect.bottom; cbn; lia |].
  cbv zeta in *. split; [exact Hk|]. rewrite Ht. unfold Rect.top. cbn. lia.
Qed.

Lemma C4_downward_bullet_never_destroyed_witness :
  0 <= 62
  /\ snd (Bullet.update
            (iterate (fun s => fst (Bullet.update s)) 60 (boss_bullet 380 62)))
     = false
  /\ Rect.top (rect (iterate (fun s => fst (Bullet.update s)) 60
                             (boss_bullet 380 62)))
     = 62 - 15 + 10 * Z.of_nat 60.
Proof.
  split; [lia|]. apply (C4_downward_bullet_never_destroyed 380 62 60). lia.
Defined.

(** In the game: a boss bullet below the screen stays in the [enemies]
    and [all_sprites] groups through an update, so the level cannot
    complete. *)
Example stray_bullet_stays :
  option_map
    (fun g' => (Game.enemies g', Game.all_sprites g',
                Rect.top (Game.rect_of g' 0), Game.level g'))
    (@Game.run_update sample_libm no_keys 0 scene_stray_bullet)
  = Some ([0; 1]%nat, [0; 1]%nat, 710, 1).
Proof. vm_compute. reflexivity. Qed.

(** C5, as the spec states it, fails: the fire-rate gate reads the
    wall clock. Two runs of one update from the same state, with the same
    keys held, differ in the bullets fired when only the clock samples
    differ (100 ms and 300 ms after the last shot). *)
Lemma C5_fire_gate_reads_the_clock :
  option_map (fun g' => Player.bullets (Game.player g'))
             (@Game.run_update sample_libm space_key 100 scene_idle)
  = Some []
  /\ option_map (fun g' => Player.bullets (Game.player g'))
                (@Game.run_update sample_libm space_key 300 scene_idle)
     = Some [1%nat].
Proof. vm_compute. split; reflexivity. Qed.

(** C5, amended. The shield timer and the boss attack timer are driven by
    tick durations: one update of a running game returns and applies
    one [shield_step] to the shield fields whatever the keys and the
    clock sample, and one [Boss.update] adds [1000 / FPS] to the attack timer,
    signalling and resetting it when it reaches the delay. The fire-rate
    gate is driven by the clock: [shoot] fires exactly when the sample
    [now] exceeds [last_shot] by more than [shoot_delay / fire_rate], and
    then stores [now]. *)
Theorem C5_timers_by_ticks_fire_gate_by_clock `{Libm} :
  (forall keys now g,
     Game.state g = GameState.GAME ->
     exists g',
       Game.run_update keys now g = Some g'
       /\ shield_of g' = shield_step (shield_of g))
  /\ (forall s,
        let b := Boss.state s in
        let fire := (attack_timer b + tick_ms >=? Int (attack_delay b))%num in
        snd (Boss.update s) = fire
        /\ attack_timer (Boss.state (fst (Boss.update s)))
           = (if fire then Int 0 else (attack_timer b + tick_ms)%num))
  /\ (forall now p st,
        let fires :=
          (Int (now - Player.last_shot p)
           >? Int (Player.shoot_delay p)
              / Player.u_fire_rate (Player.upgrades p))%num in
        fst (fst (Player.shoot now p st))
        = (if fires then Some (length st) else None)
        /\ Player.last_shot (snd (fst (Player.shoot now p st)))
           = (if fires then now else Player.last_shot p)).
Proof.
  repeat apply conj.
  - intros keys now g Hst.
    destruct (update_total keys now g) as (g' & Hu).
    exists g'. split; [exact Hu|]. now apply (update_shield keys now).
  - intros s. destruct (Boss_update_timers s) as (H1 & H2 & _). split; assumption.
  - intros now p st. destruct (shoot_gate now p st) as (H1 & H2 & _).
    split; assumption.
Qed.

Lemma C5_timers_by_ticks_fire_gate_by_clock_witness :
  exists g',
    @Game.run_update sample_libm space_key 300 scene_shielded = Some g'
    /\ shield_of g' = shield_step (shield_of scene_shielded).
Proof.
  apply (proj1 (@C5_timers_by_ticks_fire_gate_by_clock sample_libm)
           space_key 300 scene_shielded).
  reflexivity.
Defined.

(** The shield of 3000 ms lasts 181 updates, not 180: the sum of 180
    copies of [1000 / 60] in binary64 is just below 3000. *)
Example shield_lasts_181_ticks :
  fst (fst (iterate shield_step 180 (true, Int 0, 3000))) = true
  /\ fst (fst (iterate shield_step 181 (true, Int 0, 3000))) = false.
Proof. vm_compute. split; reflexivity. Qed.

(** C6. [check_collisions] always returns, its collision passes leave
    the level alone, and it ends with level completion exactly when the
    enemy group is empty after them. Level completion
    adds 1 to the level; restores 20 health, capped at [max_health];
    multiplies the speed of every enemy still in the group by 1.1 when
    the new level is a multiple of 3; when the new level is a multiple of
    5 advances the story and, if a chapter remains, goes to [STORY]
    without spawning, and otherwise spawns the wave of the new level;
    and whenever the new level exceeds 15 it ends in [VICTORY]. *)
Theorem C6_level_complete (g : Game.t) :
  let g' := Game.level_complete g in
  let lvl := Game.level g + 1 in
  let sm := Game.story_manager g in
  let diff := Difficulty.value (Game.difficulty g) in
  let to_story :=
    (lvl mod 5 =? 0)
    && (StoryManager.current_chapter sm + 1 <? Z.of_nat (StoryManager.chapters sm)) in
  (exists g1,
     Game.collisions g = Some g1
     /\ Game.level g1 = Game.level g
     /\ Game.check_collisions g
        = Some (if (length (Game.enemies g1) =? 0)%nat
                then Game.level_complete g1 else g1))
  /\ Game.level g' = lvl
  /\ Player.health (Game.player g')
     = Z.min (Player.max_health (Game.player g))
             (Player.health (Game.player g) + 20)
  /\ (forall i s, List.NoDup (Game.enemies g) -> In i (Game.enemies g) ->
        Game.store g !! i = Some s ->
        Game.store g' !! i
        = Some (if lvl mod 3 =? 0 then set_speed (speed s * Flt 1.1)%num s
                else s))
  /\ StoryManager.current_chapter (Game.story_manager g')
     = StoryManager.current_chapter sm + (if lvl mod 5 =? 0 then 1 else 0)
  /\ (to_story = true ->
      Game.enemies g' = Game.enemies g
      /\ length (Game.store g') = length (Game.store g)
      /\ (lvl <= 15 -> Game.state g' = GameState.STORY))
  /\ (to_story = false ->
      length (Game.store g')
      = (length (Game.store g) + Z.to_nat (d_enemies diff + lvl))%nat
      /\ (lvl <= 15 -> Game.state g' = Game.state g))
  /\ (15 < lvl -> Game.state g' = GameState.VICTORY).
Proof.
  intros g' lvl sm diff to_story. split; [|apply level_complete_spec].
  destruct (collisions_total g) as (qt & Hq). eexists. split; [exact Hq|].
  destruct (collisions_step g _ Hq) as (Hl & _).
  split; [exact Hl|]. unfold Game.check_collisions. rewrite Hq. reflexivity.
Qed.

Lemma C6_level_complete_witness :
  Game.level (Game.level_complete scene_level_2) = 3
  /\ Player.health (Game.player (Game.level_complete scene_level_2)) = 100
  /\ Game.store (Game.level_complete scene_level_2) !! 0%nat
     = Some (set_speed (Flt 2.2) (enemy_at Difficulty.EASY 600 50)).
Proof.
  destruct (C6_level_complete scene_level_2) as (_ & Hl & Hp & Hs & _).
  split; [exact Hl|]. split; [exact Hp|].
  apply (Hs 0%nat (enemy_at Difficulty.EASY 600 50)).
  - repeat constructor. simpl. tauto.
  - simpl. tauto.
  - reflexivity.
Defined.

(** C7. For every difficulty and level, [spawn_enemies] allocates exactly
    (the difficulty's base enemy count + the level) sprites and touches
    no older one; the sprite at position [j] of the wave is a [Boss]
    exactly when the level is a multiple of 5 and [j = 0]; a spawned
    [Boss] has health 50 times the difficulty's health multiplier; and
    the wave is appended, in order, to the [enemies] group. *)
Theorem C7_spawn_enemies (g : Game.t) :
  let diff := Difficulty.value (Game.difficulty g) in
  let count := Z.to_nat (d_enemies diff + Game.level g) in
  let g' := Game.spawn_enemies g in
  let spawned := drop (length (Game.store g)) (Game.store g') in
  take (length (Game.store g)) (Game.store g') = Game.store g
  /\ length spawned = count
  /\ (forall (j : nat) (s : Sprite), spawned !! j = Some s ->
        is_boss s = (Game.level g mod 5 =? 0) && (j =? 0)%nat)
  /\ (forall (j : nat) (s : Sprite), spawned !! j = Some s ->
        is_boss s = true -> health s = Int (50 * d_health diff))
  /\ (Forall (fun j => (j < length (Game.store g))%nat) (Game.enemies g) ->
      Game.enemies g' = Game.enemies g ++ seq (length (Game.store g)) count).
Proof.
  intros diff count g' spawned.
  destruct (spawn_loop_spec count 0 g ltac:(lia)) as (new & Hst & Hlen & Hnew & _).
  assert (Hg' : Game.spawn_loop 0 count g = g') by reflexivity.
  rewrite Hg' in Hst.
  assert (Hsp : spawned = new).
  { unfold spawned. rewrite Hst. now rewrite drop_app_length. }
  rewrite Hsp. repeat apply conj.
  - rewrite Hst. now rewrite take_app_length.
  - exact Hlen.
  - intros j s Hj. destruct (Hnew j s Hj) as (Hb & _).
    rewrite Hb. f_equal. destruct j; reflexivity.
  - intros j s Hs Hb. destruct (Hnew j s Hs) as (_ & Hh & _).
    now apply Hh.
  - intros He. rewrite <- Hg'. now apply spawn_loop_enemies.
Qed.

Lemma C7_spawn_enemies_witness :
  (length (drop 0 (Game.store (Game.spawn_enemies (normal_level 1)))) = 9%nat
   /\ forall j s,
        drop 0 (Game.store (Game.spawn_enemies (normal_level 1))) !! j = Some s ->
        is_boss s = false)
  /\ (forall s,
        drop 0 (Game.store (Game.spawn_enemies (normal_level 5))) !! 0%nat
        = Some s ->
        is_boss s = true /\ health s = Int 100).
Proof.
  destruct (C7_spawn_enemies (normal_level 1)) as (_ & Hlen1 & Hboss1 & _).
  destruct (C7_spawn_enemies (normal_level 5)) as (_ & _ & Hboss5 & Hh5 & _).
  split; [split|].
  - exact Hlen1.
  - intros j s Hs. exact (Hboss1 j s Hs).
  - intros s Hs. split.
    + exact (Hboss5 0%nat s Hs).
    + apply (Hh5 0%nat s Hs). exact (Hboss5 0%nat s Hs).
Defined.

(** The wave of Normal level 5, run: 13 sprites, the first a boss of
    health 100, the groups extended in order. *)
Example normal_level_5_wave :
  let g' := Game.spawn_enemies (normal_level 5) in
  map is_boss (Game.store g')
  = [true; false; false; false; false; false; false; false; false; false;
     false; false; false]
  /\ option_map health (Game.store g' !! 0%nat) = Some (Int 100)
  /\ Game.enemies g' = seq 0 13.
Proof. vm_compute. repeat split. Qed.

(** C8. While the shield is active the player-enemy pass changes
    nothing, so the player takes no damage; while it is inactive, every
    enemy whose rectangle overlaps the player's is removed from the
    groups, the player's health drops by exactly 20 for each of them, and
    if that brings it to zero or below the state is [GAME_OVER] (with
    health left above zero the state is unchanged). *)
Theorem C8_player_enemy_collisions (g : Game.t) :
  let collides e :=
    Rect.colliderect (Player.rect (Game.player g)) (Game.rect_of g e) in
  let hits := List.filter collides (Game.enemies g) in
  let g' := Game.player_enemy_collisions g in
  (Player.shield_active (Game.player g) = true -> g' = g)
  /\ (Player.shield_active (Game.player g) = false ->
      Player.health (Game.player g')
      = Player.health (Game.player g) - 20 * Z.of_nat (length hits)
      /\ Game.enemies g'
         = List.filter (fun e => negb (collides e)) (Game.enemies g)
      /\ (forall e, In e hits ->
            ~ In e (Game.enemies g') /\ ~ In e (Game.all_sprites g'))
      /\ (hits <> [] -> Player.health (Game.player g') <= 0 ->
          Game.state g' = GameState.GAME_OVER)
      /\ (0 < Player.health (Game.player g') ->
          Game.state g' = Game.state g)).
Proof.
  intros collides hits g'. unfold g', Game.player_enemy_collisions.
  split; intros Hsh; rewrite Hsh; simpl; [reflexivity|].
  unfold Game.spritecollide_kill. fold collides. fold hits.
  destruct (fold_kill_spec hits g) as (He & Ha & Hst & Hs & Hh & Hstate & Hl & Hp & _).
  destruct (fold_player_hit_spec hits
              (fold_left (fun g e => Game.kill e g) hits g))
    as (Hp' & He' & Ha' & _ & _ & _ & Hover & Halive & _).
  cbv zeta in *.
  rewrite Hp', He', Ha', He, Ha, Hp. rewrite Hp', Hp in Hover, Halive.
  assert (Hin : forall e, In e hits -> group_has e hits = true).
  { intros e. apply group_has_In. }
  repeat apply conj.
  - reflexivity.
  - apply List.filter_ext_in. intros e Hein. f_equal.
    destruct (collides e) eqn:Ec.
    + apply group_has_In. unfold hits. apply List.filter_In. auto.
    + destruct (group_has e hits) eqn:Eh; [|reflexivity].
      apply group_has_In in Eh. unfold hits in Eh.
      apply List.filter_In in Eh. destruct Eh. congruence.
  - intros e Hein. rewrite !List.filter_In, (Hin e Hein). simpl.
    split; intros [_ ?]; discriminate.
  - exact Hover.
  - intros Hgt. rewrite <- Hstate. now apply Halive.
Qed.

Lemma C8_player_enemy_collisions_witness :
  Player.health (Game.player (Game.player_enemy_collisions scene_last_hit)) = 0
  /\ Game.enemies (Game.player_enemy_collisions scene_last_hit) = [1%nat]
  /\ Game.state (Game.player_enemy_collisions scene_last_hit)
     = GameState.GAME_OVER
  /\ Game.player_enemy_collisions scene_shielded = scene_shielded.
Proof.
  destruct (C8_player_enemy_collisions scene_last_hit) as [_ H].
  destruct (H eq_refl) as (Hp & He & _ & Hover & _).
  destruct (C8_player_enemy_collisions scene_shielded) as [Hsh _].
  split; [exact Hp|]. split; [exact He|]. split.
  - apply Hover; [discriminate | rewrite Hp; vm_compute; discriminate].
  - apply Hsh. reflexivity.
Defined.

(** At the end of [check_collisions] a game-over can be overwritten: when
    the enemy that kills the player is the last one, level completion
    runs in the same call, restores 20 health and, past level 15, ends in
    [VICTORY]. *)
Example death_and_victory_in_one_tick :
  let g :=
    Game.set_level 15
      (Game.set_enemies [0%nat] (Game.set_all_sprites [0%nat] scene_last_hit)) in
  option_map
    (fun g' => (Game.state g', Player.health (Game.player g'), Game.level g'))
    (Game.check_collisions g)
  = Some (GameState.VICTORY, 20, 16).
Proof. vm_compute. reflexivity. Qed.

(** C9. [game_over] and [victory], the only code that sets the state to
    [GAME_OVER] or [VICTORY], leave the score alone and set the high score
    to the larger of score and high score; and every round of the main
    loop returns, and whenever it takes the game from any other state
    into [GAME_OVER] or [VICTORY], the high score afterwards is the larger
    of the final score and the high score before. *)
Theorem C9_high_score_updated `{Libm} :
  (forall g,
     Game.state (Game.game_over g) = GameState.GAME_OVER
     /\ Game.score (Game.game_over g) = Game.score g
     /\ Game.high_score (Game.game_over g)
        = Z.max (Game.score g) (Game.high_score g))
  /\ (forall g,
        Game.state (Game.victory g) = GameState.VICTORY
        /\ Game.score (Game.victory g) = Game.score g
        /\ Game.high_score (Game.victory g)
           = Z.max (Game.score g) (Game.high_score g))
  /\ (forall events keys now g,
        exists g' running,
          Game.run_frame events keys now g = Some (g', running)
          /\ (Game.over_or_victory (Game.state g) = false ->
              Game.over_or_victory (Game.state g') = true ->
              Game.high_score g'
              = Z.max (Game.score g') (Game.high_score g))).
Proof.
  repeat apply conj.
  - apply game_over_spec.
  - apply victory_spec.
  - intros events keys now g.
    destruct (frame_total events keys now g) as (g' & running & Hf).
    exists g', running. split; [exact Hf|].
    now apply (frame_high_score events keys now g g' running).
Qed.

Lemma C9_high_score_updated_witness :
  exists g',
    @Game.run_frame sample_libm [] no_keys 0 scene_last_hit = Some (g', true)
    /\ Game.state g' = GameState.GAME_OVER
    /\ Game.high_score scene_last_hit = 10
    /\ Game.score g' = 30
    /\ Game.high_score g'
       = Z.max (Game.score g') (Game.high_score scene_last_hit).
Proof.
  destruct (proj2 (proj2 (@C9_high_score_updated sample_libm))
              [] no_keys 0 scene_last_hit) as (g' & running & Hf & Hhs).
  assert (E : option_map
                (fun r => (Game.state (fst r), Game.score (fst r), snd r))
                (@Game.run_frame sample_libm [] no_keys 0 scene_last_hit)
              = Some (GameState.GAME_OVER, 30, true))
    by (vm_compute; reflexivity).
  rewrite Hf in E. simpl in E. injection E as Est Esc Er. subst running.
  exists g'. split; [exact Hf|]. split; [exact Est|].
  split; [reflexivity|]. split; [exact Esc|].
  apply Hhs; [reflexivity | rewrite Est; reflexivity].
Defined.

(** C10, as stated, fails in its consequence: the double update does not
    halve the delay between attacks. In [scene_level_4_cleared] tick 1
    completes level 4 and creates the boss of level 5 (13 sprites, then
    one [Boss.update] in the boss-attack loop). In binary64 the attack
    timer reaches 1000 on the 61st addition of [1000 / 60] (60 additions
    give 999.9999999999991), so it crosses the delay on every 61st update,
    by turns in the boss-attack loop, which fires, and in
    [all_sprites.update()], which drops the signal. The first bullet is
    allocated in tick 31, the second only in tick 92: consecutive attacks
    are 61 ticks apart, as one update per tick would make them. *)
Lemma C10_attacks_61_ticks_apart :
  map (fun n =>
         option_map
           (fun g => (Game.level g, length (Game.store g),
                      option_map (fun s => (kind s, speed s))
                                 (Game.store g !! 13%nat),
                      option_map (fun s => (kind s, speed s))
                                 (Game.store g !! 14%nat)))
           (@ticks sample_libm no_keys 0 n scene_level_4_cleared))
      [1; 30; 31; 91; 92]%nat
  = [Some (5, 13%nat, None, None);
     Some (5, 13%nat, None, None);
     Some (5, 14%nat, Some (KBullet (Int 10), Int (-10)), None);
     Some (5, 14%nat, Some (KBullet (Int 10), Int (-10)), None);
     Some (5, 15%nat, Some (KBullet (Int 10), Int (-10)),
           Some (KBullet (Int 10), Int (-10)))].
Proof. vm_compute. reflexivity. Qed.

(** C10, amended. A tick of the running game returns, and a boss that is
    in the [all_sprites] group and is still in the [enemies] group at the
    end of the tick has had [Boss.update] applied twice: its record is that of
    two updates, up to the health the collision pass took in between. So
    its movement pattern is applied twice, its pattern timer advances by
    2 when no pattern switch resets it, and its attack timer has
    [1000 / FPS] added twice when neither update reaches the delay. *)
Theorem C10_boss_updated_twice_per_tick `{Libm} (keys : Keys) (now : Z)
    (g : Game.t) (i : nat) (s : Sprite) :
  Game.state g = GameState.GAME ->
  List.NoDup (Game.all_sprites g) ->
  List.NoDup (Game.enemies g) ->
  In i (Game.all_sprites g) ->
  ~ In i (Player.bullets (Game.player g)) ->
  Game.store g !! i = Some s ->
  is_boss s = true ->
  let s1 := fst (Boss.update s) in
  let s2 := fst (Boss.update s1) in
  (exists g',
     Game.run_update keys now g = Some g'
     /\ (In i (Game.enemies g') ->
         exists h, Game.store g' !! i = Some (set_health h s2)))
  /\ (switches_pattern (Boss.state s) = false ->
      switches_pattern (Boss.state s1) = false ->
      pattern_timer (Boss.state s2) = pattern_timer (Boss.state s) + 2)
  /\ (snd (Boss.update s) = false -> snd (Boss.update s1) = false ->
      attack_timer (Boss.state s2)
      = (attack_timer (Boss.state s) + tick_ms + tick_ms)%num).
Proof.
  intros Hst Hnda Hnde Hia Hib Hs Hb s1 s2.
  split; [|split].
  - destruct (update_total keys now g) as (g' & Hu).
    exists g'. split; [exact Hu|]. intros Hi'.
    eapply boss_updated_twice; eassumption.
  - intros Hn1 Hn2.
    destruct (Boss_update_timers s) as (_ & _ & _ & Hp1).
    destruct (Boss_update_timers s1) as (_ & _ & _ & Hp2).
    cbv zeta in *. fold s1 in Hp1, Hp2. fold s2 in Hp2.
    rewrite Hp2, Hn2, Hp1, Hn1. lia.
  - intros Hf1 Hf2.
    destruct (Boss_update_timers s) as (Hs1 & Ha1 & _).
    destruct (Boss_update_timers s1) as (Hs2 & Ha2 & _).
    cbv zeta in *. fold s1 in Hs1, Ha1, Hs2, Ha2. fold s2 in Ha2.
    rewrite Hf1 in Hs1. rewrite Hf2 in Hs2.
    rewrite Ha2, <- Hs2, Ha1, <- Hs1. reflexivity.
Qed.

Lemma C10_boss_updated_twice_per_tick_witness :
  let s := fst (Boss.init (Difficulty.value Difficulty.NORMAL) sample_rng) in
  let s2 := fst (@Boss.update sample_libm (fst (@Boss.update sample_libm s))) in
  (exists g',
     @Game.run_update sample_libm no_keys 0 scene_boss = Some g'
     /\ exists h, Game.store g' !! 0%nat = Some (set_health h s2))
  /\ pattern_timer (Boss.state s2) = 2
  /\ attack_timer (Boss.state s2) = (Int 0 + tick_ms + tick_ms)%num.
Proof.
  destruct (@C10_boss_updated_twice_per_tick sample_libm no_keys 0 scene_boss
              0%nat
              (fst (Boss.init (Difficulty.value Difficulty.NORMAL) sample_rng)))
    as ((g' & Hu & H1) & H2 & H3).
  - reflexivity.
  - repeat constructor. simpl. tauto.
  - repeat constructor. simpl. tauto.
  - simpl. tauto.
  - simpl. tauto.
  - reflexivity.
  - reflexivity.
  - split; [|split].
    + exists g'. split; [exact Hu|]. apply H1.
      assert (E : option_map Game.enemies
                    (@Game.run_update sample_libm no_keys 0 scene_boss)
                  = Some [0%nat]) by (vm_compute; reflexivity).
      rewrite Hu in E. simpl in E. injection E as ->. simpl. tauto.
    + apply H2; vm_compute; reflexivity.
    + apply H3; vm_compute; reflexivity.
Defined.

(** * Further properties of the code *)

(** ** Iteration *)

Lemma iterate_S {A : Type} (f : A -> A) (n : nat) (a : A) :
  iterate f (S n) a = f (iterate f n a).
Proof.
  revert a. induction n as [|n IH]; intros a; [reflexivity|].
  change (iterate f (S (S n)) a) with (iterate f (S n) (f a)).
  rewrite IH. reflexivity.
Qed.

Lemma iterate_add {A : Type} (f : A -> A) (m n : nat) (a : A) :
  iterate f (m + n) a = iterate f n (iterate f m a).
Proof.
  revert a. induction m as [|m IH]; intros a; [reflexivity|].
  cbn. apply IH.
Qed.

Lemma below_by_cases (P : nat -> bool) (k : nat) :
  forallb P (seq 0 k) = true -> forall n, (n < k)%nat -> P n = true.
Proof.
  intros H n Hn. rewrite forallb_forall in H. apply H, in_seq. lia.
Qed.

(** ** Enemies, bullets and bosses, one update at a time *)




(** X2. A bullet flying upward at [BULLET_SPEED] rises 10 pixels per
    update, and update number [n + 1] calls [kill()] exactly when it
    brings the bottom edge above the top of the screen, that is when
    [bottom - 10 * (n + 1) < 0]. *)
Theorem X2_upward_bullet_schedule (s : Sprite) (n : nat) :
  speed s = Int Config.BULLET_SPEED ->
  let s_n := iterate (fun s => fst (Bullet.update s)) n s in
  speed s_n = Int Config.BULLET_SPEED
  /\ Rect.top (rect s_n) = Rect.top (rect s) - 10 * Z.of_nat n
  /\ Rect.bottom (rect s_n) = Rect.bottom (rect s) - 10 * Z.of_nat n
  /\ snd (Bullet.update s_n)
     = (Rect.bottom (rect s) - 10 * (Z.of_nat n + 1) <? 0).
Proof.
  intros Hs. induction n as [|n IH].
  - cbn [iterate]. destruct (upward_bullet_update s Hs) as [H1 H2].
    repeat apply conj; try assumption; try lia.
  - rewrite iterate_S. cbv zeta in IH |- *.
    set (s_n := iterate _ n s) in *.
    destruct IH as (Hv & Ht & Hb & Hk).
    destruct (upward_bullet_update s_n Hv) as [H1 H2].
    assert (Hv' : speed (fst (Bullet.update s_n)) = Int Config.BULLET_SPEED).
    { exact Hv. }
    assert (Hb' : Rect.bottom (rect (fst (Bullet.update s_n)))
                  = Rect.bottom (rect s) - 10 * Z.of_nat (S n)).
    { unfold Rect.bottom in *. unfold Rect.top in *. 
      assert (Rect.h (rect (fst (Bullet.update s_n))) = Rect.h (rect s_n)) by
          reflexivity.
      lia. }
    destruct (upward_bullet_update _ Hv') as [H3 _].
    repeat apply conj; try assumption; try lia.
    rewrite H3, Hb'. f_equal. lia.
Qed.

Lemma X2_upward_bullet_schedule_witness :
  snd (Bullet.update (iterate (fun s => fst (Bullet.update s)) 54
                              (Bullet.init 400 550))) = false
  /\ snd (Bullet.update (iterate (fun s => fst (Bullet.update s)) 55
                                 (Bullet.init 400 550))) = true.
Proof.
  split.
  - destruct (X2_upward_bullet_schedule (Bullet.init 400 550) 54)
      as (_ & _ & _ & H); [reflexivity|]. rewrite H. reflexivity.
  - destruct (X2_upward_bullet_schedule (Bullet.init 400 550) 55)
      as (_ & _ & _ & H); [reflexivity|]. rewrite H. reflexivity.
Defined.

Lemma Boss_update_cases `{Libm} (s : Sprite) :
  let b := Boss.state s in
  let s' := fst (Boss.update s) in
  let b' := Boss.state s' in
  Rect.w (rect s') = Rect.w (rect s)
  /\ Rect.h (rect s') = Rect.h (rect s)
  /\ health s' = health s /\ max_health s' = max_health s
  /\ speed s' = speed s
  /\ (pattern b = 0 ->
      rect s' = Rect.set_y (Rect.y (rect s) + 1) (rect s)
      /\ pattern b' = (if 50 <? Rect.y (rect s) + 1 then 1 else 0)
      /\ pattern_timer b' = pattern_timer b + 1)
  /\ (pattern b = 1 \/ pattern b = 2 ->
      pattern b'
      = (if pattern_limit (pattern b) <? pattern_timer b + 1
         then next_pattern (pattern b) else pattern b)
      /\ pattern_timer b'
         = (if pattern_limit (pattern b) <? pattern_timer b + 1
            then 0 else pattern_timer b + 1)).
Proof.
  cbv zeta. unfold Boss.update.
  set (b := Boss.state s).
  repeat apply conj.
  - destruct (pattern b =? 0); [reflexivity|].
    destruct (pattern b =? 1); [destruct (_ >? _); reflexivity|].
    destruct (pattern b =? 2); [destruct (_ >? _); reflexivity|reflexivity].
  - destruct (pattern b =? 0); [reflexivity|].
    destruct (pattern b =? 1); [destruct (_ >? _); reflexivity|].
    destruct (pattern b =? 2); [destruct (_ >? _); reflexivity|reflexivity].
  - destruct (pattern b =? 0); [reflexivity|].
    destruct (pattern b =? 1); [destruct (_ >? _); reflexivity|].
    destruct (pattern b =? 2); [destruct (_ >? _); reflexivity|reflexivity].
  - destruct (pattern b =? 0); [reflexivity|].
    destruct (pattern b =? 1); [destruct (_ >? _); reflexivity|].
    destruct (pattern b =? 2); [destruct (_ >? _); reflexivity|reflexivity].
  - destruct (pattern b =? 0); [reflexivity|].
    destruct (pattern b =? 1); [destruct (_ >? _); reflexivity|].
    destruct (pattern b =? 2); [destruct (_ >? _); reflexivity|reflexivity].
  - intros E. rewrite E. cbn [Z.eqb]. cbv iota.
    cbn [fst rect set_rect set_kind Boss.state kind pattern pattern_timer
         Rect.top Rect.set_y Rect.y].
    rewrite Z.gtb_ltb. repeat apply conj; reflexivity.
  - intros [E|E]; rewrite E; cbn [Z.eqb Pos.eqb]; cbv iota;
      unfold pattern_limit, next_pattern; cbn [Z.eqb Pos.eqb]; cbv iota;
      rewrite Z.gtb_ltb; destruct (_ <? _); split; reflexivity.
Qed.

(** X3. [Boss.update] keeps a boss in its cycle of movement patterns: the
    entrance moves it straight down, one pixel per update, until its top
    passes 50; from then on the timer stays within [0, 200] in the
    side-to-side pattern and within [0, 300] in the circular one. A boss
    that has left the entrance never returns to it, and the size of its
    rectangle never changes. *)
Theorem X3_boss_pattern_cycle `{Libm} (s : Sprite) :
  boss_phase_ok s ->
  let s' := fst (Boss.update s) in
  boss_phase_ok s'
  /\ (pattern (Boss.state s) = 0 ->
      Rect.x (rect s') = Rect.x (rect s)
      /\ Rect.y (rect s') = Rect.y (rect s) + 1)
  /\ (pattern (Boss.state s) <> 0 -> pattern (Boss.state s') <> 0)
  /\ Rect.w (rect s') = Rect.w (rect s)
  /\ Rect.h (rect s') = Rect.h (rect s).
Proof.
  intros Hok. cbv zeta.
  destruct (Boss_update_cases s) as (Hw & Hh & _ & _ & _ & H0 & H12).
  unfold boss_phase_ok in *. cbv zeta in *.
  set (b := Boss.state s) in *. set (s' := fst (Boss.update s)) in *.
  set (b' := Boss.state s') in *.
  repeat apply conj; try assumption.
  - destruct Hok as [(E & Ht & Hy)|[(E & Ht)|(E & Ht)]].
    + destruct (H0 E) as (Hr & Hp & Hpt). rewrite Hp, Hpt, Hr.
      cbn [Rect.y Rect.set_y].
      clear H0 H12 Hp Hpt Hr.
      destruct (Z.ltb_spec 50 (Rect.y (rect s) + 1)); [right; left|left]; lia.
    + destruct (H12 (or_introl E)) as (Hp & Hpt). rewrite Hp, Hpt, E.
      unfold pattern_limit, next_pattern. cbn [Z.eqb Pos.eqb].
      clear H0 H12 Hp Hpt.
      destruct (Z.ltb_spec 200 (pattern_timer b + 1)); [right; right|right;
          left]; lia.
    + destruct (H12 (or_intror E)) as (Hp & Hpt). rewrite Hp, Hpt, E.
      unfold pattern_limit, next_pattern. cbn [Z.eqb Pos.eqb].
      clear H0 H12 Hp Hpt.
      destruct (Z.ltb_spec 300 (pattern_timer b + 1)); [right; left|right;
          right]; lia.
  - intros E. destruct (H0 E) as (Hr & _). rewrite Hr. split; reflexivity.
  - intros Hn. destruct Hok as [(E & _)|[(E & Ht)|(E & Ht)]]; [contradiction|
      |].
    + destruct (H12 (or_introl E)) as (Hp & _). rewrite Hp, E.
      unfold next_pattern. cbn [Z.eqb Pos.eqb].
      destruct (pattern_limit 1 <? pattern_timer b + 1); discriminate.
    + destruct (H12 (or_intror E)) as (Hp & _). rewrite Hp, E.
      unfold next_pattern. cbn [Z.eqb Pos.eqb].
      destruct (pattern_limit 2 <? pattern_timer b + 1); discriminate.
Qed.

Lemma X3_boss_pattern_cycle_witness :
  boss_phase_ok
    (fst (@Boss.update sample_libm
            (fst (Boss.init (Difficulty.value Difficulty.NORMAL) sample_rng)))).
Proof.
  destruct (@X3_boss_pattern_cycle sample_libm
              (fst (Boss.init (Difficulty.value Difficulty.NORMAL) sample_rng)))
    as (H & _); [|exact H].
  left. vm_compute. repeat apply conj; try reflexivity. discriminate.
Defined.

(** X4. How long each pattern lasts. A boss in the entrance at
    [y = 50 - d] is still in it after each of the next [d] updates and in
    the side-to-side pattern after [d + 1]. A boss in the side-to-side
    (circular) pattern whose timer is [d] short of 200 (300) stays in
    that pattern for [d] updates, the timer counting up by one, and the
    update after them switches to the circular (side-to-side) pattern
    with the timer back at 0. *)
Theorem X4_boss_pattern_durations `{Libm} (s : Sprite) (d : nat) :
  let b := Boss.state s in
  let run n := Boss.state (iterate (fun s => fst (Boss.update s)) n s) in
  (pattern b = 0 -> Rect.y (rect s) = 50 - Z.of_nat d ->
   (forall n, (n <= d)%nat -> pattern (run n) = 0)
   /\ pattern (run (S d)) = 1)
  /\ (pattern b = 1 \/ pattern b = 2 ->
      pattern_timer b = pattern_limit (pattern b) - Z.of_nat d ->
      (forall n, (n <= d)%nat ->
         pattern (run n) = pattern b
         /\ pattern_timer (run n) = pattern_timer b + Z.of_nat n)
      /\ pattern (run (S d)) = next_pattern (pattern b)
      /\ pattern_timer (run (S d)) = 0).
Proof.
  cbv zeta.
  set (f := fun s => fst (Boss.update s)).
  split.
  - intros E Hy.
    assert (Hn : forall n, (n <= d)%nat ->
              pattern (Boss.state (iterate f n s)) = 0
              /\ Rect.y (rect (iterate f n s)) = Rect.y (rect s) + Z.of_nat n).
    { induction n as [|n IH]; intros Hle.
      - cbn. split; [exact E|lia].
      - rewrite iterate_S. destruct IH as [Hp Hyn]; [lia|].
        destruct (Boss_update_cases (iterate f n s)) as (_ & _ & _ & _ & _ & H0
            & _).
        destruct (H0 Hp) as (Hr & Hp' & _). unfold f at 1 3. rewrite Hp', Hr.
        cbn [Rect.y Rect.set_y]. rewrite Hyn.
        destruct (Z.ltb_spec 50 (Rect.y (rect s) + Z.of_nat n + 1)); [lia|].
        split; [reflexivity|lia]. }
    split; [intros n Hle; apply Hn, Hle|].
    rewrite iterate_S. destruct (Hn d (Nat.le_refl _)) as [Hp Hyn].
    destruct (Boss_update_cases (iterate f d s)) as (_ & _ & _ & _ & _ & H0 &
        _).
    destruct (H0 Hp) as (_ & Hp' & _). unfold f at 1. rewrite Hp', Hyn.
    destruct (Z.ltb_spec 50 (Rect.y (rect s) + Z.of_nat d + 1));
        [reflexivity|lia].
  - intros E Ht.
    assert (Hl : pattern_limit (pattern (Boss.state s)) = 200
                 \/ pattern_limit (pattern (Boss.state s)) = 300).
    { unfold pattern_limit. destruct (_ =? 1); auto. }
    assert (Hn : forall n, (n <= d)%nat ->
              pattern (Boss.state (iterate f n s)) = pattern (Boss.state s)
              /\ pattern_timer (Boss.state (iterate f n s))
                 = pattern_timer (Boss.state s) + Z.of_nat n).
    { induction n as [|n IH]; intros Hle.
      - cbn. split; [reflexivity|lia].
      - rewrite iterate_S. destruct IH as [Hp Hpt]; [lia|].
        destruct (Boss_update_cases (iterate f n s)) as (_ & _ & _ & _ & _ & _ &
            H12).
        rewrite Hp in H12. destruct (H12 E) as (Hp' & Hpt').
        unfold f at 1 3. rewrite Hp', Hpt', Hpt.
        destruct (Z.ltb_spec (pattern_limit (pattern (Boss.state s)))
                    (pattern_timer (Boss.state s) + Z.of_nat n + 1)); [lia|].
        split; [reflexivity|lia]. }
    split; [exact Hn|].
    rewrite iterate_S. destruct (Hn d (Nat.le_refl _)) as [Hp Hpt].
    destruct (Boss_update_cases (iterate f d s)) as (_ & _ & _ & _ & _ & _ &
        H12).
    rewrite Hp in H12. destruct (H12 E) as (Hp' & Hpt').
    unfold f at 1 3. rewrite Hp', Hpt', Hpt.
    destruct (Z.ltb_spec (pattern_limit (pattern (Boss.state s)))
                (pattern_timer (Boss.state s) + Z.of_nat d + 1)); [|lia].
    split; reflexivity.
Qed.

Lemma X4_boss_pattern_durations_witness :
  pattern
    (Boss.state
       (iterate (fun s => fst (@Boss.update sample_libm s)) 150
          (fst (Boss.init (Difficulty.value Difficulty.NORMAL) sample_rng))))
  = 0
  /\ pattern
       (Boss.state
          (iterate (fun s => fst (@Boss.update sample_libm s)) 151
             (fst (Boss.init (Difficulty.value Difficulty.NORMAL) sample_rng))))
     = 1.
Proof.
  destruct (@X4_boss_pattern_durations sample_libm
              (fst (Boss.init (Difficulty.value Difficulty.NORMAL) sample_rng))
              150) as [H0 _].
  destruct (H0 eq_refl eq_refl) as [Ha Hb].
  split; [apply Ha; lia|exact Hb].
Defined.

Lemma attack_timer_iterate `{Libm} (s : Sprite) (n : nat) :
  let s_n := iterate (fun s => fst (Boss.update s)) n s in
  attack_delay (Boss.state s_n) = attack_delay (Boss.state s)
  /\ attack_timer (Boss.state s_n)
     = iterate (fun t => fst (attack_step (attack_delay (Boss.state s)) t)) n
               (attack_timer (Boss.state s))
  /\ snd (Boss.update s_n)
     = snd (attack_step (attack_delay (Boss.state s))
                        (attack_timer (Boss.state s_n))).
Proof.
  cbv zeta. induction n as [|n IH].
  - cbn [iterate]. destruct (Boss_update_timers s) as (Hf & _).
    repeat apply conj; try reflexivity. exact Hf.
  - rewrite !iterate_S. destruct IH as (Hd & Ht & Hs).
    set (s_n := iterate _ n s) in *.
    destruct (Boss_update_timers s_n) as (Hf & Ha & Hd' & _).
    destruct (Boss_update_timers (fst (Boss.update s_n))) as (Hf' & _).
    rewrite Hd in *. rewrite Hd'.
    repeat apply conj; try reflexivity.
    + rewrite Ha, <- Ht. reflexivity.
    + rewrite Hf', Hd'. reflexivity.
Qed.

(** X5. The attack cadence of [Boss.update]: from an attack timer of 0
    and the delay of 1000 ms, exactly every 61st update returns the
    attack signal (the float sum of [1000 / FPS] first reaches 1000 on
    the 61st addition), and the timer is back at 0 after every 61
    updates. *)
Theorem X5_boss_attack_every_61_updates `{Libm} (s : Sprite) (m n : nat) :
  attack_timer (Boss.state s) = Int 0 ->
  attack_delay (Boss.state s) = 1000 ->
  (n < 61)%nat ->
  let run k := iterate (fun s => fst (Boss.update s)) k s in
  snd (Boss.update (run (61 * m + n)%nat)) = (n =? 60)%nat
  /\ attack_timer (Boss.state (run (61 * m)%nat)) = Int 0.
Proof.
  intros Ht Hd Hn. cbv zeta.
  set (f := fun t => fst (attack_step 1000 t)).
  assert (Hcycle : forall m, iterate f (61 * m) (Int 0) = Int 0).
  { clear. induction m as [|m IH]; [reflexivity|].
    replace (61 * S m)%nat with (61 + 61 * m)%nat by lia.
    rewrite iterate_add. 
    replace (iterate f 61 (Int 0)) with (Int 0) by (vm_compute; reflexivity).
    exact IH. }
  assert (Hall : forallb
                   (fun n => Bool.eqb (snd (attack_step 1000 (iterate f n (Int
                       0))))
                                      (n =? 60)%nat)
                   (seq 0 61) = true).
  { vm_compute. reflexivity. }
  split.
  - destruct (attack_timer_iterate s (61 * m + n)) as (_ & Ha & Hs).
    rewrite Hs, Ha, Hd, Ht. fold f.
    rewrite iterate_add, Hcycle.
    apply Bool.eqb_prop. exact (below_by_cases _ _ Hall n Hn).
  - destruct (attack_timer_iterate s (61 * m)) as (_ & Ha & _).
    rewrite Ha, Hd, Ht. apply Hcycle.
Qed.

Lemma X5_boss_attack_every_61_updates_witness :
  snd (@Boss.update sample_libm
         (iterate (fun s => fst (@Boss.update sample_libm s)) 121
            (fst (Boss.init (Difficulty.value Difficulty.NORMAL) sample_rng))))
  = true.
Proof.
  destruct (@X5_boss_attack_every_61_updates sample_libm
              (fst (Boss.init (Difficulty.value Difficulty.NORMAL) sample_rng))
              1 60) as [H _]; [reflexivity|reflexivity|lia|].
  exact H.
Defined.

(** ** The player over many updates *)

Lemma Player_updates_shield (ks : list Keys) :
  forall p : Player.t,
  (Player.shield_active (Player_updates ks p),
   Player.shield_timer (Player_updates ks p),
   Player.shield_duration (Player_updates ks p))
  = iterate shield_step (length ks)
      (Player.shield_active p, Player.shield_timer p,
       Player.shield_duration p).
Proof.
  induction ks as [|k ks IH]; intros p; [reflexivity|].
  cbn [Player_updates fold_left length iterate].
  rewrite <- (Player_update_shield k p). apply IH.
Qed.

(** X6. Once [activate_shield] is called with a positive shield upgrade
    and the duration of 3000 ms, the shield is active after each of the
    next 180 calls of [Player.update] and inactive from the 181st on,
    whatever keys are held. *)
Theorem X6_shield_lasts_181_updates (p : Player.t) (ks : list Keys) :
  (Player.u_shield (Player.upgrades p) >? Int 0)%num = true ->
  Player.shield_duration p = 3000 ->
  Player.shield_active (Player_updates ks (Player.activate_shield p))
  = (length ks <? 181)%nat.
Proof.
  intros Hu Hd.
  pose proof (Player_updates_shield ks (Player.activate_shield p)) as E.
  unfold Player.activate_shield in E |- *. rewrite Hu in E |- *.
  cbn [Player.shield_active Player.shield_timer Player.shield_duration
       Player.set_shield] in E.
  rewrite Hd in E.
  apply (f_equal (fun x => fst (fst x))) in E. cbn [fst] in E. rewrite E.
  clear E.
  set (f n := fst (fst (iterate shield_step n (true, Int 0, 3000)))).
  change (f (length ks) = (length ks <? 181)%nat).
  generalize (length ks). intros n.
  assert (Hall : forallb (fun n => Bool.eqb (f n) (n <? 181)%nat) (seq 0 182)
                 = true).
  { vm_compute. reflexivity. }
  destruct (Nat.lt_ge_cases n 182) as [Hn|Hn].
  - apply Bool.eqb_prop. exact (below_by_cases _ _ Hall n Hn).
  - replace n with (181 + (n - 181))%nat by lia.
    unfold f. rewrite iterate_add.
    replace (iterate shield_step 181 (true, Int 0, 3000))
      with (false, Int 0, 3000) by (vm_compute; reflexivity).
    assert (Hfix : forall k, iterate shield_step k (false, Int 0, 3000)
                             = (false, Int 0, 3000)).
    { induction k as [|k IH]; [reflexivity|exact IH]. }
    rewrite Hfix. cbn [fst]. symmetry. apply Nat.ltb_ge. lia.
Qed.

Lemma X6_shield_lasts_181_updates_witness :
  Player.shield_active
    (Player_updates (repeat left_key 180)
       (Player.activate_shield
          (Game.player (Game.apply_upgrade Game.up_shield
                          (Game.init sample_rng)))))
  = true.
Proof.
  rewrite (X6_shield_lasts_181_updates
             (Game.player (Game.apply_upgrade Game.up_shield
                             (Game.init sample_rng)))
             (repeat left_key 180)); reflexivity.
Defined.

Lemma Player_updates_on_grid (ks : list Keys) :
  forall p : Player.t,
  on_grid_in_bounds p -> on_grid_in_bounds (Player_updates ks p).
Proof.
  induction ks as [|k ks IH]; intros p Hp; [exact Hp|].
  cbn [Player_updates fold_left]. apply IH, Player_update_on_grid, Hp.
Qed.

(** X7. Without a speed upgrade the player never leaves the screen:
    after any number of [Player.update] calls on a new player, whatever
    keys are held, its rectangle lies within the screen. *)
Theorem X7_player_stays_on_screen_at_base_speed (now : Z) (ks : list Keys) :
  let p := Player_updates ks (Player.init now) in
  0 <= Rect.left (Player.rect p)
  /\ Rect.right (Player.rect p) <= Config.SCREEN_WIDTH
  /\ 0 <= Rect.top (Player.rect p)
  /\ Rect.bottom (Player.rect p) <= Config.SCREEN_HEIGHT.
Proof.
  cbv zeta.
  assert (H0 : on_grid_in_bounds (Player.init now)).
  { unfold on_grid_in_bounds. cbn.
    repeat apply conj; try reflexivity; try (vm_compute; discriminate).
    - exists 75. reflexivity.
    - exists 110. reflexivity. }
  destruct (Player_updates_on_grid ks _ H0)
    as (_ & _ & _ & _ & _ & _ & H1 & H2 & H3 & H4).
  auto.
Qed.

(** ** What the quadtree holds and returns *)

Section QuadTreeInsert.
Variable rect_of : nat -> Rect.t.

Lemma intersects_boundary (t t' : QuadTree.t) r :
  QuadTree.boundary t' = QuadTree.boundary t ->
  QuadTree._intersects t' r = QuadTree._intersects t r.
Proof. unfold QuadTree._intersects. intros ->. reflexivity. Qed.

Lemma insert_rel (obj : nat) (fuel : nat) :
  forall (t : QuadTree.t) (r : bool) (t' : QuadTree.t),
  QuadTree.insert rect_of fuel t obj = Some (r, t') ->
  QuadTree.boundary t' = QuadTree.boundary t
  /\ QuadTree.capacity t' = QuadTree.capacity t
  /\ (QuadTree._intersects t (rect_of obj) = false -> r = false /\ t' = t)
  /\ (r = true ->
      QuadTree._intersects t (rect_of obj) = true
      /\ QuadTree.contents t' ≡ₚ obj :: QuadTree.contents t)
  /\ (r = false -> QuadTree.contents t' = QuadTree.contents t)
  /\ (node_ok rect_of t -> node_ok rect_of t').
Proof.
  induction fuel as [|fuel IH]; intros t r t' E; [discriminate|].
  cbn [QuadTree.insert] in E.
  destruct (QuadTree._intersects t (rect_of obj)) eqn:Ei; cbn [negb] in E.
  2:{ injection E as <- <-. repeat apply conj; try reflexivity; try tauto; try
      discriminate. }
  destruct (Z.of_nat (length (QuadTree.objects t)) <? QuadTree.capacity t)
      eqn:Ec.
  { injection E as <- <-. apply Z.ltb_lt in Ec.
    repeat apply conj; try discriminate.
    - destruct t; reflexivity.
    - destruct t; reflexivity.
    - intros _. split; [reflexivity|].
      destruct t as [b c o|b c o nw ne sw se]; cbn.
      + symmetry. apply Permutation_cons_append.
      + rewrite <- app_assoc. cbn. symmetry. apply Permutation_middle.
    - intros Hk.
      destruct t as [b c o|b c o nw ne sw se]; cbn in Hk, Ec, Ei |- *;
        destruct Hk as (Hl & Ho & Hc).
      + repeat apply conj; auto.
        * rewrite length_app. cbn. lia.
        * apply Forall_app. split; [exact Ho|]. constructor; [|constructor].
            exact Ei.
      + repeat apply conj; try tauto.
        * rewrite length_app. cbn. lia.
        * apply Forall_app. split; [exact Ho|]. constructor; [|constructor].
            exact Ei. }
  set (ch := match t with
             | QuadTree.Leaf b c _ => QuadTree.subdivide b c
             | QuadTree.Divided _ _ _ nw ne sw se => (nw, ne, sw, se)
             end) in E.
  assert (Hch : let '(nw, ne, sw, se) := ch in
            QuadTree.contents t = QuadTree.objects t ++ QuadTree.contents nw ++
                QuadTree.contents ne ++ QuadTree.contents sw ++
                    QuadTree.contents se
            /\ (node_ok rect_of t ->
                (QuadTree.boundary nw, QuadTree.boundary ne, QuadTree.boundary
                    sw,
                 QuadTree.boundary se) = quadrants (QuadTree.boundary t)
                /\ node_ok rect_of nw /\ node_ok rect_of ne /\ node_ok rect_of
                    sw /\ node_ok rect_of se)).
  { subst ch. destruct t as [b c o|b c o nw ne sw se].
    - destruct b as [[[x y] w] h]. cbn. rewrite app_nil_r. split;
        [reflexivity|].
      intros (Hl & _). cbn in Hl. unfold QuadTree.init. cbn.
      assert (0 <= c) by lia.
      repeat apply conj; auto.
    - cbn. split; [reflexivity|]. tauto. }
  destruct ch as [[[nw ne] sw] se]. destruct Hch as (Hcont & Hok).
  assert (Hnode : forall nw' ne' sw' se',
     QuadTree.boundary nw' = QuadTree.boundary nw -> QuadTree.boundary ne' =
         QuadTree.boundary ne ->
     QuadTree.boundary sw' = QuadTree.boundary sw -> QuadTree.boundary se' =
         QuadTree.boundary se ->
     (node_ok rect_of t -> node_ok rect_of nw' /\ node_ok rect_of ne' /\ node_ok
         rect_of sw' /\ node_ok rect_of se') ->
     node_ok rect_of t ->
     node_ok rect_of (QuadTree.Divided (QuadTree.boundary t) (QuadTree.capacity
         t) (QuadTree.objects t) nw' ne' sw' se')).
  { intros nw' ne' sw' se' B1 B2 B3 B4 Hn Ht. specialize (Hn Ht).
    destruct (Hok Ht) as (Hq & _).
    cbn. rewrite B1, B2, B3, B4.
    assert (Ht' := Ht). destruct t; cbn in Ht' |- *; tauto. }
  destruct (QuadTree.insert rect_of fuel nw obj) as [[r1 nw']|] eqn:E1;
      [|discriminate].
  destruct (IH _ _ _ E1) as (B1 & C1 & N1 & T1 & F1 & K1).
  destruct r1.
  { injection E as <- <-. destruct (T1 eq_refl) as [_ P1].
    repeat apply conj; try reflexivity; try discriminate.
    - intros _. split; [reflexivity|]. cbn. rewrite Hcont, P1. cbn.
      symmetry. apply Permutation_middle.
    - intros Ht. apply Hnode; auto. tauto. }
  specialize (F1 eq_refl).
  destruct (QuadTree.insert rect_of fuel ne obj) as [[r2 ne']|] eqn:E2;
      [|discriminate].
  destruct (IH _ _ _ E2) as (B2 & C2 & N2 & T2 & F2 & K2).
  destruct r2.
  { injection E as <- <-. destruct (T2 eq_refl) as [_ P2].
    repeat apply conj; try reflexivity; try discriminate.
    - intros _. split; [reflexivity|]. cbn. rewrite Hcont, F1, P2.
      rewrite (app_assoc (QuadTree.objects t)). cbn [app].
      rewrite <- Permutation_middle, <- app_assoc. reflexivity.
    - intros Ht. apply Hnode; auto. tauto. }
  specialize (F2 eq_refl).
  destruct (QuadTree.insert rect_of fuel sw obj) as [[r3 sw']|] eqn:E3;
      [|discriminate].
  destruct (IH _ _ _ E3) as (B3 & C3 & N3 & T3 & F3 & K3).
  destruct r3.
  { injection E as <- <-. destruct (T3 eq_refl) as [_ P3].
    repeat apply conj; try reflexivity; try discriminate.
    - intros _. split; [reflexivity|]. cbn. rewrite Hcont, F1, F2, P3.
      rewrite (app_assoc (QuadTree.objects t)), (app_assoc (_ ++ _)). cbn [app].
      rewrite <- Permutation_middle, <- !app_assoc. reflexivity.
    - intros Ht. apply Hnode; auto. tauto. }
  specialize (F3 eq_refl).
  destruct (QuadTree.insert rect_of fuel se obj) as [[r4 se']|] eqn:E4;
      [|discriminate].
  destruct (IH _ _ _ E4) as (B4 & C4 & N4 & T4 & F4 & K4).
  injection E as <- <-.
  repeat apply conj; try reflexivity; try discriminate.
  - intros ->. destruct (T4 eq_refl) as [_ P4]. split; [reflexivity|].
    cbn. rewrite Hcont, F1, F2, F3, P4.
    rewrite (app_assoc (QuadTree.objects t)), (app_assoc (_ ++ _)),
      (app_assoc ((_ ++ _) ++ _)).
    rewrite <- Permutation_middle, <- !app_assoc. reflexivity.
  - intros ->. cbn. rewrite Hcont, F1, F2, F3, F4 by reflexivity. reflexivity.
  - intros Ht. apply Hnode; auto. tauto.
Qed.

End QuadTreeInsert.

Lemma insert_all_rel (rect_of : nat -> Rect.t) (fuel : nat) (objs : list nat) :
  forall t t' : QuadTree.t,
  QuadTree.insert_all rect_of fuel t objs = Some t' ->
  (exists acc, acc `sublist_of` objs
               /\ QuadTree.contents t' ≡ₚ QuadTree.contents t ++ acc)
  /\ (node_ok rect_of t -> node_ok rect_of t').
Proof.
  induction objs as [|obj objs IH]; intros t t' E; cbn in E.
  - injection E as <-. split; [|tauto]. exists []. split; [constructor|].
    rewrite app_nil_r. reflexivity.
  - destruct (QuadTree.insert rect_of fuel t obj) as [[r t1]|] eqn:E1;
      [|discriminate].
    destruct (insert_rel rect_of _ _ _ _ _ E1) as (_ & _ & _ & T & F & K).
    destruct (IH _ _ E) as [(acc & Hs & Hp) K'].
    split; [|tauto].
    destruct r.
    + destruct (T eq_refl) as [_ P]. exists (obj :: acc). split.
      * constructor. exact Hs.
      * rewrite Hp, P. cbn. apply Permutation_middle.
    + exists acc. split; [constructor; exact Hs|]. rewrite Hp, F by reflexivity.
      reflexivity.
Qed.

Lemma query_sublist (rect_of : nat -> Rect.t) (rect : Rect.t) (t : QuadTree.t) :
  forall found : list nat,
  exists more,
    QuadTree.query rect_of t rect found = found ++ more
    /\ more `sublist_of`
         List.filter (fun obj => Rect.colliderect rect (rect_of obj))
                     (QuadTree.contents t).
Proof.
  induction t as [b c o|b c o nw IH1 ne IH2 sw IH3 se IH4]; intros found;
    cbn [QuadTree.query QuadTree.contents].
  - destruct (QuadTree._intersects _ rect); cbn [negb].
    + eexists. split; [reflexivity|]. reflexivity.
    + exists []. split; [symmetry; apply app_nil_r|]. apply sublist_nil_l.
  - destruct (QuadTree._intersects _ rect); cbn [negb].
    + cbn [QuadTree.objects].
      set (f0 := found ++ _).
      destruct (IH1 f0) as (m1 & -> & S1).
      destruct (IH2 (f0 ++ m1)) as (m2 & -> & S2).
      destruct (IH3 ((f0 ++ m1) ++ m2)) as (m3 & -> & S3).
      destruct (IH4 (((f0 ++ m1) ++ m2) ++ m3)) as (m4 & -> & S4).
      subst f0. eexists. split.
      { rewrite <- !app_assoc. reflexivity. }
      rewrite !List.filter_app.
      repeat (apply sublist_app; [try reflexivity; assumption|]). assumption.
    + exists []. split; [symmetry; apply app_nil_r|]. apply sublist_nil_l.
Qed.

(** X8. [QuadTree.insert] with a positive capacity returns. An object
    that does not intersect the boundary is refused and the tree is left
    as it is. When [insert] returns [True] the object intersects the
    boundary and the tree holds it once more than before, and otherwise
    what it held; when it returns [False] the tree holds what it held. *)
Theorem X8_insert_stores_once (rect_of : nat -> Rect.t) (c : Z)
    (t : QuadTree.t) (obj : nat) (fuel : nat) :
  0 < c -> QuadTree.capacity_is c t -> (QuadTree.depth t + 2 <= fuel)%nat ->
  exists r t',
    QuadTree.insert rect_of fuel t obj = Some (r, t')
    /\ (QuadTree._intersects t (rect_of obj) = false -> r = false /\ t' = t)
    /\ (r = true ->
        QuadTree._intersects t (rect_of obj) = true
        /\ QuadTree.contents t' ≡ₚ obj :: QuadTree.contents t)
    /\ (r = false -> QuadTree.contents t' = QuadTree.contents t).
Proof.
  intros Hc Ht Hf.
  destruct (insert_total rect_of c Hc obj t Ht fuel Hf) as (r & t' & E & _).
  exists r, t'. split; [exact E|].
  destruct (insert_rel rect_of _ _ _ _ _ E) as (_ & _ & N & T & F & _).
  auto.
Qed.

Lemma X8_insert_stores_once_witness :
  exists r t',
    QuadTree.insert (fun _ => Rect.mk 10 10 40 40) 2
                    (QuadTree.Leaf screen_boundary 1 [7%nat]) 3%nat
    = Some (r, t')
    /\ r = true
    /\ QuadTree.contents t' ≡ₚ [3; 7]%nat.
Proof.
  destruct (X8_insert_stores_once (fun _ => Rect.mk 10 10 40 40) 1
              (QuadTree.Leaf screen_boundary 1 [7%nat]) 3%nat 2)
    as (r & t' & E & _ & T & _); [lia|reflexivity|simpl; lia|].
  exists r, t'. split; [exact E|].
  assert (Hr : r = true).
  { vm_compute in E. injection E as <- _. reflexivity. }
  split; [exact Hr|]. apply T, Hr.
Defined.

(** X9. [QuadTree.insert] keeps a tree well formed: no node holds more
    than [capacity] objects, every object a node holds intersects the
    boundary of that node, and the children of a divided node are the
    four quadrants [subdivide] computes; the boundary of the root is
    kept. *)
Theorem X9_insert_keeps_nodes_ok (rect_of : nat -> Rect.t) (c : Z)
    (t : QuadTree.t) (obj : nat) (fuel : nat) :
  0 < c -> QuadTree.capacity_is c t -> (QuadTree.depth t + 2 <= fuel)%nat ->
  node_ok rect_of t ->
  exists r t',
    QuadTree.insert rect_of fuel t obj = Some (r, t')
    /\ node_ok rect_of t'
    /\ QuadTree.boundary t' = QuadTree.boundary t
    /\ QuadTree.capacity_is c t'.
Proof.
  intros Hc Ht Hf Hok.
  destruct (insert_total rect_of c Hc obj t Ht fuel Hf) as (r & t' & E & Hc' &
      _).
  exists r, t'. split; [exact E|].
  destruct (insert_rel rect_of _ _ _ _ _ E) as (B & _ & _ & _ & _ & K).
  auto.
Qed.

Lemma X9_insert_keeps_nodes_ok_witness :
  exists r t',
    QuadTree.insert (fun _ => Rect.mk 10 10 40 40) 2
                    (QuadTree.Leaf screen_boundary 1 [7%nat]) 3%nat
    = Some (r, t')
    /\ node_ok (fun _ => Rect.mk 10 10 40 40) t'.
Proof.
  destruct (X9_insert_keeps_nodes_ok (fun _ => Rect.mk 10 10 40 40) 1
              (QuadTree.Leaf screen_boundary 1 [7%nat]) 3%nat 2)
    as (r & t' & E & K & _); [lia|reflexivity|simpl; lia| |].
  - simpl. split; [lia|]. split; [|exact I]. repeat constructor.
  - exists r, t'. split; [exact E|exact K].
Defined.

(** X10. [QuadTree.query] only appends to [found], and what it appends
    is a sublist of the stored objects that collide with the query
    rectangle: nothing is invented, nothing is reported that does not
    overlap, and an object is reported twice only if it is stored
    twice. *)
Theorem X10_query_returns_stored_overlapping (rect_of : nat -> Rect.t)
    (t : QuadTree.t) (rect : Rect.t) (found : list nat) :
  exists more,
    QuadTree.query rect_of t rect found = found ++ more
    /\ more `sublist_of`
         List.filter (fun obj => Rect.colliderect rect (rect_of obj))
                     (QuadTree.contents t)
    /\ (List.NoDup (QuadTree.contents t) -> List.NoDup more).
Proof.
  destruct (query_sublist rect_of rect t found) as (more & E & S).
  exists more. split; [exact E|]. split; [exact S|].
  intros Hn. apply NoDup_ListNoDup. eapply sublist_NoDup; [|exact S].
  apply NoDup_ListNoDup, List.NoDup_filter, Hn.
Qed.

(** X11. The quadtree [check_collisions] builds from an [enemies] group
    without repeats is well formed and holds only members of the group,
    each at most once; so the candidates it returns for any rectangle
    are distinct enemies that collide with the rectangle. *)
Theorem X11_rebuilt_quadtree_candidates (g : Game.t) :
  List.NoDup (Game.enemies g) ->
  exists qt,
    Game.rebuild_quadtree g = Some (Game.set_quadtree qt g)
    /\ node_ok (Game.rect_of g) qt
    /\ (forall e, In e (QuadTree.contents qt) -> In e (Game.enemies g))
    /\ List.NoDup (QuadTree.contents qt)
    /\ forall rect : Rect.t,
         let candidates := QuadTree.query (Game.rect_of g) qt rect [] in
         List.NoDup candidates
         /\ forall e, In e candidates ->
              In e (Game.enemies g)
              /\ Rect.colliderect rect (Game.rect_of g e) = true.
Proof.
  intros Hn.
  destruct (rebuild_quadtree_total g) as (qt & E).
  exists qt. split; [exact E|].
  unfold Game.rebuild_quadtree in E.
  destruct (QuadTree.insert_all _ _ _ _) as [qt'|] eqn:Ea; [|discriminate].
  assert (qt' = qt) as ->.
  { injection E as E. exact E. }
  destruct (insert_all_rel _ _ _ _ _ Ea) as [(acc & Hs & Hp) K].
  cbn in Hp.
  assert (Hin : forall e, In e (QuadTree.contents qt) -> In e (Game.enemies g)).
  { intros e He. apply (Permutation_in _ Hp) in He.
    apply list_elem_of_In. eapply elem_of_sublist; [|exact Hs]. apply
        list_elem_of_In, He. }
  assert (Hnd : List.NoDup (QuadTree.contents qt)).
  { eapply Permutation_NoDup; [symmetry; exact Hp|].
    apply NoDup_ListNoDup. eapply sublist_NoDup; [|exact Hs].
    apply NoDup_ListNoDup, Hn. }
  split.
  { apply K. cbn. split; [lia|]. split; [constructor|exact I]. }
  split; [exact Hin|]. split; [exact Hnd|].
  intros rect candidates. subst candidates.
  destruct (query_sublist (Game.rect_of g) rect qt []) as (more & -> & S).
  cbn [app]. split.
  - apply NoDup_ListNoDup. eapply sublist_NoDup; [|exact S].
    apply NoDup_ListNoDup, List.NoDup_filter, Hnd.
  - intros e He.
    assert (He' : In e (List.filter (fun obj => Rect.colliderect rect
        (Game.rect_of g obj)) (QuadTree.contents qt))).
    { apply list_elem_of_In. eapply elem_of_sublist; [|exact S]. apply
        list_elem_of_In, He. }
    apply List.filter_In in He'. destruct He' as [H1 H2]. split; [apply Hin,
        H1|exact H2].
Qed.

Lemma X11_rebuilt_quadtree_candidates_witness :
  exists qt,
    Game.rebuild_quadtree scene_straddle
    = Some (Game.set_quadtree qt scene_straddle)
    /\ List.NoDup (QuadTree.query (Game.rect_of scene_straddle) qt
                                  (Rect.mk 0 0 800 600) []).
Proof.
  destruct (X11_rebuilt_quadtree_candidates scene_straddle)
    as (qt & E & _ & _ & _ & H).
  - vm_compute. repeat constructor; simpl; intuition lia.
  - exists qt. split; [exact E|]. apply H.
Defined.

Lemma same_motion_deref (st' st : list Sprite) (i : nat) :
  same_motion st' st ->
  rect (deref st' i) = rect (deref st i)
  /\ kind (deref st' i) = kind (deref st i).
Proof.
  intros H. specialize (H i). unfold deref.
  destruct (st' !! i) as [s'|], (st !! i) as [s|]; cbn in H;
    try discriminate; [|auto].
  injection H as H1 H2 H3 H4. auto.
Qed.

Lemma bullet_hit_store (b e : nat) (g : Game.t) (i : nat) :
  Game.store (Game.bullet_hit b e g) !! i
  = if Rect.colliderect (Game.rect_of g b) (Game.rect_of g e) && Nat.eqb e i
    then set_health (health (deref (Game.store g) e)
                     - Bullet.damage (deref (Game.store g) b))%num
         <$> Game.store g !! i
    else Game.store g !! i.
Proof.
  unfold Game.bullet_hit.
  destruct (Rect.colliderect _ _); cbn [andb]; [|reflexivity].
  assert (E : forall g1,
            Game.store g1 = Game.store (Game.modify e
              (fun s => set_health (health s - Bullet.damage (deref (Game.store
                  g) b))%num s) g) ->
            Game.store g1 !! i
            = if Nat.eqb e i
              then set_health (health (deref (Game.store g) e)
                               - Bullet.damage (deref (Game.store g) b))%num
                   <$> Game.store g !! i
              else Game.store g !! i).
  { intros g1 ->. rewrite modify_lookup.
    destruct (Nat.eqb_spec e i) as [->|]; [|reflexivity].
    unfold deref. destruct (Game.store g !! i); reflexivity. }
  split_tests; apply E; reflexivity.
Qed.

Lemma bullet_pass_damage (b : nat) (l : list nat) :
  forall g : Game.t,
  List.NoDup l ->
  Forall (fun e => Rect.colliderect (Game.rect_of g b) (Game.rect_of g e)
                   = true) l ->
  forall (i : nat) (s : Sprite),
  Game.store g !! i = Some s ->
  Game.store (fold_left (fun g e => Game.bullet_hit b e g) l g) !! i
  = Some (if group_has i l
          then set_health (health s - Bullet.damage (deref (Game.store g)
              b))%num s
          else s).
Proof.
  induction l as [|e l IH]; intros g Hn Hc i s Hs; [exact Hs|].
  apply List.NoDup_cons_iff in Hn. destruct Hn as [He Hn].
  apply List.Forall_cons_iff in Hc. destruct Hc as [Hce Hc].
  cbn [fold_left].
  destruct (bullet_hit_step b e g) as (_ & Hm & _).
  assert (Hr : forall x, Game.rect_of (Game.bullet_hit b e g) x
                         = Game.rect_of g x).
  { intros x. unfold Game.rect_of. apply same_motion_deref, Hm. }
  assert (Hd : Bullet.damage (deref (Game.store (Game.bullet_hit b e g)) b)
               = Bullet.damage (deref (Game.store g) b)).
  { unfold Bullet.damage.
    destruct (same_motion_deref _ _ b Hm) as [_ Hk]. now rewrite Hk. }
  assert (Hs1 := bullet_hit_store b e g i). rewrite Hce, Hs in Hs1.
  cbn [andb fmap option_fmap option_map] in Hs1.
  rewrite (IH (Game.bullet_hit b e g) Hn) with
    (s := if Nat.eqb e i
          then set_health (health (deref (Game.store g) e)
                           - Bullet.damage (deref (Game.store g) b))%num s
          else s).
  - rewrite Hd. unfold group_has. cbn [existsb]. fold (group_has i l).
    rewrite (Nat.eqb_sym i e).
    destruct (Nat.eqb_spec e i) as [->|Hne]; cbn [orb].
    + destruct (group_has i l) eqn:E.
      { apply group_has_In in E. contradiction. }
      unfold deref. rewrite Hs. reflexivity.
    + reflexivity.
  - eapply Forall_impl; [exact Hc|]. cbn. intros x Hx. now rewrite !Hr.
  - rewrite Hs1. destruct (Nat.eqb e i); reflexivity.
Qed.

(** X12. In its pass of the bullet-enemy loop a bullet damages every
    candidate the quadtree returns for it, not only the first one: when
    no enemy is stored twice, the health of each candidate is lowered by
    the bullet's damage, once, although the first hit already called
    [bullet.kill()]. *)
Theorem X12_bullet_damages_every_candidate (g : Game.t) (b e : nat)
    (s : Sprite) :
  let candidates :=
    QuadTree.query (Game.rect_of g) (Game.quadtree g) (Game.rect_of g b) [] in
  let damage := Bullet.damage (deref (Game.store g) b) in
  List.NoDup (QuadTree.contents (Game.quadtree g)) ->
  In e candidates ->
  Game.store g !! e = Some s ->
  Game.store (Game.bullet_pass g b) !! e
  = Some (set_health (health s - damage)%num s).
Proof.
  cbv zeta. intros Hn He Hs. unfold Game.bullet_pass.
  destruct (query_spec (Game.rect_of g) (Game.rect_of g b) (Game.quadtree g) [])
    as (more & Eq & Hmore).
  assert (Hnd : List.NoDup
                  (QuadTree.query (Game.rect_of g) (Game.quadtree g)
                                  (Game.rect_of g b) [])).
  { destruct (query_sublist (Game.rect_of g) (Game.rect_of g b)
                (Game.quadtree g) []) as (m & -> & S).
    cbn [app]. apply NoDup_ListNoDup. eapply sublist_NoDup; [|exact S].
    apply NoDup_ListNoDup, List.NoDup_filter, Hn. }
  rewrite (bullet_pass_damage b _ g Hnd) with (s := s); [|
    rewrite Eq; cbn [app]; apply List.Forall_forall; intros x Hx;
    apply Hmore, Hx|exact Hs].
  apply group_has_In in He. now rewrite He.
Qed.

Lemma X12_bullet_damages_every_candidate_witness :
  Game.store (Game.bullet_pass scene_two_bullets_indexed 2) !! 0%nat
  = Some (set_health (Int (-9)) (enemy_at Difficulty.EASY 100 100)).
Proof.
  rewrite (X12_bullet_damages_every_candidate scene_two_bullets_indexed 2 0
             (enemy_at Difficulty.EASY 100 100)).
  - reflexivity.
  - vm_compute. repeat constructor; simpl; intuition lia.
  - vm_compute. auto.
  - reflexivity.
Defined.

(** ** The particle system *)

Lemma Particle_eqb_life (p q : ParticleSystem.Particle) :
  ParticleSystem.Particle_eqb p q = true ->
  ParticleSystem.life p = ParticleSystem.life q.
Proof.
  unfold ParticleSystem.Particle_eqb. intros H.
  repeat (apply andb_prop in H; destruct H as [H ?]).
  apply Z.eqb_eq. assumption.
Qed.

Lemma remove_spec (st : list ParticleSystem.Particle) (id : nat)
    (post : list nat) :
  forall pre : list nat,
  Forall (fun j => j <> id
                   /\ ParticleSystem.life (ParticleSystem.deref st j)
                      <> ParticleSystem.life (ParticleSystem.deref st id)) pre
                          ->
  ParticleSystem.remove st id (pre ++ id :: post) = Some (pre ++ post).
Proof.
  induction pre as [|j pre IH]; intros H; cbn [app ParticleSystem.remove].
  - rewrite Nat.eqb_refl. reflexivity.
  - apply List.Forall_cons_iff in H. destruct H as [[Hj Hl] H].
    destruct (Nat.eqb_spec j id) as [|_]; [contradiction|].
    destruct (ParticleSystem.Particle_eqb _ _) eqn:E.
    { apply Particle_eqb_life in E. contradiction. }
    cbn [orb]. rewrite (IH H). reflexivity.
Qed.

Lemma deref_insert (st : list ParticleSystem.Particle) (i j : nat)
    (p : ParticleSystem.Particle) :
  (i < length st)%nat ->
  ParticleSystem.deref (<[i := p]> st) j
  = if Nat.eqb i j then p else ParticleSystem.deref st j.
Proof.
  intros Hi. unfold ParticleSystem.deref.
  destruct (Nat.eqb_spec i j) as [<-|Hn].
  - rewrite list_lookup_insert_eq by exact Hi. reflexivity.
  - rewrite list_lookup_insert_ne by exact Hn. reflexivity.
Qed.

Lemma moved_store_length (l : list nat) :
  forall st, length (moved_store st l) = length st.
Proof.
  induction l as [|i l IH]; intros st; [reflexivity|].
  cbn [moved_store fold_left]. fold (moved_store (<[i:=ParticleSystem.move
      (ParticleSystem.deref st i)]> st) l).
  rewrite IH. apply length_insert.
Qed.

Lemma moved_store_deref (l : list nat) :
  forall st i,
  List.NoDup l -> Forall (fun id => (id < length st)%nat) l ->
  ParticleSystem.deref (moved_store st l) i
  = if group_has i l then ParticleSystem.move (ParticleSystem.deref st i)
    else ParticleSystem.deref st i.
Proof.
  induction l as [|j l IH]; intros st i Hn Hb; [reflexivity|].
  cbn [moved_store fold_left].
  fold (moved_store (<[j:=ParticleSystem.move (ParticleSystem.deref st j)]> st)
      l).
  apply List.NoDup_cons_iff in Hn. destruct Hn as [Hj Hn].
  apply List.Forall_cons_iff in Hb. destruct Hb as [Hjb Hb].
  rewrite IH; [|exact Hn|].
  2:{ eapply Forall_impl; [exact Hb|]. cbn. intros x Hx. rewrite length_insert.
      exact Hx. }
  rewrite !deref_insert by exact Hjb.
  unfold group_has. cbn [existsb]. fold (group_has i l).
  rewrite (Nat.eqb_sym i j).
  destruct (Nat.eqb_spec j i) as [->|Hne]; cbn [orb].
  - destruct (group_has i l) eqn:E; [|reflexivity].
    apply group_has_In in E. contradiction.
  - reflexivity.
Qed.

Lemma moved_store_lookup_other (l : list nat) :
  forall st i, ~ In i l -> moved_store st l !! i = st !! i.
Proof.
  induction l as [|j l IH]; intros st i Hi; [reflexivity|].
  cbn [moved_store fold_left].
  fold (moved_store (<[j:=ParticleSystem.move (ParticleSystem.deref st j)]> st)
      l).
  rewrite IH by (cbn in Hi; tauto).
  apply list_lookup_insert_ne. cbn in Hi. intros ->. tauto.
Qed.

Lemma update_loop_spec (todo : list nat) :
  forall (pre : list nat) (st : list ParticleSystem.Particle),
  List.NoDup todo ->
  Forall (fun id => (id < length st)%nat /\ ~ In id pre) todo ->
  Forall (fun j => 0 < ParticleSystem.life (ParticleSystem.deref st j)) pre ->
  fold_left (fun o id => match o with
                         | Some self => ParticleSystem.update_particle self id
                         | None => None
                         end)
            todo (Some (ParticleSystem.mk st (pre ++ todo)))
  = Some (ParticleSystem.mk (moved_store st todo)
            (pre ++ List.filter (outlives 1 st) todo)).
Proof.
  induction todo as [|id todo IH]; intros pre st Hn Hb Hp; [reflexivity|].
  apply List.NoDup_cons_iff in Hn. destruct Hn as [Hid Hn].
  apply List.Forall_cons_iff in Hb. destruct Hb as [[Hlt Hpre] Hb].
  cbn [fold_left]. unfold ParticleSystem.update_particle at 2.
  cbn [ParticleSystem.store ParticleSystem.particles].
  set (p := ParticleSystem.move (ParticleSystem.deref st id)).
  set (st1 := <[id := p]> st).
  assert (Hd : forall j, j <> id ->
            ParticleSystem.deref st1 j = ParticleSystem.deref st j).
  { intros j Hj. unfold st1. rewrite deref_insert by exact Hlt.
    destruct (Nat.eqb_spec id j); [congruence|reflexivity]. }
  assert (Hdi : ParticleSystem.deref st1 id = p).
  { unfold st1. rewrite deref_insert by exact Hlt. now rewrite Nat.eqb_refl. }
  assert (Hf : List.filter (outlives 1 st1) todo
               = List.filter (outlives 1 st) todo).
  { apply List.filter_ext_in. intros j Hj. unfold outlives.
    rewrite Hd; [reflexivity|]. intros ->. contradiction. }
  assert (Hb1 : forall pre', (forall j, In j pre' -> In j pre \/ j = id) ->
            Forall (fun id0 => (id0 < length st1)%nat /\ ~ In id0 pre') todo).
  { intros pre' Hpre'. apply List.Forall_forall. intros j Hj.
    rewrite List.Forall_forall in Hb. destruct (Hb j Hj) as [Ha Hc].
    split; [unfold st1; rewrite length_insert; exact Ha|].
    intros Hin. destruct (Hpre' j Hin) as [? | ->]; contradiction. }
  assert (Hp1 : Forall (fun j => 0 < ParticleSystem.life (ParticleSystem.deref
      st1 j)) pre).
  { apply List.Forall_forall. intros j Hj.
    rewrite List.Forall_forall in Hp. rewrite Hd; [apply Hp, Hj|].
    intros ->. contradiction. }
  assert (Ho : outlives 1 st id
               = (1 <? ParticleSystem.life (ParticleSystem.deref st id)))
    by reflexivity.
  cbn [List.filter]. rewrite Ho.
  fold p. change (ParticleSystem.life p) with (ParticleSystem.life
      (ParticleSystem.deref st id) - 1).
  destruct (Z.leb_spec (ParticleSystem.life (ParticleSystem.deref st id) - 1) 0)
      as [Hl|Hl].
  - rewrite remove_spec.
    + rewrite (IH pre st1 Hn (Hb1 pre (fun j H => or_introl H)) Hp1).
      rewrite Hf.
      destruct (Z.ltb_spec 1 (ParticleSystem.life (ParticleSystem.deref st
          id))); [lia|].
      reflexivity.
    + apply List.Forall_forall. intros j Hj. split; [intros ->; contradiction|].
      rewrite List.Forall_forall in Hp1. specialize (Hp1 j Hj).
      rewrite Hdi. change (ParticleSystem.life p) with (ParticleSystem.life
          (ParticleSystem.deref st id) - 1). lia.
  - replace (pre ++ id :: todo) with ((pre ++ [id]) ++ todo)
      by (rewrite <- app_assoc; reflexivity).
    rewrite (IH (pre ++ [id]) st1 Hn).
    + rewrite Hf.
      destruct (Z.ltb_spec 1 (ParticleSystem.life (ParticleSystem.deref st
          id))); [|lia].
      rewrite <- app_assoc. reflexivity.
    + apply Hb1. intros j Hj. apply in_app_iff in Hj. cbn in Hj. intuition.
    + apply Forall_app. split; [exact Hp1|]. constructor; [|constructor].
      rewrite Hdi. change (ParticleSystem.life p) with (ParticleSystem.life
          (ParticleSystem.deref st id) - 1). lia.
Qed.

Lemma update_spec (ps : ParticleSystem.t) :
  particles_ok ps ->
  ParticleSystem.update ps
  = Some (ParticleSystem.mk
            (moved_store (ParticleSystem.store ps) (ParticleSystem.particles
                ps))
            (List.filter (outlives 1 (ParticleSystem.store ps))
                         (ParticleSystem.particles ps))).
Proof.
  intros [Hn Hb]. unfold ParticleSystem.update.
  destruct ps as [st l]. cbn [ParticleSystem.store ParticleSystem.particles] in
      *.
  apply (update_loop_spec l [] st Hn).
  - eapply Forall_impl; [exact Hb|]. cbn. intros; tauto.
  - constructor.
Qed.

Lemma update_ok (ps : ParticleSystem.t) :
  particles_ok ps ->
  particles_ok
    (ParticleSystem.mk
       (moved_store (ParticleSystem.store ps) (ParticleSystem.particles ps))
       (List.filter (outlives 1 (ParticleSystem.store ps))
                    (ParticleSystem.particles ps))).
Proof.
  intros [Hn Hb]. split; cbn [ParticleSystem.store ParticleSystem.particles].
  - apply List.NoDup_filter, Hn.
  - apply List.Forall_forall. intros id Hid. apply List.filter_In in Hid.
    rewrite moved_store_length. rewrite List.Forall_forall in Hb.
    apply Hb. tauto.
Qed.

(** X13. [ParticleSystem.update], on a list that names each particle
    once, never raises: it moves every particle by its velocity and
    lowers its life by one, removes exactly the particles whose life is
    then 0 or less and keeps the others in order - also when particles
    have equal values, where [list.remove] could have taken another
    one. *)
Theorem X13_particle_update_removes_the_dead (ps : ParticleSystem.t) :
  let particle id := ParticleSystem.deref (ParticleSystem.store ps) id in
  particles_ok ps ->
  exists ps',
    ParticleSystem.update ps = Some ps'
    /\ ParticleSystem.particles ps'
       = List.filter (fun id => 1 <? ParticleSystem.life (particle id))
                     (ParticleSystem.particles ps)
    /\ (forall id, In id (ParticleSystem.particles ps) ->
          ParticleSystem.deref (ParticleSystem.store ps') id
          = ParticleSystem.move (particle id))
    /\ (forall id, ~ In id (ParticleSystem.particles ps) ->
          ParticleSystem.store ps' !! id = ParticleSystem.store ps !! id)
    /\ particles_ok ps'.
Proof.
  cbv zeta. intros Hok. eexists. split; [apply update_spec, Hok|].
  cbn [ParticleSystem.store ParticleSystem.particles].
  split; [reflexivity|]. destruct Hok as [Hn Hb]. split; [|split].
  - intros id Hid. rewrite moved_store_deref by assumption.
    apply group_has_In in Hid. now rewrite Hid.
  - intros id Hid. apply moved_store_lookup_other, Hid.
  - apply update_ok. split; assumption.
Qed.

Lemma X13_particle_update_removes_the_dead_witness :
  exists ps',
    ParticleSystem.update scene_particles = Some ps'
    /\ ParticleSystem.particles ps' = [2%nat].
Proof.
  destruct (X13_particle_update_removes_the_dead scene_particles)
    as (ps' & E & Hp & _).
  - split; cbn.
    + repeat constructor; cbn; intuition lia.
    + repeat constructor.
  - exists ps'. split; [exact E|]. rewrite Hp. reflexivity.
Defined.

Lemma filter_twice (p q : nat -> bool) (l : list nat) :
  List.filter p (List.filter q l) = List.filter (fun x => q x && p x) l.
Proof.
  induction l as [|x l IH]; [reflexivity|]. cbn [List.filter].
  destruct (q x); cbn [List.filter andb]; [destruct (p x)|]; now rewrite IH.
Qed.

Lemma updates_spec (n : nat) :
  forall ps : ParticleSystem.t,
  particles_ok ps ->
  exists ps',
    particle_updates (S n) ps = Some ps'
    /\ ParticleSystem.particles ps'
       = List.filter (outlives (Z.of_nat (S n)) (ParticleSystem.store ps))
                     (ParticleSystem.particles ps)
    /\ (forall id, In id (ParticleSystem.particles ps') ->
          ParticleSystem.life (ParticleSystem.deref (ParticleSystem.store ps')
              id)
          = ParticleSystem.life
              (ParticleSystem.deref (ParticleSystem.store ps) id)
            - Z.of_nat (S n))
    /\ particles_ok ps'.
Proof.
  induction n as [|n IH]; intros ps Hok.
  - unfold particle_updates. cbn [iterate]. rewrite (update_spec ps Hok).
    eexists. split; [reflexivity|].
    cbn [ParticleSystem.store ParticleSystem.particles].
    split; [reflexivity|]. split; [|apply update_ok, Hok].
    intros id Hid. apply List.filter_In in Hid. destruct Hid as [Hid _].
    destruct Hok as [Hn Hb].
    rewrite moved_store_deref by assumption.
    apply group_has_In in Hid. rewrite Hid. reflexivity.
  - unfold particle_updates. cbn [iterate]. rewrite (update_spec ps Hok).
    set (ps1 := ParticleSystem.mk _ _).
    destruct (IH ps1 (update_ok ps Hok)) as (ps' & E & Hp & Hl & Hok').
    exists ps'. split; [exact E|].
    assert (Hlife : forall id, In id (ParticleSystem.particles ps) ->
              ParticleSystem.life (ParticleSystem.deref (ParticleSystem.store
                  ps1) id)
              = ParticleSystem.life
                  (ParticleSystem.deref (ParticleSystem.store ps) id) - 1).
    { intros id Hid. destruct Hok as [Hn Hb]. unfold ps1.
      cbn [ParticleSystem.store].
      rewrite moved_store_deref by assumption.
      apply group_has_In in Hid. rewrite Hid. reflexivity. }
    split; [|split; [|exact Hok']].
    + rewrite Hp. unfold ps1 at 2. cbn [ParticleSystem.particles].
      rewrite filter_twice.
      apply List.filter_ext_in. intros id Hid. unfold outlives.
      rewrite (Hlife id Hid).
      destruct (Z.ltb_spec (Z.of_nat (S n))
                  (ParticleSystem.life
                     (ParticleSystem.deref (ParticleSystem.store ps) id) - 1));
        destruct (Z.ltb_spec 1
                    (ParticleSystem.life
                       (ParticleSystem.deref (ParticleSystem.store ps) id)));
        destruct (Z.ltb_spec (Z.of_nat (S (S n)))
                    (ParticleSystem.life
                       (ParticleSystem.deref (ParticleSystem.store ps) id)));
        cbn [andb]; try reflexivity; lia.
    + intros id Hid. rewrite (Hl id Hid).
      rewrite Hp in Hid. apply List.filter_In in Hid. destruct Hid as [Hid _].
      unfold ps1 in Hid. cbn [ParticleSystem.particles] in Hid.
      apply List.filter_In in Hid. destruct Hid as [Hid _].
      rewrite (Hlife id Hid). lia.
Qed.

(** X14. After [n + 1] updates the particles left are those whose life
    was above [n + 1], each with its life lowered by [n + 1]; when no
    life exceeds [n + 1], none is left. *)
Theorem X14_particles_live_as_long_as_their_life (n : nat)
    (ps : ParticleSystem.t) :
  let life st id := ParticleSystem.life (ParticleSystem.deref st id) in
  let st := ParticleSystem.store ps in
  particles_ok ps ->
  exists ps',
    particle_updates (S n) ps = Some ps'
    /\ ParticleSystem.particles ps'
       = List.filter (fun id => Z.of_nat (S n) <? life st id)
                     (ParticleSystem.particles ps)
    /\ (forall id, In id (ParticleSystem.particles ps') ->
          life (ParticleSystem.store ps') id = life st id - Z.of_nat (S n))
    /\ (Forall (fun id => life st id <= Z.of_nat (S n))
               (ParticleSystem.particles ps) ->
        ParticleSystem.particles ps' = []).
Proof.
  cbv zeta. intros Hok. destruct (updates_spec n ps Hok) as (ps' & E & Hp & Hl &
      _).
  exists ps'. split; [exact E|]. split; [exact Hp|]. split; [exact Hl|].
  rewrite Hp. clear. generalize (ParticleSystem.particles ps).
  intros l. induction l as [|id l IH]; intros Hall; [reflexivity|].
  apply List.Forall_cons_iff in Hall. destruct Hall as [Hid Hall].
  cbn [List.filter]. unfold outlives at 1.
  destruct (Z.ltb_spec (Z.of_nat (S n))
              (ParticleSystem.life
                 (ParticleSystem.deref (ParticleSystem.store ps) id))); [lia|].
  apply IH, Hall.
Qed.

Lemma X14_particles_live_as_long_as_their_life_witness :
  exists ps',
    particle_updates 40 scene_explosion = Some ps'
    /\ ParticleSystem.particles ps' = [].
Proof.
  destruct (X14_particles_live_as_long_as_their_life 39 scene_explosion)
    as (ps' & E & _ & _ & He).
  - split.
    + vm_compute. repeat constructor; cbn; intuition lia.
    + vm_compute. repeat constructor.
  - exists ps'. split; [exact E|]. apply He.
    vm_compute. repeat constructor; discriminate.
Defined.

Lemma add_particle_spec (x y : num) (color : Z * Z * Z)
    (ps : ParticleSystem.t) (rng : Random.t) :
  let r := ParticleSystem.add_particle x y color ps rng in
  exists p,
    ParticleSystem.store (fst r) = ParticleSystem.store ps ++ [p]
    /\ ParticleSystem.particles (fst r)
       = ParticleSystem.particles ps ++ [length (ParticleSystem.store ps)]
    /\ ParticleSystem.x p = x /\ ParticleSystem.y p = y
    /\ ParticleSystem.color p = color
    /\ 20 <= ParticleSystem.life p <= 40
    /\ 2 <= ParticleSystem.size p <= 5
    /\ Random.raw (snd r) = Random.raw rng
    /\ Random.cursor (snd r) = (Random.cursor rng + 4)%nat.
Proof.
  cbv zeta. unfold ParticleSystem.add_particle, ParticleSystem.uniform,
    ParticleSystem.randint, Random.random, Random.randrange, Random.next.
  cbn. eexists. split; [reflexivity|]. split; [reflexivity|].
  cbn.
  pose proof (Z.mod_pos_bound (Random.raw rng (S (S (Random.cursor rng)))) 21
                ltac:(lia)).
  pose proof (Z.mod_pos_bound (Random.raw rng (S (S (S (Random.cursor rng))))) 4
                ltac:(lia)).
  change (40 + 1 - 20) with 21. change (5 + 1 - 2) with 4.
  repeat apply conj; try reflexivity; lia.
Qed.

(** X15. [add_explosion] appends [count] new particles (none when
    [count] is below 1) at the given position and of the given colour,
    each with a life in [20, 40] and a size in [2, 5], draws four values
    per particle from the generator, and keeps the list free of
    repeats. *)
Theorem X15_add_explosion (x y : num) (color : Z * Z * Z) (count : Z)
    (ps : ParticleSystem.t) (rng : Random.t) :
  let r := ParticleSystem.add_explosion x y color count ps rng in
  let n := Z.to_nat count in
  (exists new,
     ParticleSystem.store (fst r) = ParticleSystem.store ps ++ new
     /\ length new = n
     /\ Forall (fun p =>
                  ParticleSystem.x p = x /\ ParticleSystem.y p = y
                  /\ ParticleSystem.color p = color
                  /\ 20 <= ParticleSystem.life p <= 40
                  /\ 2 <= ParticleSystem.size p <= 5) new)
  /\ ParticleSystem.particles (fst r)
     = ParticleSystem.particles ps ++ seq (length (ParticleSystem.store ps)) n
  /\ Random.cursor (snd r) = (Random.cursor rng + 4 * n)%nat
  /\ (particles_ok ps -> particles_ok (fst r)).
Proof.
  cbv zeta. unfold ParticleSystem.add_explosion.
  generalize (Z.to_nat count). intros n. revert ps rng.
  induction n as [|n IH]; intros ps rng.
  - cbn. split.
    { exists []. rewrite app_nil_r. repeat apply conj; auto. }
    rewrite app_nil_r. repeat apply conj; auto.
  - cbn [ParticleSystem.add_explosion_loop].
    destruct (add_particle_spec x y color ps rng)
      as (p & Hst & Hpa & Hx & Hy & Hc & Hl & Hs & Hraw & Hcur).
    cbv zeta in *.
    destruct (ParticleSystem.add_particle x y color ps rng) as [ps1 rng1].
    cbn [fst snd] in *.
    destruct (IH ps1 rng1) as ((new & Hst' & Hlen & Hall) & Hpa' & Hcur' &
        Hok').
    split; [|split; [|split]].
    + exists (p :: new). rewrite Hst', Hst, <- app_assoc. split; [reflexivity|].
      split; [cbn; now rewrite Hlen|].
      constructor; [auto|exact Hall].
    + rewrite Hpa', Hpa, Hst, length_app, <- app_assoc. cbn.
      now rewrite Nat.add_1_r.
    + rewrite Hcur', Hcur. lia.
    + intros [Hn Hb]. apply Hok'. split.
      * rewrite Hpa. apply List.NoDup_app; [exact Hn|repeat constructor; cbn;
          tauto|].
        intros a Ha [<-|[]]. rewrite List.Forall_forall in Hb.
        specialize (Hb _ Ha). lia.
      * rewrite Hpa, Hst, length_app. cbn. apply Forall_app. split.
        -- eapply Forall_impl; [exact Hb|]. cbn. intros; lia.
        -- repeat constructor. lia.
Qed.

(** ** Starting a game *)

Lemma spawn_loop_all_sprites (n : nat) :
  forall (i : Z) (g : Game.t),
  Forall (fun j => (j < length (Game.store g))%nat) (Game.all_sprites g) ->
  Game.all_sprites (Game.spawn_loop i n g)
  = Game.all_sprites g ++ seq (length (Game.store g)) n.
Proof.
  induction n as [|n IH]; intros i g He; simpl.
  - now rewrite app_nil_r.
  - destruct (spawn_one_spec i g) as (s & Hst & _ & _ & Hen & _).
    rewrite (group_add_fresh _ _ He) in Hen.
    rewrite IH.
    + rewrite Hen, Hst, length_app, <- app_assoc. simpl.
      now rewrite Nat.add_1_r.
    + rewrite Hen, Hst, length_app. simpl.
      apply Forall_app. split.
      * eapply Forall_impl; [exact He|]. simpl. intros; lia.
      * repeat constructor. lia.
Qed.

(** X16. [new_game] starts afresh and keeps the high score and the
    difficulty: the state is Story, the score 0, the level 1, the story
    at its first chapter, the player new; besides the player, the groups
    [enemies] and [all_sprites] hold exactly the first wave, base count
    + 1 sprites created by the call, all of them plain enemies with the
    health of the difficulty (no boss). *)
Theorem X16_new_game_starts_afresh (now : Z) (g : Game.t) :
  let g' := Game.new_game now g in
  let d := Difficulty.value (Game.difficulty g) in
  let count := Z.to_nat (d_enemies d + 1) in
  Game.state g' = GameState.STORY
  /\ Game.score g' = 0 /\ Game.level g' = 1
  /\ Game.high_score g' = Game.high_score g
  /\ Game.difficulty g' = Game.difficulty g
  /\ Game.player g' = Player.init now
  /\ StoryManager.current_chapter (Game.story_manager g') = 0
  /\ Game.enemies g' = seq (length (Game.store g)) count
  /\ Game.all_sprites g' = seq (length (Game.store g)) count
  /\ exists wave,
       Game.store g' = Game.store g ++ wave
       /\ length wave = count
       /\ Forall (fun s => kind s = KEnemy /\ health s = Int (d_health d)) wave.
Proof.
  cbv zeta. unfold Game.new_game, Game.spawn_enemies.
  match goal with
  | |- context [Game.spawn_loop 0 ?n ?x] => set (g0 := x)
  end.
  change (Game.level g0) with 1.
  change (Game.difficulty g0) with (Game.difficulty g).
  set (n := Z.to_nat _).
  destruct (spawn_loop_spec n 0 g0 ltac:(lia))
    as (new & Hst & Hlen & Hok & Hl & Hd & Hs & Hsc & Hh & Hp & Hsm).
  rewrite Hl, Hd, Hs, Hsc, Hh, Hp, Hsm.
  rewrite (spawn_loop_enemies n 0 g0) by constructor.
  rewrite (spawn_loop_all_sprites n 0 g0) by constructor.
  repeat apply conj; try reflexivity.
  exists new. split; [exact Hst|]. split; [exact Hlen|].
  apply List.Forall_forall. intros s Hin.
  apply list_elem_of_In, list_elem_of_lookup in Hin. destruct Hin as [j Hj].
  destruct (Hok j s Hj) as (Hb & _ & Hk).
  change (Game.level g0 mod 5 =? 0) with false in Hb. cbn [andb] in Hb.
  exact (Hk Hb).
Qed.

(** ** The story *)

(** X17. Reading the story: in the Story state with [d + 1] chapters
    left, each of the first [d] presses of the space bar shows the next
    chapter and stays in the Story state; the press after them moves the
    story past its last chapter and switches to the Game state, changing
    nothing else. *)
Theorem X17_story_one_press_per_chapter (now : Z) (d : nat) :
  forall g : Game.t,
  Game.state g = GameState.STORY ->
  StoryManager.current_chapter (Game.story_manager g) + Z.of_nat (S d)
  = Z.of_nat (StoryManager.chapters (Game.story_manager g)) ->
  (forall n, (n <= d)%nat ->
     Game.state (press_space now n g) = GameState.STORY
     /\ StoryManager.current_chapter (Game.story_manager (press_space now n g))
        = StoryManager.current_chapter (Game.story_manager g) + Z.of_nat n)
  /\ press_space now (S d) g
     = Game.set_state GameState.GAME
         (Game.set_story_manager
            (StoryManager.mk
               (StoryManager.chapters (Game.story_manager g))
               (Z.of_nat (StoryManager.chapters (Game.story_manager g))))
            g).
Proof.
  induction d as [|d IH]; intros g Hs Hc.
  - split.
    + intros n Hn. assert (n = 0%nat) as -> by lia. cbn. split; [exact Hs|lia].
    + unfold press_space. cbn [iterate]. unfold Game.run_keydown.
      rewrite Hs. cbn [GameState.eqb andb].
      unfold StoryManager.has_current_story at 1.
      destruct (Z.ltb_spec (StoryManager.current_chapter (Game.story_manager g))
                  (Z.of_nat (StoryManager.chapters (Game.story_manager g))));
        [|lia].
      cbn [negb].
      unfold StoryManager.advance_story, StoryManager.has_current_story.
      cbn [fst Game.story_manager Game.set_story_manager
           StoryManager.current_chapter StoryManager.chapters].
      destruct (Z.ltb_spec
                  (StoryManager.current_chapter (Game.story_manager g) + 1)
                  (Z.of_nat (StoryManager.chapters (Game.story_manager g))));
        [lia|].
      cbn [negb fst]. do 3 f_equal. lia.
  - set (g1 := fst (Game.run_keydown now Game.Key_SPACE g)).
    assert (H1 : g1 = Game.set_story_manager
                        (StoryManager.mk
                           (StoryManager.chapters (Game.story_manager g))
                           (StoryManager.current_chapter (Game.story_manager g)
                               + 1))
                        g).
    { unfold g1, Game.run_keydown.
      rewrite Hs. cbn [GameState.eqb andb].
      unfold StoryManager.has_current_story at 1.
      destruct (Z.ltb_spec (StoryManager.current_chapter (Game.story_manager g))
                  (Z.of_nat (StoryManager.chapters (Game.story_manager g))));
        [|lia].
      cbn [negb].
      unfold StoryManager.advance_story, StoryManager.has_current_story.
      cbn [fst Game.story_manager Game.set_story_manager
           StoryManager.current_chapter StoryManager.chapters].
      destruct (Z.ltb_spec
                  (StoryManager.current_chapter (Game.story_manager g) + 1)
                  (Z.of_nat (StoryManager.chapters (Game.story_manager g))));
        [|lia].
      reflexivity. }
    destruct (IH g1) as [Hn Hlast].
    { rewrite H1. exact Hs. }
    { rewrite H1. cbn [Game.story_manager Game.set_story_manager
           StoryManager.current_chapter StoryManager.chapters]. lia. }
    split.
    + intros [|n] Hle.
      * cbn. split; [exact Hs|lia].
      * change (press_space now (S n) g) with (press_space now n g1).
        destruct (Hn n) as [Ha Hb]; [lia|]. split; [exact Ha|].
        rewrite Hb, H1. cbn [Game.story_manager Game.set_story_manager
           StoryManager.current_chapter StoryManager.chapters]. lia.
    + change (press_space now (S (S d)) g) with (press_space now (S d) g1).
      rewrite Hlast, H1. reflexivity.
Qed.

Lemma X17_story_one_press_per_chapter_witness :
  Game.state (press_space 0 4 (Game.new_game 0 (Game.init sample_rng)))
  = GameState.STORY
  /\ Game.state (press_space 0 5 (Game.new_game 0 (Game.init sample_rng)))
     = GameState.GAME.
Proof.
  destruct (X17_story_one_press_per_chapter 0 4
              (Game.new_game 0 (Game.init sample_rng)))
    as [Hn Hlast]; [reflexivity|reflexivity|].
  split.
  - apply (Hn 4%nat). lia.
  - rewrite Hlast. reflexivity.
Defined.

Lemma update_sprite_story `{Libm} (g : Game.t) (j : nat) :
  Game.story_manager (Game.update_sprite g j) = Game.story_manager g.
Proof. unfold Game.update_sprite. split_tests; reflexivity. Qed.

Lemma boss_attack_story `{Libm} (g : Game.t) (j : nat) :
  Game.story_manager (Game.boss_attack g j) = Game.story_manager g.
Proof. unfold Game.boss_attack. split_tests; reflexivity. Qed.

Lemma bullet_hit_story (b e : nat) (g : Game.t) :
  Game.story_manager (Game.bullet_hit b e g) = Game.story_manager g
  /\ (in_play (Game.state g) = true ->
      in_play (Game.state (Game.bullet_hit b e g)) = true).
Proof. unfold Game.bullet_hit. split_tests; split; auto. Qed.

Lemma player_hit_story (g : Game.t) (h : nat) :
  Game.story_manager (Game.player_hit g h) = Game.story_manager g
  /\ (in_play (Game.state g) = true ->
      in_play (Game.state (Game.player_hit g h)) = true).
Proof.
  unfold Game.player_hit, Game.game_over. split_tests; split; auto.
Qed.

Lemma play_fold {B : Type} (f : Game.t -> B -> Game.t) :
  (forall g b,
     Game.story_manager (f g b) = Game.story_manager g
     /\ (in_play (Game.state g) = true -> in_play (Game.state (f g b)) = true))
         ->
  forall (l : list B) (g : Game.t),
  Game.story_manager (fold_left f l g) = Game.story_manager g
  /\ (in_play (Game.state g) = true ->
      in_play (Game.state (fold_left f l g)) = true).
Proof.
  intros Hf l. induction l as [|b l IH]; intros g; [auto|].
  cbn [fold_left]. destruct (IH (f g b)) as [H1 H2].
  destruct (Hf g b) as [H3 H4]. split; [congruence|auto].
Qed.

Lemma collisions_story (g g' : Game.t) :
  Game.collisions g = Some g' ->
  Game.story_manager g' = Game.story_manager g
  /\ (in_play (Game.state g) = true -> in_play (Game.state g') = true).
Proof.
  intros Hc. destruct (collisions_total g) as (qt & Hq). rewrite Hq in Hc.
  injection Hc as <-.
  assert (H1 : forall g0,
            Game.story_manager (Game.bullet_enemy_collisions g0)
            = Game.story_manager g0
            /\ (in_play (Game.state g0) = true ->
                in_play (Game.state (Game.bullet_enemy_collisions g0)) = true)).
  { intros g0. unfold Game.bullet_enemy_collisions.
    apply (play_fold Game.bullet_pass). intros g1 b. unfold Game.bullet_pass.
    apply (play_fold (fun g2 e => Game.bullet_hit b e g2)).
    intros g2 e. apply bullet_hit_story. }
  assert (H2 : forall g0,
            Game.story_manager (Game.player_enemy_collisions g0)
            = Game.story_manager g0
            /\ (in_play (Game.state g0) = true ->
                in_play (Game.state (Game.player_enemy_collisions g0)) = true)).
  { intros g0. unfold Game.player_enemy_collisions.
    destruct (negb _); [|auto]. unfold Game.spritecollide_kill.
    destruct (play_fold Game.player_hit player_hit_story
                (List.filter
                   (fun e => Rect.colliderect (Player.rect (Game.player g0))
                                              (Game.rect_of g0 e))
                   (Game.enemies g0))
                (fold_left (fun g e => Game.kill e g)
                   (List.filter
                      (fun e => Rect.colliderect (Player.rect (Game.player g0))
                                                 (Game.rect_of g0 e))
                      (Game.enemies g0)) g0)) as [Ha Hb].
    destruct (play_fold (fun g e => Game.kill e g)
                (fun g e => conj (eq_refl : Game.story_manager (Game.kill e g) =
                    Game.story_manager g)
                                 (fun H => H : in_play (Game.state (Game.kill e
                                     g)) = true))
                (List.filter
                      (fun e => Rect.colliderect (Player.rect (Game.player g0))
                                                 (Game.rect_of g0 e))
                      (Game.enemies g0)) g0) as [Hc Hd].
    split; [congruence|auto]. }
  destruct (H1 (Game.set_quadtree qt g)) as [Ha Hb].
  destruct (H2 (Game.bullet_enemy_collisions (Game.set_quadtree qt g)))
    as [Hc Hd].
  split; [rewrite Hc, Ha; reflexivity|].
  intros Hp. apply Hd, Hb, Hp.
Qed.

Lemma level_complete_story (g : Game.t) :
  story_done g ->
  story_done (Game.level_complete g)
  /\ (in_play (Game.state g) = true ->
      in_play (Game.state (Game.level_complete g)) = true).
Proof.
  intros Hd. unfold story_done in *.
  destruct (level_complete_spec g) as (_ & _ & _ & Hc & Hs & Hn & Hv).
  cbv zeta in *.
  set (lvl := Game.level g + 1) in *.
  assert (Hch : StoryManager.chapters (Game.story_manager (Game.level_complete
      g))
                = StoryManager.chapters (Game.story_manager g)).
  { clear. unfold Game.level_complete.
    set (ga := Game.set_player _ (Game.set_level _ g)).
    assert (Ha : Game.story_manager ga = Game.story_manager g) by reflexivity.
    set (gb := if Game.level ga mod 3 =? 0 then _ else ga).
    assert (Hb : Game.story_manager gb = Game.story_manager g).
    { unfold gb. destruct (_ =? 0); [|exact Ha].
      destruct (fold_modify_frame
                  (fun s => set_speed (speed s * Flt 1.1)%num s)
                  (Game.enemies ga) ga) as (_ & _ & _ & _ & _ & _ & _ & Hp & _).
      cbv zeta in Hp. now rewrite Hp. }
    clearbody gb. clear Ha. clearbody ga.
    assert (Hspawn : forall g0, Game.story_manager (Game.spawn_enemies g0)
                                = Game.story_manager g0).
    { intros g0. destruct (spawn_enemies_spec g0) as (_ & _ & _ & _ & _ & _ &
        Hp).
      exact Hp. }
    set (gc := if Game.level gb mod 5 =? 0 then _ else Game.spawn_enemies gb).
    assert (Hc : StoryManager.chapters (Game.story_manager gc)
                 = StoryManager.chapters (Game.story_manager g)).
    { unfold gc. destruct (Game.level gb mod 5 =? 0).
      - unfold StoryManager.advance_story.
        destruct (_ <? _); rewrite ?Hspawn; cbn; now rewrite Hb.
      - now rewrite Hspawn, Hb. }
    clearbody gc.
    destruct (_ >? _); [|exact Hc].
    destruct (victory_frame gc) as (_ & _ & _ & _ & _ & Hv). now rewrite Hv. }
  split.
  - rewrite Hch, Hc. destruct (lvl mod 5 =? 0); lia.
  - intros Hp.
    destruct (Z.ltb_spec 15 lvl) as [Hl|Hl].
    + rewrite (Hv Hl). reflexivity.
    + destruct Hn as [_ Hst].
      * apply andb_false_iff. right. apply Z.ltb_ge. lia.
      * rewrite (Hst Hl). exact Hp.
Qed.

Lemma run_update_story `{Libm} (keys : Keys) (now : Z) (g g' : Game.t) :
  Game.run_update keys now g = Some g' ->
  Game.state g = GameState.GAME -> story_done g ->
  in_play (Game.state g') = true /\ story_done g'.
Proof.
  intros Hu Hs Hd.
  unfold Game.run_update in Hu. rewrite Hs in Hu. cbn [GameState.eqb] in Hu.
  set (g1 := if K_SPACE keys then _ else g) in Hu.
  assert (H1 : Game.story_manager g1 = Game.story_manager g
               /\ Game.state g1 = Game.state g).
  { unfold g1. destruct (K_SPACE keys); [|auto].
    unfold Player.shoot. destruct (_ >? _)%num; auto. }
  clearbody g1. destruct H1 as [H1 H1'].
  set (g2 := Game.bullets_update (Game.all_sprites_update keys g1)) in Hu.
  assert (H2 : Game.story_manager g2 = Game.story_manager g
               /\ Game.state g2 = Game.state g).
  { split.
    - unfold g2, Game.bullets_update.
      rewrite (fold_left_preserves Game.story_manager)
        by apply update_sprite_story.
      unfold Game.all_sprites_update.
      rewrite (fold_left_preserves Game.story_manager)
        by apply update_sprite_story.
      exact H1.
    - pose proof (bullets_update_meta (Game.all_sprites_update keys g1)) as Ha.
      pose proof (all_sprites_update_meta keys g1) as Hb.
      unfold meta in Ha, Hb. fold g2 in Ha. congruence. }
  clearbody g2. destruct H2 as [H2 H2'].
  unfold Game.check_collisions in Hu.
  destruct (Game.collisions g2) as [g3|] eqn:Hc; [|discriminate].
  destruct (collisions_story _ _ Hc) as [H3 H3'].
  assert (H3d : story_done g3).
  { unfold story_done. rewrite H3, H2. exact Hd. }
  assert (H3p : in_play (Game.state g3) = true).
  { apply H3'. rewrite H2', Hs. reflexivity. }
  injection Hu as <-.
  pose proof (boss_attacks_meta (Game.level_completion_check g3)) as Hm.
  unfold meta in Hm.
  assert (Hst : Game.state (Game.boss_attacks (Game.level_completion_check g3))
                = Game.state (Game.level_completion_check g3)) by congruence.
  assert (Hsm : Game.story_manager
                  (Game.boss_attacks (Game.level_completion_check g3))
                = Game.story_manager (Game.level_completion_check g3)).
  { unfold Game.boss_attacks.
    apply (fold_left_preserves Game.story_manager), boss_attack_story. }
  unfold story_done. rewrite Hst, Hsm.
  unfold Game.level_completion_check.
  destruct (_ =? _)%nat.
  - destruct (level_complete_story g3 H3d) as [Ha Hb]. split; [auto|exact Ha].
  - split; [exact H3p|exact H3d].
Qed.

Lemma run_keydown_story (now : Z) (key : Game.Key) (g : Game.t) :
  story_inv g -> story_inv (fst (Game.run_keydown now key g)).
Proof.
  intros Hi.
  assert (Hnew : forall g0, story_inv (Game.new_game now g0)).
  { intros g0 [E|E]; destruct (new_game_spec now g0) as [Hs _];
      rewrite Hs in E; discriminate. }
  unfold Game.run_keydown.
  destruct (GameState.eqb (Game.state g) GameState.MENU) eqn:Em.
  { destruct key; cbn [fst]; auto. }
  destruct (GameState.eqb (Game.state g) GameState.STORY
            && match key with Game.Key_SPACE => true | _ => false end) eqn:Es.
  { unfold StoryManager.has_current_story at 1.
    destruct (Z.ltb_spec
                (StoryManager.current_chapter (Game.story_manager g))
                (Z.of_nat (StoryManager.chapters (Game.story_manager g))))
      as [Hl|Hl]; cbn [negb fst].
    - unfold StoryManager.has_current_story, StoryManager.advance_story.
      cbn [fst Game.story_manager Game.set_story_manager
           StoryManager.current_chapter StoryManager.chapters].
      destruct (Z.ltb_spec
                  (StoryManager.current_chapter (Game.story_manager g) + 1)
                  (Z.of_nat (StoryManager.chapters (Game.story_manager g))))
        as [Hl'|Hl']; cbn [negb fst].
      + intros [E|E]; apply andb_prop in Es; destruct Es as [Es _];
          cbn in E; rewrite E in Es; discriminate.
      + intros _. unfold story_done. cbn. exact Hl'.
    - intros _. unfold story_done. cbn. exact Hl. }
  destruct (GameState.eqb (Game.state g) GameState.UPGRADE) eqn:Eu.
  { assert (Hd : story_done g).
    { apply Hi. right. destruct (Game.state g); try discriminate; reflexivity. }
    destruct key; cbn [fst]; auto; intros _; exact Hd. }
  destruct key; cbn [fst]; auto.
  - destruct (Game.over_or_victory _); [intros [E|E]; discriminate|].
    destruct (GameState.eqb _ GameState.GAME); [intros [E|E];
        discriminate|auto].
  - destruct (GameState.eqb _ GameState.GAME); [|exact Hi].
    unfold Player.shoot. destruct (_ >? _)%num; exact Hi.
  - destruct (Game.over_or_victory _); [apply Hnew|exact Hi].
  - destruct (GameState.eqb _ GameState.GAME); exact Hi.
Qed.

Lemma events_story (events : list (Z * Game.Event)) :
  forall (g : Game.t) (running : bool),
  story_inv g ->
  story_inv
    (fst (fold_left
            (fun '(g, running) '(now, e) =>
               let '(g, r) := Game.run_event now e g in (g, running && r))
            events (g, running))).
Proof.
  induction events as [|[now e] events IH]; intros g running Hi; [exact Hi|].
  cbn [fold_left].
  destruct (Game.run_event now e g) as [g1 r] eqn:E.
  apply IH.
  change g1 with (fst (g1, r)). rewrite <- E.
  destruct e; cbn [Game.run_event fst]; [exact Hi| |exact Hi].
  apply run_keydown_story, Hi.
Qed.

(** X18. An invariant of the main loop: whenever the state is Game or
    Upgrade, every chapter of the story has been shown. Every round of
    the loop (events, update, rendering) returns and keeps it. *)
Theorem X18_story_is_over_while_playing `{Libm}
    (events : list (Z * Game.Event)) (keys : Keys) (now : Z) (g : Game.t) :
  story_inv g ->
  exists g' running,
    Game.run_frame events keys now g = Some (g', running) /\ story_inv g'.
Proof.
  intros Hi.
  destruct (frame_total events keys now g) as (g' & running & Hf).
  exists g', running. split; [exact Hf|].
  unfold Game.run_frame in Hf.
  pose proof (events_story events g true Hi) as He.
  destruct (fold_left _ events (g, true)) as [g1 r1]. cbn [fst] in He.
  destruct (Game.run_update keys now g1) as [g2|] eqn:Hu; [|discriminate].
  injection Hf as <- <-.
  assert (H2 : story_inv g2).
  { destruct (GameState.eqb (Game.state g1) GameState.GAME) eqn:Eg.
    - assert (Hs : Game.state g1 = GameState.GAME).
      { destruct (Game.state g1); try discriminate; reflexivity. }
      destruct (run_update_story keys now g1 g2 Hu Hs (He (or_introl Hs)))
        as [_ Hd].
      intros _. exact Hd.
    - unfold Game.run_update in Hu. rewrite Eg in Hu. injection Hu as <-.
      exact He. }
  unfold Game.run_render.
  destruct (GameState.eqb (Game.state g2) GameState.STORY) eqn:Es;
    cbn [andb]; [|exact H2].
  unfold StoryManager.has_current_story.
  destruct (Z.ltb_spec
              (StoryManager.current_chapter (Game.story_manager g2))
              (Z.of_nat (StoryManager.chapters (Game.story_manager g2))))
    as [Hl|Hl]; cbn [negb]; [exact H2|].
  intros _. exact Hl.
Qed.

Lemma X18_story_is_over_while_playing_witness :
  exists g' running,
    @Game.run_frame sample_libm [] no_keys 0 scene_level_4_cleared
    = Some (g', running)
    /\ Game.state g' = GameState.GAME
    /\ story_done g'.
Proof.
  destruct (@X18_story_is_over_while_playing sample_libm [] no_keys 0
              scene_level_4_cleared) as (g' & running & Hf & Hi).
  - intros _. vm_compute. discriminate.
  - exists g', running. split; [exact Hf|].
    assert (Hs : Game.state g' = GameState.GAME).
    { vm_compute in Hf. injection Hf as <- _. reflexivity. }
    split; [exact Hs|]. apply Hi. left. exact Hs.
Defined.

(** X19. The update block never goes back to the story: from the Game
    state with the story shown to its end, [run_update] returns in one
    of the states Game, Upgrade, Game-over and Victory, the story still
    at its end - the branch of [level_complete] that switches to the
    Story state is not taken. *)
Theorem X19_update_never_returns_to_story `{Libm} (keys : Keys) (now : Z)
    (g : Game.t) :
  Game.state g = GameState.GAME -> story_done g ->
  exists g', Game.run_update keys now g = Some g'
             /\ in_play (Game.state g') = true
             /\ story_done g'.
Proof.
  intros Hs Hd.
  destruct (update_total keys now g) as (g' & Hu). exists g'.
  split; [exact Hu|]. exact (run_update_story keys now g g' Hu Hs Hd).
Qed.

Lemma X19_update_never_returns_to_story_witness :
  exists g',
    @Game.run_update sample_libm no_keys 0 scene_level_4_cleared = Some g'
    /\ Game.level g' = 5
    /\ Game.state g' = GameState.GAME.
Proof.
  destruct (@X19_update_never_returns_to_story sample_libm no_keys 0
              scene_level_4_cleared) as (g' & Hu & _).
  - reflexivity.
  - vm_compute. discriminate.
  - exists g'. split; [exact Hu|].
    vm_compute in Hu. injection Hu as <-. split; reflexivity.
Defined.

(** ** The score and the high score *)

Lemma bullet_hit_scored (b e : nat) (g : Game.t) :
  exists k, 0 <= k /\ scored k (Game.bullet_hit b e g) g.
Proof.
  unfold Game.bullet_hit, scored.
  destruct (Rect.colliderect _ _); [|exists 0; lia].
  destruct (_ <=? _)%num; [|exists 0; cbn; lia].
  destruct (Random.random _) as [r rng].
  match goal with
  | |- context [if is_boss ?s then 5 else 1] => destruct (is_boss s)
  end.
  - exists 5. split; [lia|]. destruct (_ <? _)%float; reflexivity.
  - exists 1. split; [lia|]. destruct (_ <? _)%float; reflexivity.
Qed.

Lemma scored_fold {B : Type} (f : Game.t -> B -> Game.t) :
  (forall g b, exists k, 0 <= k /\ scored k (f g b) g) ->
  forall (l : list B) (g : Game.t),
  exists k, 0 <= k /\ scored k (fold_left f l g) g.
Proof.
  intros Hf l. induction l as [|b l IH]; intros g.
  - exists 0. unfold scored. cbn. lia.
  - cbn [fold_left]. destruct (IH (f g b)) as (k1 & H1 & E1).
    destruct (Hf g b) as (k2 & H2 & E2).
    exists (k1 + k2). unfold scored in *. split; lia.
Qed.

Lemma level_complete_score (g : Game.t) :
  Game.score (Game.level_complete g) = Game.score g.
Proof.
  unfold Game.level_complete.
  set (ga := Game.set_player _ (Game.set_level _ g)).
  assert (Ha : Game.score ga = Game.score g) by reflexivity.
  set (gb := if Game.level ga mod 3 =? 0 then _ else ga).
  assert (Hb : Game.score gb = Game.score g).
  { unfold gb. destruct (_ =? 0); [|exact Ha].
    destruct (fold_modify_frame
                (fun s => set_speed (speed s * Flt 1.1)%num s)
                (Game.enemies ga) ga) as (_ & Hp & _).
    cbv zeta in Hp. now rewrite Hp. }
  clearbody gb. clear Ha. clearbody ga.
  assert (Hspawn : forall g0, Game.score (Game.spawn_enemies g0)
                              = Game.score g0).
  { intros g0. destruct (spawn_enemies_spec g0) as (_ & _ & _ & Hp & _).
    exact Hp. }
  set (gc := if Game.level gb mod 5 =? 0 then _ else Game.spawn_enemies gb).
  assert (Hc : Game.score gc = Game.score g).
  { unfold gc. destruct (Game.level gb mod 5 =? 0).
    - destruct (StoryManager.advance_story _) as [sm more]. destruct more.
      + exact Hb.
      + now rewrite Hspawn.
    - now rewrite Hspawn. }
  clearbody gc.
  destruct (_ >? _); [|exact Hc].
  destruct (victory_spec gc) as (_ & Hv & _). now rewrite Hv.
Qed.

Lemma run_update_scored `{Libm} (keys : Keys) (now : Z) (g g' : Game.t) :
  Game.run_update keys now g = Some g' ->
  exists k, 0 <= k /\ scored k g' g.
Proof.
  intros Hu. unfold Game.run_update in Hu.
  destruct (GameState.eqb _ _);
    [|injection Hu as <-; exists 0; unfold scored; lia].
  set (g1 := if K_SPACE keys then _ else g) in Hu.
  assert (H1 : Game.score g1 = Game.score g).
  { unfold g1. destruct (K_SPACE keys); [|reflexivity].
    unfold Player.shoot. destruct (_ >? _)%num; reflexivity. }
  clearbody g1.
  set (g2 := Game.bullets_update (Game.all_sprites_update keys g1)) in Hu.
  assert (H2 : Game.score g2 = Game.score g).
  { pose proof (bullets_update_meta (Game.all_sprites_update keys g1)) as Ha.
    pose proof (all_sprites_update_meta keys g1) as Hb.
    unfold meta in Ha, Hb. fold g2 in Ha. congruence. }
  clearbody g2.
  unfold Game.check_collisions in Hu.
  destruct (collisions_total g2) as (qt & Hq). rewrite Hq in Hu.
  injection Hu as <-.
  set (g3 := Game.set_quadtree qt g2).
  destruct (scored_fold Game.bullet_pass
              (fun g0 b => scored_fold (fun g2 e => Game.bullet_hit b e g2)
                             (fun g2 e => bullet_hit_scored b e g2) _ g0)
              (Player.bullets (Game.player g3)) g3) as (k & Hk & Ek).
  fold (Game.bullet_enemy_collisions g3) in Ek.
  set (g4 := Game.bullet_enemy_collisions g3) in *.
  assert (H5 : Game.score (Game.player_enemy_collisions g4) = Game.score g4).
  { unfold Game.player_enemy_collisions.
    destruct (negb _); [|reflexivity]. unfold Game.spritecollide_kill.
    match goal with
    | |- context [fold_left Game.player_hit ?l ?x] =>
        destruct (fold_player_hit_spec l x) as (_ & _ & _ & _ & Hs & _);
        destruct (fold_kill_spec l g4) as (_ & _ & _ & Hs' & _)
    end.
    cbv zeta in Hs, Hs'. now rewrite Hs, Hs'. }
  set (g5 := Game.player_enemy_collisions g4) in *.
  assert (H6 : Game.score (Game.level_completion_check g5) = Game.score g5).
  { unfold Game.level_completion_check.
    destruct (_ =? _)%nat; [apply level_complete_score|reflexivity]. }
  pose proof (boss_attacks_meta (Game.level_completion_check g5)) as Hm.
  unfold meta in Hm.
  exists k. split; [exact Hk|]. unfold scored in *.
  assert (Game.score (Game.boss_attacks (Game.level_completion_check g5))
          = Game.score (Game.level_completion_check g5)) by congruence.
  change (Game.score g3) with (Game.score g2) in Ek. lia.
Qed.

(** X20. One run of the update block returns and changes the score by
    a non-negative multiple of 10. *)
Theorem X20_score_grows_by_tens `{Libm} (keys : Keys) (now : Z) (g : Game.t) :
  exists g' k,
    Game.run_update keys now g = Some g'
    /\ 0 <= k /\ Game.score g' = Game.score g + 10 * k.
Proof.
  destruct (update_total keys now g) as (g' & Hu).
  destruct (run_update_scored keys now g g' Hu) as (k & Hk & Ek).
  exists g', k. auto.
Qed.

(** X21. In a round of the main loop the high score never decreases,
    and when it changes it becomes the score at the end of the round. *)
Theorem X21_high_score_never_drops `{Libm} (events : list (Z * Game.Event))
    (keys : Keys) (now : Z) (g : Game.t) :
  exists g' running,
    Game.run_frame events keys now g = Some (g', running)
    /\ Game.high_score g <= Game.high_score g'
    /\ (Game.high_score g' = Game.high_score g
        \/ Game.high_score g' = Game.score g').
Proof.
  destruct (frame_total events keys now g) as (g' & running & Hf).
  exists g', running. split; [exact Hf|].
  unfold Game.run_frame in Hf.
  destruct (events_high_score events g true) as [He _]. cbv zeta in He.
  destruct (fold_left _ events (g, true)) as [g1 r1]. cbn [fst] in He.
  destruct (Game.run_update keys now g1) as [g2|] eqn:Hu; [|discriminate].
  injection Hf as <- <-.
  destruct (render_spec g2) as (Hrs & Hrh & _). rewrite Hrh, Hrs.
  destruct (Game.over_or_victory (Game.state g1)) eqn:Eo.
  - unfold Game.run_update in Hu.
    assert (Eg : GameState.eqb (Game.state g1) GameState.GAME = false).
    { destruct (Game.state g1); try reflexivity; discriminate. }
    rewrite Eg in Hu. injection Hu as <-. rewrite He. split; [lia|auto].
  - destruct (update_high_score_ok keys now g1 g2 Eo Hu) as [[_ E]|E];
      rewrite E, He; [split; [lia|auto]|].
    split; [lia|]. destruct (Z.max_spec (Game.score g2) (Game.high_score g));
      [left|right]; lia.
Qed.

(** ** Invariants of the groups and of the player's health *)

Lemma In_group_remove (i j : nat) (l : list nat) :
  In j (group_remove i l) <-> In j l /\ j <> i.
Proof.
  unfold group_remove. rewrite List.filter_In.
  destruct (Nat.eqb_spec i j); cbn; intuition congruence.
Qed.

Lemma groups_ok_kill (i : nat) (es al bs : list nat) (n : nat) :
  groups_ok_at es al bs n ->
  groups_ok_at (group_remove i es) (group_remove i al) (group_remove i bs) n.
Proof.
  intros (H1 & H2 & H3 & H4 & H5 & H6). unfold groups_ok_at.
  repeat apply conj; try (apply List.NoDup_filter; assumption).
  - intros j Hj. apply In_group_remove in Hj. apply In_group_remove.
    split; [apply H4|]; tauto.
  - intros j Hj. apply In_group_remove in Hj. apply H5. tauto.
  - intros j Hj. apply In_group_remove in Hj. destruct Hj as [Hj Hn].
    destruct (H6 j Hj) as [Ha Hb]. split; [exact Ha|].
    intros Hc. apply In_group_remove in Hc. tauto.
Qed.

Lemma In_group_add (i j : nat) (l : list nat) :
  In j (group_add i l) <-> In j l \/ j = i.
Proof.
  unfold group_add. destruct (group_has i l) eqn:E.
  - apply group_has_In in E. split; [tauto|]. intros [H| ->]; assumption.
  - rewrite in_app_iff. cbn. intuition congruence.
Qed.

Lemma NoDup_group_add (i : nat) (l : list nat) :
  List.NoDup l -> List.NoDup (group_add i l).
Proof.
  intros H. unfold group_add. destruct (group_has i l) eqn:E; [exact H|].
  apply List.NoDup_app; [exact H|repeat constructor; cbn; tauto|].
  intros a Ha [<- |[]]. apply group_has_In in Ha. congruence.
Qed.

Lemma groups_ok_grow (es al bs : list nat) (n m : nat) :
  (n <= m)%nat -> groups_ok_at es al bs n -> groups_ok_at es al bs m.
Proof.
  intros Hle (H1 & H2 & H3 & H4 & H5 & H6). unfold groups_ok_at.
  repeat apply conj; try assumption.
  - intros i Hi. specialize (H5 i Hi). lia.
  - intros i Hi. destruct (H6 i Hi). split; [lia|assumption].
Qed.

Lemma groups_ok_spawn (es al bs : list nat) (n : nat) :
  groups_ok_at es al bs n ->
  groups_ok_at (group_add n es) (group_add n al) bs (S n).
Proof.
  intros (H1 & H2 & H3 & H4 & H5 & H6). unfold groups_ok_at.
  repeat apply conj; try (apply NoDup_group_add; assumption); try assumption.
  - intros i Hi. apply In_group_add in Hi. apply In_group_add.
    destruct Hi; [left; auto|right; assumption].
  - intros i Hi. apply In_group_add in Hi. destruct Hi as [Hi| ->]; [|lia].
    specialize (H5 i Hi). lia.
  - intros i Hi. destruct (H6 i Hi) as [Ha Hb]. split; [lia|].
    intros Hc. apply In_group_add in Hc. destruct Hc as [Hc| ->]; [tauto|lia].
Qed.

Lemma groups_ok_shoot (es al bs : list nat) (n : nat) :
  groups_ok_at es al bs n -> groups_ok_at es al (group_add n bs) (S n).
Proof.
  intros (H1 & H2 & H3 & H4 & H5 & H6). unfold groups_ok_at.
  repeat apply conj; try (apply NoDup_group_add; assumption); try assumption.
  - intros i Hi. specialize (H5 i Hi). lia.
  - intros i Hi. apply In_group_add in Hi. destruct Hi as [Hi| ->].
    + destruct (H6 i Hi). split; [lia|assumption].
    + split; [lia|]. intros Hc. specialize (H5 _ Hc). lia.
Qed.

Lemma keeps_refl (g : Game.t) : keeps g g.
Proof. split; auto. Qed.

Lemma keeps_trans (g1 g2 g3 : Game.t) :
  keeps g1 g2 -> keeps g2 g3 -> keeps g1 g3.
Proof. intros [A B] [C D]. split; auto. Qed.

Lemma keeps_fold {B : Type} (f : Game.t -> B -> Game.t) :
  (forall g b, keeps (f g b) g) ->
  forall (l : list B) (g : Game.t), keeps (fold_left f l g) g.
Proof.
  intros Hf l. induction l as [|b l IH]; intros g; [apply keeps_refl|].
  cbn [fold_left]. eapply keeps_trans; [apply IH|apply Hf].
Qed.

(** Code that leaves the groups, the size of the store and the player's
    health fields alone. *)
Lemma keeps_same (g' g : Game.t) :
  Game.enemies g' = Game.enemies g ->
  Game.all_sprites g' = Game.all_sprites g ->
  Player.bullets (Game.player g') = Player.bullets (Game.player g) ->
  length (Game.store g') = length (Game.store g) ->
  Player.health (Game.player g') = Player.health (Game.player g) ->
  Player.max_health (Game.player g') = Player.max_health (Game.player g) ->
  keeps g' g.
Proof.
  intros A B C D E F. unfold keeps, groups_ok, health_ok.
  rewrite A, B, C, D, E, F. auto.
Qed.

Lemma keeps_kill (i : nat) (g : Game.t) : keeps (Game.kill i g) g.
Proof.
  split.
  - intros H. apply (groups_ok_kill i) in H. exact H.
  - auto.
Qed.

Lemma keeps_modify (e : nat) (f : Sprite -> Sprite) (g : Game.t) :
  keeps (Game.modify e f g) g.
Proof.
  destruct (modify_frame e f g) as (_ & _ & _ & _ & Hp & He & Ha & _ & _ & Hl).
  apply keeps_same; try assumption; now rewrite Hp.
Qed.

Lemma keeps_update_sprite `{Libm} (g : Game.t) (i : nat) :
  keeps (Game.update_sprite g i) g.
Proof.
  unfold Game.update_sprite.
  destruct (kind (deref (Game.store g) i)).
  - destruct (Enemy.update _ _) as [s rng].
    apply keeps_same; try reflexivity. cbn. apply length_insert.
  - apply keeps_same; try reflexivity. cbn. apply length_insert.
  - destruct (Bullet.update _) as [s killed].
    assert (H0 : keeps (Game.set_store (<[i:=s]> (Game.store g)) g) g).
    { apply keeps_same; try reflexivity. cbn. apply length_insert. }
    destruct killed; [|exact H0].
    eapply keeps_trans; [apply keeps_kill|exact H0].
Qed.

Lemma keeps_boss_attack `{Libm} (g : Game.t) (j : nat) :
  keeps (Game.boss_attack g j) g.
Proof.
  unfold Game.boss_attack.
  destruct (is_boss _); [|apply keeps_refl].
  destruct (Boss.update _) as [s fire].
  assert (H0 : keeps (Game.set_store (<[j:=s]> (Game.store g)) g) g).
  { apply keeps_same; try reflexivity. cbn. apply length_insert. }
  destruct fire; [|exact H0].
  eapply keeps_trans; [|exact H0].
  set (g1 := Game.set_store _ g). unfold alloc.
  split; [|auto].
  intros Hg. unfold groups_ok in *. cbn. rewrite length_app. cbn.
  rewrite Nat.add_1_r. apply groups_ok_spawn, Hg.
Qed.

Lemma keeps_bullet_hit (b e : nat) (g : Game.t) :
  keeps (Game.bullet_hit b e g) g.
Proof.
  unfold Game.bullet_hit.
  destruct (Rect.colliderect _ _); [|apply keeps_refl].
  set (g1 := Game.kill b (Game.modify e _ g)).
  assert (H1 : keeps g1 g).
  { eapply keeps_trans; [apply keeps_kill|apply keeps_modify]. }
  destruct (_ <=? _)%num; [|exact H1].
  destruct (Random.random _) as [r rng].
  eapply keeps_trans; [|exact H1].
  assert (H2 : keeps (Game.kill e (Game.set_score
              (Game.score g1 + 10 * (if is_boss (deref (Game.store g1) e) then 5
                  else 1)) g1)) g1).
  { eapply keeps_trans; [apply keeps_kill|]. apply keeps_same; reflexivity. }
  destruct (_ <? _)%float; (eapply keeps_trans; [|exact H2]);
    apply keeps_same; reflexivity.
Qed.

Lemma keeps_player_hit (g : Game.t) (h : nat) : keeps (Game.player_hit g h) g.
Proof.
  unfold Game.player_hit, Game.game_over.
  split.
  - intros Hg. split_tests; exact Hg.
  - unfold health_ok. intros Hh. split_tests; cbn; lia.
Qed.

Lemma keeps_spawn_one (i : Z) (g : Game.t) : keeps (Game.spawn_one i g) g.
Proof.
  destruct (spawn_one_spec i g)
    as (s & Hst & _ & He & Ha & _ & _ & _ & _ & _ & Hp & _).
  split.
  - intros Hg. unfold groups_ok in *. rewrite He, Ha, Hp, Hst, length_app.
    cbn. rewrite Nat.add_1_r. apply groups_ok_spawn, Hg.
  - unfold health_ok. now rewrite Hp.
Qed.

Lemma keeps_spawn_loop (n : nat) :
  forall (i : Z) (g : Game.t), keeps (Game.spawn_loop i n g) g.
Proof.
  induction n as [|n IH]; intros i g; [apply keeps_refl|].
  cbn [Game.spawn_loop]. eapply keeps_trans; [apply IH|apply keeps_spawn_one].
Qed.

Lemma keeps_victory (g : Game.t) : keeps (Game.victory g) g.
Proof.
  destruct (victory_frame g) as (He & Ha & Hs & _ & Hp & _).
  apply keeps_same; try assumption; now rewrite ?Hp, ?Hs.
Qed.

Lemma keeps_level_complete (g : Game.t) : keeps (Game.level_complete g) g.
Proof.
  unfold Game.level_complete.
  set (ga := Game.set_player _ (Game.set_level _ g)).
  assert (Ha : keeps ga g).
  { split; [auto|]. unfold health_ok, ga. cbn. lia. }
  set (gb := if Game.level ga mod 3 =? 0 then _ else ga).
  assert (Hb : keeps gb g).
  { unfold gb. destruct (_ =? 0); [|exact Ha].
    eapply keeps_trans; [|exact Ha]. apply keeps_fold.
    intros g0 e. apply keeps_modify. }
  clearbody gb. clear Ha. clearbody ga.
  set (gc := if Game.level gb mod 5 =? 0 then _ else Game.spawn_enemies gb).
  assert (Hc : keeps gc g).
  { unfold gc. destruct (Game.level gb mod 5 =? 0).
    - destruct (StoryManager.advance_story _) as [sm more]. destruct more.
      + eapply keeps_trans; [|exact Hb]. apply keeps_same; reflexivity.
      + eapply keeps_trans; [apply keeps_spawn_loop|].
        eapply keeps_trans; [|exact Hb]. apply keeps_same; reflexivity.
    - eapply keeps_trans; [apply keeps_spawn_loop|exact Hb]. }
  clearbody gc.
  destruct (_ >? _); [|exact Hc].
  eapply keeps_trans; [apply keeps_victory|exact Hc].
Qed.

Lemma keeps_check_collisions (g g' : Game.t) :
  Game.check_collisions g = Some g' -> keeps g' g.
Proof.
  intros Hcc. unfold Game.check_collisions in Hcc.
  destruct (collisions_total g) as (qt & Hq). rewrite Hq in Hcc.
  injection Hcc as <-.
  assert (H0 : keeps (Game.set_quadtree qt g) g).
  { apply keeps_same; reflexivity. }
  assert (H1 : forall g0, keeps (Game.bullet_enemy_collisions g0) g0).
  { intros g0. unfold Game.bullet_enemy_collisions.
    apply keeps_fold. intros g1 b. unfold Game.bullet_pass.
    apply (keeps_fold (fun g2 e => Game.bullet_hit b e g2)).
    intros g2 e. apply keeps_bullet_hit. }
  assert (H2 : forall g0, keeps (Game.player_enemy_collisions g0) g0).
  { intros g0. unfold Game.player_enemy_collisions.
    destruct (negb _); [|apply keeps_refl]. unfold Game.spritecollide_kill.
    eapply keeps_trans; [apply keeps_fold, keeps_player_hit|].
    apply (keeps_fold (fun g e => Game.kill e g)).
    intros g1 e. apply keeps_kill. }
  assert (H3 : forall g0, keeps (Game.level_completion_check g0) g0).
  { intros g0. unfold Game.level_completion_check.
    destruct (_ =? _)%nat; [apply keeps_level_complete|apply keeps_refl]. }
  eapply keeps_trans; [apply H3|].
  eapply keeps_trans; [apply H2|].
  eapply keeps_trans; [apply H1|exact H0].
Qed.

Lemma keeps_shoot (now : Z) (g : Game.t) :
  keeps (let '(_, p, st) := Player.shoot now (Game.player g) (Game.store g) in
         Game.set_store st (Game.set_player p g)) g.
Proof.
  unfold Player.shoot. destruct (_ >? _)%num.
  - unfold alloc. split; [|auto].
    intros Hg. unfold groups_ok in *. cbn. rewrite length_app. cbn.
    rewrite Nat.add_1_r. apply groups_ok_shoot, Hg.
  - apply keeps_same; reflexivity.
Qed.

Lemma keeps_run_update `{Libm} (keys : Keys) (now : Z) (g g' : Game.t) :
  Game.run_update keys now g = Some g' -> keeps g' g.
Proof.
  intros Hu. unfold Game.run_update in Hu.
  destruct (GameState.eqb _ _);
    [|injection Hu as <-; apply keeps_refl].
  set (g1 := if K_SPACE keys then _ else g) in Hu.
  assert (H1 : keeps g1 g).
  { unfold g1. destruct (K_SPACE keys); [apply keeps_shoot|apply keeps_refl]. }
  clearbody g1.
  destruct (Game.check_collisions _) as [g3|] eqn:Hcc; [|discriminate].
  injection Hu as <-.
  eapply keeps_trans; [apply keeps_fold, keeps_boss_attack|].
  eapply keeps_trans; [apply (keeps_check_collisions _ _ Hcc)|].
  eapply keeps_trans; [apply keeps_fold, keeps_update_sprite|].
  eapply keeps_trans; [apply keeps_fold, keeps_update_sprite|].
  eapply keeps_trans; [|exact H1].
  apply keeps_same; try reflexivity.
  - cbn. apply Player_update_bullets.
  - cbn. unfold Player.update. split_tests; reflexivity.
  - cbn. unfold Player.update. split_tests; reflexivity.
Qed.

Lemma groups_ok_empty (n : nat) : groups_ok_at [] [] [] n.
Proof.
  unfold groups_ok_at.
  split; [apply List.NoDup_nil|]. split; [apply List.NoDup_nil|].
  split; [apply List.NoDup_nil|].
  split; [intros i []|]. split; intros i [].
Qed.

Lemma new_game_ok (now : Z) (g : Game.t) :
  groups_ok (Game.new_game now g) /\ health_ok (Game.new_game now g).
Proof.
  unfold Game.new_game.
  match goal with
  | |- context [Game.spawn_enemies ?x] => set (g0 := x)
  end.
  destruct (keeps_spawn_loop
              (Z.to_nat (d_enemies (Difficulty.value (Game.difficulty g0))
                         + Game.level g0)) 0 g0) as [Hg Hh].
  split.
  - apply Hg. apply groups_ok_empty.
  - apply Hh. unfold health_ok. cbn. lia.
Qed.

Lemma keeps_apply_upgrade (u : Game.UpgradeType) (g : Game.t) :
  keeps (Game.apply_upgrade u g) g.
Proof.
  unfold Game.apply_upgrade, Player.activate_shield.
  destruct u; cbn [Game.player Game.set_player Player.upgrades
                   Player.set_upgrades Player.u_shield];
    try (apply keeps_same; reflexivity).
  destruct (_ >? _)%num; apply keeps_same; reflexivity.
Qed.

Lemma keeps_run_keydown (now : Z) (key : Game.Key) (g : Game.t) :
  keeps (fst (Game.run_keydown now key g)) g.
Proof.
  assert (Hnew : forall g0, keeps (Game.new_game now g0) g).
  { intros g0. destruct (new_game_ok now g0). split; auto. }
  unfold Game.run_keydown.
  destruct (GameState.eqb (Game.state g) GameState.MENU).
  { destruct key; cbn [fst]; try apply keeps_refl; apply Hnew. }
  destruct (GameState.eqb (Game.state g) GameState.STORY
            && match key with Game.Key_SPACE => true | _ => false end).
  { destruct (negb _); cbn [fst]; [apply keeps_same; reflexivity|].
    destruct (negb _); cbn [fst]; apply keeps_same; reflexivity. }
  destruct (GameState.eqb (Game.state g) GameState.UPGRADE).
  { destruct key; cbn [fst]; try apply keeps_refl; apply keeps_apply_upgrade. }
  destruct key; cbn [fst]; try apply keeps_refl.
  - destruct (Game.over_or_victory _); [apply keeps_same; reflexivity|].
    destruct (GameState.eqb _ _); [apply keeps_same; reflexivity|apply
        keeps_refl].
  - destruct (GameState.eqb _ _); [|apply keeps_refl].
    pose proof (keeps_shoot now g) as Hs. unfold Player.shoot in *.
    destruct (_ >? _)%num; exact Hs.
  - destruct (Game.over_or_victory _); [apply Hnew|apply keeps_refl].
  - destruct (GameState.eqb _ _); [|apply keeps_refl].
    unfold Player.activate_shield.
    destruct (_ >? _)%num; apply keeps_same; reflexivity.
Qed.

Lemma keeps_events (events : list (Z * Game.Event)) :
  forall (g : Game.t) (running : bool),
  keeps (fst (fold_left
                (fun '(g, running) '(now, e) =>
                   let '(g, r) := Game.run_event now e g in (g, running && r))
                events (g, running))) g.
Proof.
  induction events as [|[now e] events IH]; intros g running;
    [apply keeps_refl|].
  cbn [fold_left].
  destruct (Game.run_event now e g) as [g1 r] eqn:E.
  eapply keeps_trans; [apply IH|].
  change g1 with (fst (g1, r)). rewrite <- E.
  destruct e; cbn [Game.run_event fst]; try apply keeps_refl.
  apply keeps_run_keydown.
Qed.

Lemma keeps_run_frame `{Libm} (events : list (Z * Game.Event)) (keys : Keys)
    (now : Z) (g g' : Game.t) (running : bool) :
  Game.run_frame events keys now g = Some (g', running) -> keeps g' g.
Proof.
  intros Hf. unfold Game.run_frame in Hf.
  pose proof (keeps_events events g true) as He.
  destruct (fold_left _ events (g, true)) as [g1 r1]. cbn [fst] in He.
  destruct (Game.run_update keys now g1) as [g2|] eqn:Hu; [|discriminate].
  injection Hf as <- <-.
  eapply keeps_trans; [|exact He].
  eapply keeps_trans; [|apply (keeps_run_update _ _ _ _ Hu)].
  unfold Game.run_render. destruct (_ && _); [|apply keeps_refl].
  apply keeps_same; reflexivity.
Qed.

(** X22. Every round of the main loop keeps the sprite groups well
    formed: no group lists a sprite twice, every enemy is in
    [all_sprites], every member of a group is an allocated object, and
    no player bullet is in [all_sprites] (nor, then, in [enemies]). *)
Theorem X22_groups_stay_well_formed `{Libm} (events : list (Z * Game.Event))
    (keys : Keys) (now : Z) (g : Game.t) :
  groups_ok g ->
  exists g' running,
    Game.run_frame events keys now g = Some (g', running) /\ groups_ok g'.
Proof.
  intros Hg.
  destruct (frame_total events keys now g) as (g' & running & Hf).
  exists g', running. split; [exact Hf|].
  apply (keeps_run_frame _ _ _ _ _ _ Hf), Hg.
Qed.

Lemma X22_groups_stay_well_formed_witness :
  exists g' running,
    @Game.run_frame sample_libm [(0, Game.KEYDOWN Game.Key_1)] space_key 0
                    (Game.init sample_rng)
    = Some (g', running)
    /\ groups_ok g'.
Proof.
  apply (@X22_groups_stay_well_formed sample_libm).
  apply groups_ok_empty.
Defined.

(** X23. Every round of the main loop keeps the player's health at or
    below [max_health]. *)
Theorem X23_health_never_exceeds_maximum `{Libm}
    (events : list (Z * Game.Event)) (keys : Keys) (now : Z) (g : Game.t) :
  health_ok g ->
  exists g' running,
    Game.run_frame events keys now g = Some (g', running) /\ health_ok g'.
Proof.
  intros Hg.
  destruct (frame_total events keys now g) as (g' & running & Hf).
  exists g', running. split; [exact Hf|].
  apply (keeps_run_frame _ _ _ _ _ _ Hf), Hg.
Qed.

Lemma X23_health_never_exceeds_maximum_witness :
  exists g' running,
    @Game.run_frame sample_libm [] no_keys 0 scene_last_hit
    = Some (g', running)
    /\ health_ok g'.
Proof.
  apply (@X23_health_never_exceeds_maximum sample_libm).
  vm_compute. discriminate.
Defined.

(** ** Key presses *)

(** X24. What a key press can do to the state: from the menu to the
    story; from the story or the upgrade screen to the game; from the
    game to the menu; from game-over or victory to the menu or, by a new
    game, to the story; or nothing. It stops the loop only when it is
    Escape in the menu, and then changes nothing. *)
Theorem X24_key_press_transitions (now : Z) (key : Game.Key) (g : Game.t) :
  let r := Game.run_keydown now key g in
  key_transition (Game.state g) (Game.state (fst r)) = true
  /\ (snd r = false <->
      Game.state g = GameState.MENU /\ key = Game.Key_ESCAPE)
  /\ (snd r = false -> fst r = g).
Proof.
  cbv zeta.
  assert (Hnew : forall g0, Game.state (Game.new_game now g0) =
      GameState.STORY).
  { intros g0. apply new_game_spec. }
  assert (Hup : forall u, Game.state (Game.apply_upgrade u g) = GameState.GAME).
  { intros u. reflexivity. }
  unfold Game.run_keydown, Game.over_or_victory, Player.shoot, alloc,
    StoryManager.has_current_story, StoryManager.advance_story.
  destruct (Game.state g) eqn:Es; destruct key;
    cbn [GameState.eqb andb orb negb fst snd];
    rewrite ?Hnew, ?Hup, ?Es;
    repeat match goal with
           | |- context [if ?c then _ else _] => destruct c
           end;
    cbn [fst snd Game.state Game.set_state Game.set_story_manager
         Game.set_store Game.set_player];
    rewrite ?Hnew, ?Es;
    (split; [reflexivity|]);
    (split; [|try discriminate; reflexivity]);
    split; try discriminate; try (intros [? ?]; discriminate); auto.
Qed.

(** ** Shooting, spawning and the difficulty increase *)

(** X25. [Player.shoot] either does nothing at all (it is too soon
    after the last shot) or creates exactly one bullet: 5 by 15,
    horizontally centred on the player with its bottom at the player's
    top, flying upward at [BULLET_SPEED], its damage 10 times the damage
    upgrade; the bullet joins [player.bullets] and the clock sample
    becomes [last_shot]. *)
Theorem X25_shot_places_one_bullet (now : Z) (p : Player.t)
    (st : list Sprite) :
  let u := Player.upgrades p in
  let fires :=
    (Int (now - Player.last_shot p)
     >? Int (Player.shoot_delay p) / Player.u_fire_rate u)%num in
  (fires = false -> Player.shoot now p st = (None, p, st))
  /\ (fires = true ->
      exists b,
        Player.shoot now p st
        = (Some (length st),
           Player.set_bullets (group_add (length st) (Player.bullets p))
                              (Player.set_last_shot now p),
           st ++ [b])
        /\ Rect.w (rect b) = 5 /\ Rect.h (rect b) = 15
        /\ Rect.centerx (rect b) = Rect.centerx (Player.rect p)
        /\ Rect.bottom (rect b) = Rect.top (Player.rect p)
        /\ speed b = Int Config.BULLET_SPEED
        /\ kind b = KBullet (Int 10 * Player.u_damage u)%num
        /\ health b = Int 1).
Proof.
  cbv zeta. unfold Player.shoot.
  destruct (_ >? _)%num; split; try discriminate; intros _; [|reflexivity].
  eexists. split; [reflexivity|].
  cbn. unfold Rect.centerx, Rect.bottom, Rect.top. cbn.
  repeat apply conj; try reflexivity; lia.
Qed.

Lemma X25_shot_places_one_bullet_witness :
  exists b,
    Player.shoot 251 (Player.init 0) []
    = (Some 0%nat,
       Player.set_bullets [0%nat] (Player.set_last_shot 251 (Player.init 0)),
       [b])
    /\ rect b = Rect.mk 398 535 5 15.
Proof.
  destruct (X25_shot_places_one_bullet 251 (Player.init 0) [])
    as [_ H].
  destruct (H eq_refl) as (b & E & _). exists b. split; [exact E|].
  vm_compute in E. injection E as <-. reflexivity.
Defined.

Lemma level_complete_store_empty (g : Game.t) :
  Game.enemies g = [] ->
  exists new, Game.store (Game.level_complete g) = Game.store g ++ new.
Proof.
  intros He. unfold Game.level_complete.
  set (ga := Game.set_player _ (Game.set_level _ g)).
  assert (Ha : Game.store ga = Game.store g) by reflexivity.
  set (gb := if Game.level ga mod 3 =? 0 then _ else ga).
  assert (Hb : Game.store gb = Game.store g).
  { unfold gb. destruct (_ =? 0); [|exact Ha].
    change (Game.enemies ga) with (Game.enemies g). rewrite He. exact Ha. }
  clearbody gb. clear Ha. clearbody ga.
  set (gc := if Game.level gb mod 5 =? 0 then _ else Game.spawn_enemies gb).
  assert (Hc : exists new, Game.store gc = Game.store g ++ new).
  { assert (Hspawn : forall g0, Game.store g0 = Game.store g ->
              exists new, Game.store (Game.spawn_enemies g0) = Game.store g ++
                  new).
    { intros g0 H0. destruct (spawn_enemies_spec g0) as ((new & Hn & _) & _).
      exists new. now rewrite Hn, H0. }
    unfold gc. destruct (Game.level gb mod 5 =? 0).
    - destruct (StoryManager.advance_story _) as [sm more]. destruct more.
      + exists []. rewrite app_nil_r. exact Hb.
      + apply Hspawn. exact Hb.
    - apply Hspawn, Hb. }
  clearbody gc. destruct Hc as (new & Hc). exists new.
  destruct (_ >? _); [|exact Hc].
  destruct (victory_frame gc) as (_ & _ & Hs & _). now rewrite Hs.
Qed.

(** X26. The speed increase of [level_complete] never applies: the
    level is only completed from [check_collisions], with the [enemies]
    group empty, so [check_collisions] returns with every sprite that
    existed before it unchanged up to its health - also when the new
    level is a multiple of 3. *)
Theorem X26_speed_increase_never_applies (g : Game.t) :
  exists g',
    Game.check_collisions g = Some g'
    /\ forall (i : nat) (s : Sprite),
         Game.store g !! i = Some s ->
         exists h, Game.store g' !! i = Some (set_health h s).
Proof.
  destruct (check_collisions_total g) as (g' & Hcc). exists g'.
  split; [exact Hcc|].
  unfold Game.check_collisions in Hcc.
  destruct (Game.collisions g) as [g2|] eqn:Hc; [|discriminate].
  injection Hcc as <-.
  destruct (collisions_step _ _ Hc) as (_ & Hm & _).
  intros i s Hs.
  destruct (same_motion_lookup _ _ i s Hm Hs) as (h & Hh). exists h.
  unfold Game.level_completion_check.
  destruct (length (Game.enemies g2) =? 0)%nat eqn:El; [|exact Hh].
  apply Nat.eqb_eq in El.
  destruct (level_complete_store_empty g2) as (new & Hn).
  { destruct (Game.enemies g2); [reflexivity|discriminate]. }
  rewrite Hn. rewrite lookup_app_l; [exact Hh|].
  apply lookup_lt_Some in Hh. exact Hh.
Qed.

(** X27. An enemy created without a position starts above the screen and
    horizontally inside it: its 40 by 40 rectangle has its left edge at 0
    or more, its right edge below [SCREEN_WIDTH], its top at -100 or
    more and its bottom above 0; its speed is [ENEMY_SPEED] times the
    speed factor of the difficulty, whatever the level; two values are
    drawn from the generator. *)
Theorem X27_enemies_spawn_above_the_screen (d : DifficultyValue)
    (rng : Random.t) :
  let s := fst (Enemy.init d None None rng) in
  0 <= Rect.left (rect s)
  /\ Rect.right (rect s) < Config.SCREEN_WIDTH
  /\ -100 <= Rect.top (rect s)
  /\ Rect.bottom (rect s) < 0
  /\ Rect.w (rect s) = 40 /\ Rect.h (rect s) = 40
  /\ speed s = (Int Config.ENEMY_SPEED * d_speed d)%num
  /\ Random.cursor (snd (Enemy.init d None None rng))
     = (Random.cursor rng + 2)%nat.
Proof.
  cbv zeta. unfold Enemy.init, Random.randrange, Random.next. cbn.
  unfold Rect.left, Rect.right, Rect.top, Rect.bottom, Config.SCREEN_WIDTH. cbn.
  pose proof (Z.mod_pos_bound (Random.raw rng (Random.cursor rng)) 760
                ltac:(lia)).
  pose proof (Z.mod_pos_bound (Random.raw rng (S (Random.cursor rng))) 60
                ltac:(lia)).
  change (800 - 40 - 0) with 760. change (-40 - -100) with 60.
  repeat apply conj; try reflexivity; lia.
Qed.
